(** * MeetingMind: the cached S3 video transcription pipeline

    A shallow embedding of [src/scripts/utils_aws.py] and proofs about
    [transcribe_s3_video_with_cache]: key derivation, cache lookup, the
    job poll loop, scratch files and segmentation.

    Conventions.  A Python [str] is a Rocq [string] holding the UTF-8
    encoding of the text; every pattern the code searches for
    ("s3://", "/", ".", ". ") is ASCII, so searching the encoding and
    searching the code points agree.  [bytes] are a [string] too.

    The world of a run is explicit: the object store, the local files,
    the clock, the job service and the trace of everything the run did.
    What the services answer is part of the world: a list of faults for
    the calls of the S3 API (any exception, so also the refusals the
    client raises by itself before sending anything), and a script of
    answers for the status requests of the transcription job.  ffmpeg
    and [json.loads] are parameters of the pipeline.  Assertions are
    taken as enabled.  The [while True] loop is followed with fuel; a
    run out of fuel is [Diverge], which stands for a loop still
    waiting. *)

From Stdlib Require Import ZArith Lia List String Ascii Sorted.
From stdpp Require Import base option strings gmap pretty.
Import ListNotations.
Open Scope string_scope.
Open Scope list_scope.

(** ** Python string operations used by the pipeline *)

Module Py.

(** [s.startswith(p)] *)
Definition startswith (s p : string) : bool := String.prefix p s.

(** Scans [s] left to right; [skip] counts the characters of a match of
    [old] that are still to be dropped. *)
Fixpoint replace_aux (old new : string) (skip : nat) (s : string) : string :=
  match s with
  | EmptyString => EmptyString
  | String c s' =>
      match skip with
      | S k => replace_aux old new k s'
      | O =>
          if String.prefix old s
          then new +:+ replace_aux old new (String.length old - 1) s'
          else String c (replace_aux old new 0 s')
      end
  end.

(** [s.replace(old, new)] for a non-empty [old]: every non-overlapping
    occurrence, leftmost first. *)
Definition replace (s old new : string) : string := replace_aux old new 0 s.

(** [limit] is the number of splits still allowed ([None]: no limit);
    [cur] is the piece being read. *)
Fixpoint split_aux (sep : string) (limit : option nat) (skip : nat)
    (cur : string) (s : string) : list string :=
  match s with
  | EmptyString => [cur]
  | String c s' =>
      match skip with
      | S k => split_aux sep limit k cur s'
      | O =>
          match limit with
          | Some O => split_aux sep limit 0 (cur +:+ String c EmptyString) s'
          | _ =>
              if String.prefix sep s
              then cur :: split_aux sep (pred <$> limit)
                            (String.length sep - 1) EmptyString s'
              else split_aux sep limit 0 (cur +:+ String c EmptyString) s'
          end
      end
  end.

(** [s.split(sep)] for a non-empty [sep]. *)
Definition split (s sep : string) : list string :=
  split_aux sep None 0 EmptyString s.

(** [s.split(sep, maxsplit)] for a non-empty [sep]. *)
Definition split_max (s sep : string) (maxsplit : nat) : list string :=
  split_aux sep (Some maxsplit) 0 EmptyString s.

Definition rev_string (s : string) : string :=
  string_of_list_ascii (rev (list_ascii_of_string s)).

(** [s.rsplit(sep, maxsplit)]: the same scan from the right end. *)
Definition rsplit_max (s sep : string) (maxsplit : nat) : list string :=
  rev (map rev_string (split_max (rev_string s) (rev_string sep) maxsplit)).

(** [sep.join(parts)] *)
Fixpoint join (sep : string) (parts : list string) : string :=
  match parts with
  | [] => EmptyString
  | [p] => p
  | p :: ps => p +:+ sep +:+ join sep ps
  end.

(** [p[p.rfind('/') + 1:]], which is [posixpath.basename]. *)
Fixpoint basename_aux (cur : string) (p : string) : string :=
  match p with
  | EmptyString => cur
  | String c p' =>
      if Ascii.eqb c "/" then basename_aux EmptyString p'
      else basename_aux (cur +:+ String c EmptyString) p'
  end.

Definition basename (p : string) : string := basename_aux EmptyString p.

Definition all_dots (s : string) : bool :=
  forallb (fun c => Ascii.eqb c ".") (list_ascii_of_string s).

(** [os.path.splitext(p)[-1]]: the part of the last path component from
    its last dot on, unless only dots come before that dot. *)
Definition splitext_ext (p : string) : string :=
  match rsplit_max (basename p) "." 1 with
  | [stem; ext] => if all_dots stem then EmptyString else "." +:+ ext
  | _ => EmptyString
  end.

(** [s[n:]] *)
Fixpoint drop (n : nat) (s : string) : string :=
  match n, s with
  | S n', String _ s' => drop n' s'
  | _, _ => s
  end.

(** [str(int(t))] for a whole number of seconds [t]. *)
Definition str_int (t : Z) : string := pretty t.

End Py.

(** ** UTF-8 *)

Module Utf8.

Definition between (lo b hi : N) : bool := ((lo <=? b) && (b <=? hi))%N.

(** [need] continuation bytes are still expected; the next one must lie
    in [lo..hi] (the first continuation byte of a sequence has tighter
    bounds after some lead bytes: no overlong forms, no surrogates,
    nothing above U+10FFFF). *)
Fixpoint valid_aux (need : nat) (lo hi : N) (s : string) : bool :=
  match s with
  | EmptyString => match need with O => true | S _ => false end
  | String c s' =>
      let b := N_of_ascii c in
      match need with
      | S k => between lo b hi && valid_aux k 0x80 0xbf s'
      | O =>
          if (b <? 0x80)%N then valid_aux 0 0x80 0xbf s'
          else if between 0xc2 b 0xdf then valid_aux 1 0x80 0xbf s'
          else if (b =? 0xe0)%N then valid_aux 2 0xa0 0xbf s'
          else if (b =? 0xed)%N then valid_aux 2 0x80 0x9f s'
          else if between 0xe1 b 0xef then valid_aux 2 0x80 0xbf s'
          else if (b =? 0xf0)%N then valid_aux 3 0x90 0xbf s'
          else if between 0xf1 b 0xf3 then valid_aux 3 0x80 0xbf s'
          else if (b =? 0xf4)%N then valid_aux 3 0x80 0x8f s'
          else false
      end
  end.

Definition valid (s : string) : bool := valid_aux 0 0x80 0xbf s.

(** The continuation bytes that follow a lead byte. *)
Fixpoint continuation (s : string) : string :=
  match s with
  | EmptyString => EmptyString
  | String c s' =>
      if between 0x80 (N_of_ascii c) 0xbf then String c (continuation s')
      else EmptyString
  end.

(** The first code point of a non-empty text, [None] on the empty one. *)
Definition first_char (s : string) : option string :=
  match s with
  | EmptyString => None
  | String c s' => Some (String c (continuation s'))
  end.

End Utf8.

(** ** Exceptions, values and the world the pipeline runs in *)

Inductive exn : Type :=
  | AssertionError (msg : string)
  | ValueError (msg : string)
  | KeyError (key : string)
  | IndexError (msg : string)
  | TypeError (msg : string)
  | UnicodeDecodeError
  | JSONDecodeError
  | RuntimeError (msg : string)
  | CalledProcessError
  (** [botocore.exceptions.ClientError]: the service answered with an
      error; [code] is the error code of the response ("404",
      "NoSuchKey", "AccessDenied", "SlowDown", ...). *)
  | ClientError (code : string)
  (** Any exception of another class, by class name: botocore's
      [EndpointConnectionError], [ConnectTimeoutError],
      [ParamValidationError], boto3's [S3UploadFailedError], ... *)
  | OtherError (class_name : string).

#[global] Instance exn_eq_dec : EqDecision exn.
Proof. solve_decision. Defined.

(** A parsed JSON document, as [json.load] returns it. *)
#[warnings="-register-all"]
Inductive json : Type :=
  | JNull
  | JBool (b : bool)
  | JNumber (lexeme : string)
  | JString (s : string)
  | JArray (items : list json)
  | JObject (members : list (string * json)).

(** The answer of [get_transcription_job]: the status field the loop
    reads, and the rendering of the whole answer by [str()]. *)
Record job_response : Type := mkResponse {
  TranscriptionJobStatus : string;
  response_str : string
}.

Inductive poll_reply : Type :=
  | PollOk (r : job_response)
  | PollRaise (e : exn).

Inductive event : Type :=
  | EvPrint (line : string)
  | EvHeadObject (bucket key : string)
  | EvGetObject (bucket key : string)
  | EvDownloadFile (bucket key path : string)
  | EvUploadFile (path bucket key : string)
  | EvPutObject (bucket key body : string)
  | EvTempFile (path : string)
  | EvFfmpeg (video_path : string) (sample_rate_hz : Z) (wav_path : string)
  | EvStartJob (job_name media_uri language_code bucket output_key : string)
  | EvGetJob (job_name : string) (reply : poll_reply)
  | EvSleep (seconds : Z)
  | EvOpenRead (path : string).

Record World : Type := mkWorld {
  (** the object store: (bucket, key) to bytes *)
  s3_objects : gmap (string * string) string;
  (** what the next calls of the S3 API do: [Some e] makes the call
      raise [e], [None] (or an exhausted list) lets it through *)
  s3_faults : list (option exn);
  (** local files: path to bytes *)
  local_files : gmap string string;
  (** serial number of the next temporary file name *)
  tmp_serial : nat;
  (** [time.time()], in whole seconds *)
  clock : Z;
  (** the transcription jobs started so far: name to output bucket and key *)
  jobs : gmap string (string * string);
  (** whether [start_transcription_job] is refused *)
  start_fault : option exn;
  (** the answer of the job service to the n-th status request *)
  poll_script : nat -> poll_reply;
  polls_done : nat;
  (** the document the job service writes when a job completes *)
  job_output : string;
  (** what an ffmpeg that fails in the middle of a conversion leaves in
      its output file; [None] when it leaves the file as it found it *)
  ffmpeg_leftover : option string;
  (** everything done so far, oldest first *)
  trace : list event
}.

Definition set_s3_objects (f : gmap (string * string) string -> gmap (string * string) string)
    (w : World) : World :=
  mkWorld (f (s3_objects w)) (s3_faults w) (local_files w) (tmp_serial w) (clock w)
          (jobs w) (start_fault w) (poll_script w) (polls_done w) (job_output w)
          (ffmpeg_leftover w) (trace w).

Definition set_s3_faults (fs : list (option exn)) (w : World) : World :=
  mkWorld (s3_objects w) fs (local_files w) (tmp_serial w) (clock w)
          (jobs w) (start_fault w) (poll_script w) (polls_done w) (job_output w)
          (ffmpeg_leftover w) (trace w).

Definition set_local_files (f : gmap string string -> gmap string string) (w : World) : World :=
  mkWorld (s3_objects w) (s3_faults w) (f (local_files w)) (tmp_serial w) (clock w)
          (jobs w) (start_fault w) (poll_script w) (polls_done w) (job_output w)
          (ffmpeg_leftover w) (trace w).

Definition set_tmp_serial (n : nat) (w : World) : World :=
  mkWorld (s3_objects w) (s3_faults w) (local_files w) n (clock w)
          (jobs w) (start_fault w) (poll_script w) (polls_done w) (job_output w)
          (ffmpeg_leftover w) (trace w).

Definition set_clock (t : Z) (w : World) : World :=
  mkWorld (s3_objects w) (s3_faults w) (local_files w) (tmp_serial w) t
          (jobs w) (start_fault w) (poll_script w) (polls_done w) (job_output w)
          (ffmpeg_leftover w) (trace w).

Definition set_jobs (f : gmap string (string * string) -> gmap string (string * string))
    (w : World) : World :=
  mkWorld (s3_objects w) (s3_faults w) (local_files w) (tmp_serial w) (clock w)
          (f (jobs w)) (start_fault w) (poll_script w) (polls_done w) (job_output w)
          (ffmpeg_leftover w) (trace w).

Definition set_polls_done (n : nat) (w : World) : World :=
  mkWorld (s3_objects w) (s3_faults w) (local_files w) (tmp_serial w) (clock w)
          (jobs w) (start_fault w) (poll_script w) n (job_output w)
          (ffmpeg_leftover w) (trace w).

Definition set_trace (t : list event) (w : World) : World :=
  mkWorld (s3_objects w) (s3_faults w) (local_files w) (tmp_serial w) (clock w)
          (jobs w) (start_fault w) (poll_script w) (polls_done w) (job_output w)
          (ffmpeg_leftover w) t.

(** ** The monad of the pipeline: state, exceptions and divergence *)

Inductive outcome (A : Type) : Type :=
  | Ok (a : A)
  | Raise (e : exn)
  | Diverge.
Arguments Ok {A} a.
Arguments Raise {A} e.
Arguments Diverge {A}.

Definition M (A : Type) : Type := World -> outcome A * World.

Definition ret {A} (a : A) : M A := fun w => (Ok a, w).

Definition bind {A B} (c : M A) (k : A -> M B) : M B :=
  fun w =>
    match c w with
    | (Ok a, w') => k a w'
    | (Raise e, w') => (Raise e, w')
    | (Diverge, w') => (Diverge, w')
    end.

Definition raise {A} (e : exn) : M A := fun w => (Raise e, w).
Definition diverge {A} : M A := fun w => (Diverge, w).
Definition get_world : M World := fun w => (Ok w, w).
Definition modify (f : World -> World) : M unit := fun w => (Ok tt, f w).
Definition emit (e : event) : M unit := modify (fun w => set_trace (trace w ++ [e]) w).

(** [try: c  except ClientError: h] *)
Definition try_except_ClientError {A} (c h : M A) : M A :=
  fun w =>
    match c w with
    | (Raise (ClientError _), w') => h w'
    | r => r
    end.

Declare Scope py_scope.
Delimit Scope py_scope with py.
Notation "'do' x <- c ; k" := (bind c (fun x => k))
  (at level 10, x name, c at level 100, k at level 200) : py_scope.
Notation "'do' ' p <- c ; k" := (bind c (fun x => match x with p => k end))
  (at level 10, p pattern, c at level 100, k at level 200) : py_scope.
Notation "c ;; k" := (bind c (fun _ => k))
  (at level 100, k at level 200, right associativity) : py_scope.
Open Scope py_scope.

(** ** The services and the library calls *)

Definition print (line : string) : M unit := emit (EvPrint line).

(** [time.time()], truncated by [int()] at its only use. *)
Definition time_time : M Z := fun w => (Ok (clock w), w).

Definition time_sleep (seconds : Z) : M unit :=
  emit (EvSleep seconds) ;;
  modify (fun w => set_clock (clock w + seconds) w).

(** Every call of the S3 API takes the next entry of [s3_faults]. *)
Definition s3_api : M unit :=
  fun w =>
    (match hd None (s3_faults w) with Some e => Raise e | None => Ok tt end,
     set_s3_faults (tl (s3_faults w)) w).

Definition s3_head_object (Bucket Key : string) : M unit :=
  emit (EvHeadObject Bucket Key) ;;
  s3_api ;;
  do w <- get_world;
  match s3_objects w !! (Bucket, Key) with
  | Some _ => ret tt
  | None => raise (ClientError "404")
  end.

Definition s3_get_object (Bucket Key : string) : M string :=
  emit (EvGetObject Bucket Key) ;;
  s3_api ;;
  do w <- get_world;
  match s3_objects w !! (Bucket, Key) with
  | Some body => ret body
  | None => raise (ClientError "NoSuchKey")
  end.

Definition s3_download_file (Bucket Key Filename : string) : M unit :=
  emit (EvDownloadFile Bucket Key Filename) ;;
  s3_api ;;
  do w <- get_world;
  match s3_objects w !! (Bucket, Key) with
  | Some body => modify (set_local_files (insert Filename body))
  | None => raise (ClientError "404")
  end.

Definition s3_upload_file (Filename Bucket Key : string) : M unit :=
  emit (EvUploadFile Filename Bucket Key) ;;
  s3_api ;;
  do w <- get_world;
  match local_files w !! Filename with
  | Some body => modify (set_s3_objects (insert (Bucket, Key) body))
  | None => raise (OtherError "FileNotFoundError")
  end.

(** [Body] is whatever Python value the caller passes; the client
    accepts text (and bytes) and refuses the other JSON values before
    anything is sent; text is sent in UTF-8, and text that has no UTF-8
    encoding (a lone surrogate) is refused as well. *)
Definition s3_put_object (Bucket Key : string) (Body : json) : M unit :=
  match Body with
  | JString body =>
      if Utf8.valid body then
        emit (EvPutObject Bucket Key body) ;;
        s3_api ;;
        modify (set_s3_objects (insert (Bucket, Key) body))
      else raise (OtherError "UnicodeEncodeError")
  | _ => raise (OtherError "ParamValidationError")
  end.

(** [bytes.decode("utf-8")] *)
Definition decode_utf8 (body : string) : M string :=
  if Utf8.valid body then ret body else raise UnicodeDecodeError.

Definition tmp_path (serial : nat) (suffix : string) : string :=
  "/tmp/tmp" +:+ pretty serial +:+ suffix.

(** [tempfile.NamedTemporaryFile(suffix=suffix, delete=False).name]: a
    new empty file that nothing removes. *)
Definition NamedTemporaryFile (suffix : string) : M string :=
  do w <- get_world;
  let name := tmp_path (tmp_serial w) suffix in
  emit (EvTempFile name) ;;
  modify (fun w => set_tmp_serial (S (tmp_serial w))
                     (set_local_files (insert name EmptyString) w)) ;;
  ret name.

Definition start_transcription_job
    (TranscriptionJobName MediaFileUri LanguageCode OutputBucketName OutputKey : string)
    : M unit :=
  emit (EvStartJob TranscriptionJobName MediaFileUri LanguageCode
                   OutputBucketName OutputKey) ;;
  do w <- get_world;
  match start_fault w with
  | Some e => raise e
  | None =>
      match jobs w !! TranscriptionJobName with
      | Some _ => raise (ClientError "ConflictException")
      | None =>
          modify (set_jobs (insert TranscriptionJobName (OutputBucketName, OutputKey)))
      end
  end.

(** The service answers from its script; an answer COMPLETED comes with
    the output document written where the job was told to write it. *)
Definition get_transcription_job (TranscriptionJobName : string) : M job_response :=
  do w <- get_world;
  match jobs w !! TranscriptionJobName with
  | None =>
      let e := ClientError "BadRequestException" in
      emit (EvGetJob TranscriptionJobName (PollRaise e)) ;; raise e
  | Some out =>
      let reply := poll_script w (polls_done w) in
      emit (EvGetJob TranscriptionJobName reply) ;;
      modify (set_polls_done (S (polls_done w))) ;;
      match reply with
      | PollRaise e => raise e
      | PollOk r =>
          (if String.eqb (TranscriptionJobStatus r) "COMPLETED"
           then modify (fun w => set_s3_objects (insert out (job_output w)) w)
           else ret tt) ;;
          ret r
      end
  end.

(** [d[key]] for a text key *)
Definition subscript_key (v : json) (key : string) : M json :=
  match v with
  | JObject members =>
      match find (fun kv => String.eqb (fst kv) key) members with
      | Some kv => ret (snd kv)
      | None => raise (KeyError key)
      end
  | JArray _ => raise (TypeError "list indices must be integers or slices, not str")
  | JString _ => raise (TypeError "string indices must be integers, not 'str'")
  | _ => raise (TypeError "object is not subscriptable")
  end.

(** [d[0]] *)
Definition subscript_0 (v : json) : M json :=
  match v with
  | JArray (x :: _) => ret x
  | JArray [] => raise (IndexError "list index out of range")
  | JString s =>
      match Utf8.first_char s with
      | Some c => ret (JString c)
      | None => raise (IndexError "string index out of range")
      end
  | JObject _ => raise (KeyError "0")
  | _ => raise (TypeError "object is not subscriptable")
  end.

(** ** The pipeline, function by function *)

Section Pipeline.

(** What ffmpeg makes of the bytes of a video at a sample rate: the
    bytes of the wav file, or [None] when it exits with an error. *)
Variable ffmpeg : string -> Z -> option string.

(** [json.loads]: [None] when the text is not a JSON document. *)
Variable json_loads : string -> option json.

(** [subprocess.run(["ffmpeg", "-y", "-i", video_path, ..., wav_path],
    check=True, ...)]: ffmpeg opens its output once it has read the
    input, so without input it touches nothing; a conversion that
    fails may have written to [wav_path] before the process ends with
    an error. *)
Definition subprocess_run_ffmpeg (video_path : string) (sample_rate_hz : Z)
    (wav_path : string) : M unit :=
  emit (EvFfmpeg video_path sample_rate_hz wav_path) ;;
  do w <- get_world;
  match local_files w !! video_path with
  | None => raise CalledProcessError
  | Some video =>
      match ffmpeg video sample_rate_hz with
      | Some wav => modify (set_local_files (insert wav_path wav))
      | None =>
          match ffmpeg_leftover w with
          | Some part => modify (set_local_files (insert wav_path part))
          | None => ret tt
          end ;;
          raise CalledProcessError
      end
  end.

(** [with open(path, "r") as f: data = json.load(f)]: the file is
    open in text mode, so its bytes are decoded before they are parsed. *)
Definition json_load_file (path : string) : M json :=
  emit (EvOpenRead path) ;;
  do w <- get_world;
  match local_files w !! path with
  | None => raise (OtherError "FileNotFoundError")
  | Some bytes =>
      do text <- decode_utf8 bytes;
      match json_loads text with
      | Some data => ret data
      | None => raise JSONDecodeError
      end
  end.

Definition extract_audio_ffmpeg (video_path : string) (sample_rate_hz : Z) : M string :=
  do tmp_wav <- NamedTemporaryFile ".wav";
  subprocess_run_ffmpeg video_path sample_rate_hz tmp_wav ;;
  ret tmp_wav.

Definition upload_to_s3 (local_path bucket_name key region_name : string) : M string :=
  s3_upload_file local_path bucket_name key ;;
  ret ("s3://" +:+ bucket_name +:+ "/" +:+ key).

Definition download_from_s3 (bucket_name key region_name : string) : M string :=
  do tmp_file <- NamedTemporaryFile (Py.splitext_ext key);
  s3_download_file bucket_name key tmp_file ;;
  ret tmp_file.

Definition check_cache (bucket_name transcript_key region_name : string)
    : M (bool * string) :=
  try_except_ClientError
    (s3_head_object bucket_name transcript_key ;;
     do body <- s3_get_object bucket_name transcript_key;
     do transcript <- decode_utf8 body;
     ret (true, transcript))
    (ret (false, EmptyString)).

Definition save_transcript_cache (bucket_name key : string) (transcript : json)
    (region_name : string) : M unit :=
  s3_put_object bucket_name key transcript.

(** [job_status in ["COMPLETED", "FAILED"]] *)
Definition terminal (job_status : string) : bool :=
  existsb (String.eqb job_status) ["COMPLETED"; "FAILED"].

(** The [while True] loop of [run_transcription_job]; [fuel] bounds the
    number of status requests the model follows, the code has no bound. *)
Fixpoint wait_for_job (fuel : nat) (job_name : string) : M job_response :=
  match fuel with
  | O => diverge
  | S fuel' =>
      do status <- get_transcription_job job_name;
      if terminal (TranscriptionJobStatus status) then ret status
      else
        print "⏳ Waiting for transcription to finish..." ;;
        time_sleep 10 ;;
        wait_for_job fuel' job_name
  end.

(** Line 83: [f"transcription/{job_name}.json"] *)
Definition output_key_of (job_name : string) : string :=
  "transcription/" +:+ job_name +:+ ".json".

Definition run_transcription_job (fuel : nat)
    (job_name s3_audio_uri bucket_name language_code : string) : M string :=
  let output_key := output_key_of job_name in
  start_transcription_job job_name s3_audio_uri language_code bucket_name output_key ;;
  do status <- wait_for_job fuel job_name;
  if String.eqb (TranscriptionJobStatus status) "FAILED"
  then raise (RuntimeError ("Transcription job failed: " +:+ response_str status))
  else ret output_key.

(** Lines 124-125: the assertion and the unpacking of the split. *)
Definition parse_s3_uri (s3_video_uri : string) : M (string * string) :=
  if Py.startswith s3_video_uri "s3://" then
    match Py.split_max (Py.replace s3_video_uri "s3://" "") "/" 1 with
    | [bucket_name; key] => ret (bucket_name, key)
    | [] => raise (ValueError "not enough values to unpack (expected 2, got 0)")
    | [_] => raise (ValueError "not enough values to unpack (expected 2, got 1)")
    | _ => raise (ValueError "too many values to unpack (expected 2)")
    end
  else raise (AssertionError "Invalid S3 URI format").

(** Line 126: [os.path.basename(key).rsplit(".", 1)[0]] *)
Definition video_name_of (key : string) : string :=
  hd EmptyString (Py.rsplit_max (Py.basename key) "." 1).

(** Lines 128, 129 and 150: the f-strings of the derived names. *)
Definition transcript_key_of (video_name : string) : string :=
  "transcription/" +:+ video_name +:+ ".txt".

Definition audio_key_of (video_name : string) : string :=
  "audio/" +:+ video_name +:+ ".wav".

Definition job_name_of (video_name : string) (now : Z) : string :=
  "transcribe-" +:+ video_name +:+ "-" +:+ Py.str_int now.

(** The orchestrator.  Its last line splits [full_transcript]; a value
    that is not text has no [split], but [put_object] has refused such
    a value before that line is reached. *)
Definition transcribe_s3_video_with_cache (fuel : nat)
    (s3_video_uri region_name : string) (sample_rate_hz : Z) (language_code : string)
    : M (string * list string * bool) :=
  do '(bucket_name, key) <- parse_s3_uri s3_video_uri;
  let video_name := video_name_of key in
  let transcript_key := transcript_key_of video_name in
  let audio_key := audio_key_of video_name in
  do '(is_cached, cached_transcript) <- check_cache bucket_name transcript_key region_name;
  if is_cached : bool then
    print "✅ Using cached transcript" ;;
    ret (cached_transcript, Py.split cached_transcript ". ", true)
  else
    print "⬇️ Downloading video from S3..." ;;
    do tmp_video <- download_from_s3 bucket_name key region_name;
    print "🎧 Extracting audio..." ;;
    do wav_path <- extract_audio_ffmpeg tmp_video sample_rate_hz;
    print "☁️ Uploading audio to S3..." ;;
    do s3_audio_uri <- upload_to_s3 wav_path bucket_name audio_key region_name;
    do now <- time_time;
    let job_name := job_name_of video_name now in
    print ("📝 Starting Amazon Transcribe job: " +:+ job_name) ;;
    do output_json_key <-
      run_transcription_job fuel job_name s3_audio_uri bucket_name language_code;
    do tmp_json <- download_from_s3 bucket_name output_json_key region_name;
    do data <- json_load_file tmp_json;
    do results <- subscript_key data "results";
    do transcripts <- subscript_key results "transcripts";
    do first <- subscript_0 transcripts;
    do full_transcript <- subscript_key first "transcript";
    print "💾 Caching transcript to S3..." ;;
    save_transcript_cache bucket_name transcript_key full_transcript region_name ;;
    match full_transcript with
    | JString text => ret (text, Py.split text ". ", false)
    | _ => raise (OtherError "AttributeError")
    end.

End Pipeline.

(** ** Vocabulary of the properties *)

(** What a computation adds to the trace. *)
Definition log (evs : list event) (w : World) : World :=
  set_trace (trace w ++ evs) w.

(** A relation between the world before and the world after that every
    run of [c] satisfies, whatever its outcome. *)
Definition preserves (R : World -> World -> Prop) {A} (c : M A) : Prop :=
  forall w, R w (snd (c w)).

(** [c] can return [a]. *)
Definition returns {A} (c : M A) (a : A) : Prop :=
  exists w w', c w = (Ok a, w').

(** Whenever [c] returns, the value and the world it returns in
    satisfy [P]. *)
Definition ok_only {A} (c : M A) (P : A -> World -> Prop) : Prop :=
  forall w a w', c w = (Ok a, w') -> P a w'.

(** The events of a run all satisfy [P]. *)
Definition only_events (P : event -> Prop) (w w' : World) : Prop :=
  exists evs, trace w' = trace w ++ evs /\ Forall P evs.

(** The events of a run and its outcome are related by [Q]. *)
Definition emits {A} (c : M A) (Q : outcome A -> list event -> Prop) : Prop :=
  forall w, exists evs, trace (snd (c w)) = trace w ++ evs /\ Q (fst (c w)) evs.

(** No local file disappears, and every temporary file the run creates
    is there when the run ends. *)
Definition keeps_files (w w' : World) : Prop :=
  exists evs, trace w' = trace w ++ evs /\
    (forall p, is_Some (local_files w !! p) -> is_Some (local_files w' !! p)) /\
    (forall p, In (EvTempFile p) evs -> is_Some (local_files w' !! p)).

Definition is_temp_file (e : event) : Prop :=
  match e with EvTempFile _ => True | _ => False end.

Definition is_put (e : event) : Prop :=
  match e with EvPutObject _ _ _ => True | _ => False end.

Definition is_poll (e : event) : Prop :=
  match e with EvGetJob _ _ => True | _ => False end.

(** A status request answered with the given status. *)
Definition is_poll_with (status : string) (e : event) : Prop :=
  match e with
  | EvGetJob _ (PollOk r) => TranscriptionJobStatus r = status
  | _ => False
  end.

(** The events that write the object [x] of the store: an upload or a
    put at [x], or a job reported COMPLETED (whose output is written). *)
Definition may_write (x : string * string) (e : event) : Prop :=
  match e with
  | EvUploadFile _ b k => (b, k) = x
  | EvPutObject b k _ => (b, k) = x
  | EvGetJob _ (PollOk r) => TranscriptionJobStatus r = "COMPLETED"
  | _ => False
  end.

(** The object [x] changes only in a run with an event that writes it. *)
Definition writes_only_by_events (x : string * string) (w w' : World) : Prop :=
  exists evs, trace w' = trace w ++ evs /\
    (s3_objects w' !! x = s3_objects w !! x \/ Exists (may_write x) evs).

(** The store, job and file names an event may carry in a run for the
    video [key] of [bucket]: the keys derived from the video name. *)
Definition uses_keys (bucket key : string) (e : event) : Prop :=
  let video_name := video_name_of key in
  let is_job_name name := exists now : Z, name = job_name_of video_name now in
  match e with
  | EvHeadObject b k | EvGetObject b k | EvPutObject b k _ =>
      b = bucket /\ k = transcript_key_of video_name
  | EvUploadFile _ b k => b = bucket /\ k = audio_key_of video_name
  | EvDownloadFile b k _ =>
      b = bucket /\
      (k = key \/ exists name, is_job_name name /\ k = output_key_of name)
  | EvStartJob name media _ b out =>
      is_job_name name /\ b = bucket /\ out = output_key_of name /\
      media = "s3://" +:+ bucket +:+ "/" +:+ audio_key_of video_name
  | EvGetJob name _ => is_job_name name
  | _ => True
  end.

Definition contains_slash (s : string) : bool :=
  existsb (Ascii.eqb "/") (list_ascii_of_string s).

(** What the parse of the code asks of a reference: the scheme "s3://"
    in front and a slash somewhere after it. *)
Definition has_scheme_and_slash (uri : string) : bool :=
  match uri with
  | String "s" (String "3" (String ":" (String "/" (String "/" rest)))) =>
      contains_slash rest
  | _ => false
  end.

(** The form of a reference in the words of the specification: the
    scheme "s3://", a container, a slash, a key; the container is what
    stands before the first slash, the key what stands after it, and
    neither is empty. *)
Definition has_reference_form (uri : string) : bool :=
  match uri with
  | String "s" (String "3" (String ":" (String "/" (String "/" rest)))) =>
      match Py.split_max rest "/" 1 with
      | [container; key] => negb (String.eqb container "") && negb (String.eqb key "")
      | _ => false
      end
  | _ => false
  end.

(** The first terminal answer of the job service, counted from the
    status request [from]: all answers before it are statuses that are
    not terminal. *)
Definition first_terminal_at (script : nat -> poll_reply) (from n : nat) : Prop :=
  (forall i, i < n -> exists r, script (from + i) = PollOk r /\
                                terminal (TranscriptionJobStatus r) = false) /\
  exists r, script (from + n) = PollOk r /\ terminal (TranscriptionJobStatus r) = true.

(** The events of a loop that asks [n] times in vain from request [from]. *)
Fixpoint waiting_events (script : nat -> poll_reply) (job_name : string)
    (from n : nat) : list event :=
  match n with
  | O => []
  | S n' =>
      [EvGetJob job_name (script from);
       EvPrint "⏳ Waiting for transcription to finish...";
       EvSleep 10] ++ waiting_events script job_name (S from) n'
  end.

(** The world after one status request answered by a status that is not
    terminal, the print and the sleep that follow it. *)
Definition wait_once (job_name : string) (w : World) : World :=
  let w1 := set_polls_done (S (polls_done w))
              (log [EvGetJob job_name (poll_script w (polls_done w))] w) in
  let w2 := log [EvPrint "⏳ Waiting for transcription to finish..."] w1 in
  set_clock (clock w2 + 10) (log [EvSleep 10] w2).

(** The same world with another script for the job service. *)
Definition with_script (script : nat -> poll_reply) (w : World) : World :=
  mkWorld (s3_objects w) (s3_faults w) (local_files w) (tmp_serial w) (clock w)
          (jobs w) (start_fault w) script (polls_done w) (job_output w)
          (ffmpeg_leftover w) (trace w).

(** [n] answers IN_PROGRESS from the request [from] on, then COMPLETED. *)
Definition slow_script (from n : nat) (i : nat) : poll_reply :=
  if Nat.ltb i (from + n)
  then PollOk (mkResponse "IN_PROGRESS" "{}")
  else PollOk (mkResponse "COMPLETED" "{}").

(** The lookup of [check_cache] fails with [e]: its [head_object]
    raises [e], or [head_object] returns and its [get_object] raises [e]. *)
Definition lookup_fails_with (bucket key : string) (w : World) (e : exn) : Prop :=
  fst (s3_head_object bucket key w) = Raise e \/
  (fst (s3_head_object bucket key w) = Ok tt /\
   fst (s3_get_object bucket key (snd (s3_head_object bucket key w))) = Raise e).

(** An event of the stages around the job: no status request, no put. *)
Definition quiet (e : event) : Prop := ~ is_poll e /\ ~ is_put e.

(** What a run with a FAILED answer in it looks like. *)
Definition failed_job_post {A} (failure : outcome A -> Prop)
    (r : outcome A) (evs : list event) : Prop :=
  Exists (is_poll_with "FAILED") evs ->
  failure r /\ Forall (fun e => ~ is_put e) evs /\
  Forall (fun e => ~ is_poll_with "COMPLETED" e) evs.

(** The run raised the error of a failed job. *)
Definition job_failure {A} (r : outcome A) : Prop :=
  exists detail, r = Raise (RuntimeError ("Transcription job failed: " +:+ detail)).

(** ** A sample world *)

Module Demo.

Definition quote : string := String "034" EmptyString.
Definition quoted (s : string) : string := quote +:+ s +:+ quote.

Definition bucket : string := "meeting-mind-library".
Definition video_key : string := "video/team-sync.mp4".
Definition uri : string := "s3://meeting-mind-library/video/team-sync.mp4".
Definition other_uri : string := "s3://meeting-mind-archive/video/team-sync.mp4".
Definition same_name_uri : string := "s3://meeting-mind-library/uploads/2024/team-sync.mov".

Definition video : string := "VIDEO-BYTES".
Definition wav : string := "WAV-BYTES".
Definition text : string := "Hello world. This is a test.".

(** The output document of the job:
    {"results":{"transcripts":[{"transcript":"Hello world. This is a test."}]}} *)
Definition document : string :=
  "{" +:+ quoted "results" +:+ ":{" +:+ quoted "transcripts" +:+ ":[{" +:+
  quoted "transcript" +:+ ":" +:+ quoted text +:+ "}]}}".

Definition parsed : json :=
  JObject [("results",
            JObject [("transcripts", JArray [JObject [("transcript", JString text)]])])].

(** ffmpeg on the sample video; it fails on anything else. *)
Definition ffmpeg (input : string) (sample_rate_hz : Z) : option string :=
  if String.eqb input video then Some wav else None.

(** [json.loads] on the sample document. *)
Definition json_loads (s : string) : option json :=
  if String.eqb s document then Some parsed else None.

Definition in_progress : poll_reply := PollOk (mkResponse "IN_PROGRESS" "{...}").
Definition completed : poll_reply := PollOk (mkResponse "COMPLETED" "{...}").
Definition failed : poll_reply := PollOk (mkResponse "FAILED" "{...}").

(** Two requests in vain, then COMPLETED for ever. *)
Definition script (n : nat) : poll_reply :=
  match n with 0 | 1 => in_progress | _ => completed end.

Definition failing_script (n : nat) : poll_reply :=
  match n with 0 => in_progress | _ => failed end.

(** The video is in two buckets; nothing is cached, nothing fails. *)
Definition world : World :=
  mkWorld {[ ("meeting-mind-library", "video/team-sync.mp4") := video;
             ("meeting-mind-library", "uploads/2024/team-sync.mov") := video;
             ("meeting-mind-archive", "video/team-sync.mp4") := video ]}
          [] ∅ 0 1700000000 ∅ None script 0 document None [].

Definition failing_world : World :=
  mkWorld {[ ("meeting-mind-library", "video/team-sync.mp4") := video ]}
          [] ∅ 0 1700000000 ∅ None failing_script 0 document None [].

(** The transcript is cached, but the store refuses the next call. *)
Definition denied_world : World :=
  mkWorld {[ ("meeting-mind-library", "transcription/team-sync.txt") := text ]}
          [Some (ClientError "AccessDenied")] ∅ 0 1700000000 ∅ None script 0 document None [].

Definition transcribe (fuel : nat) (uri : string) : M (string * list string * bool) :=
  transcribe_s3_video_with_cache ffmpeg json_loads fuel uri "us-west-2" 16000 "en-US".

(** The world after a first run on the sample video. *)
Definition world_after_run : World := snd (transcribe 5 uri world).

(** The sample world once the job of the sample video is started. *)
Definition polling_world : World :=
  snd (start_transcription_job "transcribe-team-sync-1700000000"
         "s3://meeting-mind-library/audio/team-sync.wav" "en-US" bucket
         "transcription/transcribe-team-sync-1700000000.json" world).

End Demo.
(** ** The caller of the pipeline *)

Section Caller.

Variable ffmpeg : string -> Z -> option string.
Variable json_loads : string -> option json.

(** [src/agent_launch.py], lines 18-25: the orchestrator with the region
    "us-west-2", the sample rate 16000 and the default language; the
    segments are dropped. *)
Definition transcript_to_text (fuel : nat) (s3_video_uri : string) : M (string * bool) :=
  do '(full_transcript, _, is_cached) <-
    transcribe_s3_video_with_cache ffmpeg json_loads fuel s3_video_uri
      "us-west-2" 16000 "en-US";
  ret (full_transcript, is_cached).

End Caller.

(** ** Vocabulary of the further properties *)

(** The character [c] occurs in [s]. *)
Definition has_char (c : ascii) (s : string) : bool :=
  existsb (Ascii.eqb c) (list_ascii_of_string s).

(** The text [sep] occurs in [s]. *)
Fixpoint occurs (sep s : string) : bool :=
  String.prefix sep s ||
  match s with
  | EmptyString => false
  | String _ s' => occurs sep s'
  end.

(** Two slashes in a row occur in [s]. *)
Fixpoint has_double_slash (s : string) : bool :=
  match s with
  | String a s' =>
      (Ascii.eqb a "/" &&
       match s' with String b _ => Ascii.eqb b "/" | EmptyString => false end)
      || has_double_slash s'
  | EmptyString => false
  end.

(** No occurrence of [sep] in [cur] followed by [rest] starts inside
    [cur]. *)
Definition starts_no_match (sep cur rest : string) : Prop :=
  forall u v, cur = u +:+ v -> v <> "" -> String.prefix sep (v +:+ rest) = false.

(** The object [x] of the store is after the run what it was before. *)
Definition unchanged_at (x : string * string) (w w' : World) : Prop :=
  s3_objects w' !! x = s3_objects w !! x.

(** No object of the store disappears. *)
Definition keeps_objects (w w' : World) : Prop :=
  forall x, is_Some (s3_objects w !! x) -> is_Some (s3_objects w' !! x).

(** Every put of the run comes after a status request answered
    COMPLETED. *)
Definition put_follows_completed (evs : list event) : Prop :=
  forall pre e post,
    evs = pre ++ e :: post -> is_put e ->
    Exists (is_poll_with "COMPLETED") pre.

(** The stage of the pipeline a call belongs to: the two calls of the
    lookup, ffmpeg, the upload of the audio, the start of the job, its
    status requests, the put of the transcript.  Prints, sleeps,
    temporary files, downloads and file reads carry no stage. *)
Definition stage (e : event) : option nat :=
  match e with
  | EvHeadObject _ _ => Some 1
  | EvGetObject _ _ => Some 2
  | EvFfmpeg _ _ _ => Some 3
  | EvUploadFile _ _ _ => Some 4
  | EvStartJob _ _ _ _ _ => Some 5
  | EvGetJob _ _ => Some 6
  | EvPutObject _ _ _ => Some 7
  | _ => None
  end.

(** [e] may come before [e']: a later stage, or both are status
    requests. *)
Definition before (e e' : event) : Prop :=
  forall i j, stage e = Some i -> stage e' = Some j -> i < j \/ (i = j /\ i = 6).

Definition in_stages (lo hi : nat) (e : event) : Prop :=
  forall i, stage e = Some i -> lo <= i <= hi.

(** The events of a run lie in the stages [lo] to [hi] and come in the
    order of the stages. *)
Definition staged (lo hi : nat) (w w' : World) : Prop :=
  exists evs, trace w' = trace w ++ evs /\
    Forall (in_stages lo hi) evs /\ StronglySorted before evs.

(** The world with more local files. *)
Definition with_local_file (path body : string) (w : World) : World :=
  set_local_files (insert path body) w.

(** ** Decimal numerals *)

Definition digit_value (c : ascii) : option N :=
  let n := N_of_ascii c in
  if (48 <=? n)%N && (n <=? 57)%N then Some (n - 48)%N else None.

(** The number a string of digits stands for, read from the left. *)
Fixpoint read_digits (acc : N) (s : string) : option N :=
  match s with
  | EmptyString => Some acc
  | String c s' =>
      match digit_value c with
      | Some d => read_digits (10 * acc + d)%N s'
      | None => None
      end
  end.

(** [d] is the decimal numeral of [t]: digits that read as [t], most
    significant first and without a leading zero, after a minus sign
    when [t] is negative. *)
Definition is_decimal_of (d : string) (t : Z) : Prop :=
  match t with
  | Z0 => d = "0"
  | Zpos p => read_digits 0 d = Some (Npos p) /\ String.prefix "0" d = false
  | Zneg p =>
      exists r, d = "-" +:+ r /\
        read_digits 0 r = Some (Npos p) /\ String.prefix "0" r = false
  end.

(** ** The events of a fresh run *)

(** The status requests of a job that completes: requests made in
    vain, each followed by the print and the sleep, then the request
    that is answered COMPLETED. *)
Definition completed_polls (job_name : string) (polls : list event) : Prop :=
  exists script from n r,
    TranscriptionJobStatus r = "COMPLETED" /\
    polls = waiting_events script job_name from n ++ [EvGetJob job_name (PollOk r)].

(** What a run that transcribes does, in order, given the names it
    uses; [lookup] is what the cache lookup does after [head_object],
    [p0], [p1] and [p2] are the temporary files. *)
Definition fresh_run_events
    (bucket key transcript_key audio_key job_name output_key : string)
    (sample_rate_hz : Z) (language_code text : string)
    (lookup polls : list event) (p0 p1 p2 : string) : list event :=
  EvHeadObject bucket transcript_key :: lookup ++
  [EvPrint "⬇️ Downloading video from S3...";
   EvTempFile p0;
   EvDownloadFile bucket key p0;
   EvPrint "🎧 Extracting audio...";
   EvTempFile p1;
   EvFfmpeg p0 sample_rate_hz p1;
   EvPrint "☁️ Uploading audio to S3...";
   EvUploadFile p1 bucket audio_key;
   EvPrint ("📝 Starting Amazon Transcribe job: " +:+ job_name);
   EvStartJob job_name ("s3://" +:+ bucket +:+ "/" +:+ audio_key) language_code
     bucket output_key] ++
  polls ++
  [EvTempFile p2;
   EvDownloadFile bucket output_key p2;
   EvOpenRead p2;
   EvPrint "💾 Caching transcript to S3...";
   EvPutObject bucket transcript_key text].

(** The run from [w] to [w'] is a fresh run for the video [key] of
    [bucket] that uses the transcript key, the audio key and, for the
    job, the name [job_prefix] followed by the decimal numeral of the
    clock of [w], and "transcription/<job name>.json" for its output. *)
Definition runs_fresh_with (w w' : World)
    (bucket key transcript_key audio_key job_prefix : string)
    (sample_rate_hz : Z) (language_code text : string) : Prop :=
  exists epoch lookup polls p0 p1 p2,
    is_decimal_of epoch (clock w) /\
    (lookup = [] \/ lookup = [EvGetObject bucket transcript_key]) /\
    completed_polls (job_prefix +:+ epoch) polls /\
    trace w' = trace w ++
      fresh_run_events bucket key transcript_key audio_key
        (job_prefix +:+ epoch)
        ("transcription/" +:+ job_prefix +:+ epoch +:+ ".json")
        sample_rate_hz language_code text lookup polls p0 p1 p2.

(** The job an event names is the job of the video name at second [t],
    with its output key. *)
Definition names_job (video_name : string) (t : Z) (e : event) : Prop :=
  let is_job_name name :=
    exists epoch, is_decimal_of epoch t /\
      name = "transcribe-" +:+ video_name +:+ "-" +:+ epoch in
  match e with
  | EvStartJob name _ _ _ out =>
      is_job_name name /\ out = "transcription/" +:+ name +:+ ".json"
  | EvGetJob name _ => is_job_name name
  | _ => True
  end.

Definition no_job (e : event) : Prop :=
  match e with
  | EvStartJob _ _ _ _ _ | EvGetJob _ _ => False
  | _ => True
  end.

Definition same_clock (w w' : World) : Prop := clock w' = clock w.

Example replace_ex1 : Py.replace "s3://bucket/key.mp4" "s3://" "" = "bucket/key.mp4".
Proof. reflexivity. Qed.
Example replace_ex2 : Py.replace "s3://a/s3://b" "s3://" "" = "a/b".
Proof. reflexivity. Qed.
Example split_ex1 : Py.split "Hello world. This is a test." ". " = ["Hello world"; "This is a test."].
Proof. reflexivity. Qed.
Example split_ex2 : Py.split "a. . b. " ". " = ["a"; ""; "b"; ""].
Proof. reflexivity. Qed.
Example split_ex3 : Py.split_max "bucket/a/b.mp4" "/" 1 = ["bucket"; "a/b.mp4"].
Proof. reflexivity. Qed.
Example split_ex4 : Py.split_max "bucket" "/" 1 = ["bucket"].
Proof. reflexivity. Qed.
Example rsplit_ex1 : Py.rsplit_max "team.sync.mp4" "." 1 = ["team.sync"; "mp4"].
Proof. reflexivity. Qed.
Example rsplit_ex2 : Py.rsplit_max "noext" "." 1 = ["noext"].
Proof. reflexivity. Qed.
Example basename_ex : Py.basename "video/sub/team-sync.mp4" = "team-sync.mp4".
Proof. reflexivity. Qed.
Example splitext_ex1 : Py.splitext_ext "video/team-sync.mp4" = ".mp4".
Proof. reflexivity. Qed.
Example splitext_ex2 : Py.splitext_ext "video.d/.hidden" = "".
Proof. reflexivity. Qed.
Example splitext_ex3 : Py.splitext_ext "a/..x.tar.gz" = ".gz".
Proof. reflexivity. Qed.
Example str_int_ex : Py.str_int 1700000000 = "1700000000".
Proof. reflexivity. Qed.

Example utf8_ex1 : Utf8.valid "Hello world. This is a test." = true.
Proof. reflexivity. Qed.
Example utf8_ex2 : Utf8.valid "⏳ café" = true.
Proof. reflexivity. Qed.
Example utf8_ex3 : Utf8.valid (String "192" (String "128" EmptyString)) = false.
Proof. reflexivity. Qed.
Example utf8_ex4 : Utf8.valid (String "237" (String "160" (String "128" EmptyString))) = false.
Proof. reflexivity. Qed.
Example utf8_ex5 : Utf8.first_char "⏳ café" = Some "⏳".
Proof. reflexivity. Qed.

(** ** Strings *)

Lemma append_nil_l (s : string) : "" +:+ s = s.
Proof. reflexivity. Qed.

Lemma append_cons c (a b : string) : String c a +:+ b = String c (a +:+ b).
Proof. reflexivity. Qed.

Lemma append_nil_r (s : string) : s +:+ "" = s.
Proof. induction s as [|x s IH]; [reflexivity | now rewrite append_cons, IH]. Qed.

Lemma append_assoc (a b c : string) : (a +:+ b) +:+ c = a +:+ (b +:+ c).
Proof.
  induction a as [|x a IH]; [reflexivity | now rewrite !append_cons, IH].
Qed.

Lemma prefix_nil (s : string) : String.prefix "" s = true.
Proof. now destruct s. Qed.

Lemma prefix_append (p s : string) :
  String.prefix p s = true -> exists rest, s = p +:+ rest.
Proof.
  revert s. induction p as [|a p IH]; intros s H.
  - now exists s.
  - destruct s as [|b s]; simpl in H; [discriminate|].
    destruct (ascii_dec a b) as [->|]; [|discriminate].
    destruct (IH _ H) as [rest ->]. exists rest. now rewrite append_cons.
Qed.

Lemma contains_slash_append (a b : string) :
  contains_slash (a +:+ b) = contains_slash a || contains_slash b.
Proof.
  unfold contains_slash. induction a as [|x a IH]; [reflexivity|].
  rewrite append_cons. simpl. now rewrite IH, orb_assoc.
Qed.

Lemma prefix_s3_needs_slash (s : string) :
  contains_slash s = false -> String.prefix "s3://" s = false.
Proof.
  intros H. destruct (String.prefix "s3://" s) eqn:E; [|reflexivity].
  apply prefix_append in E as [rest ->].
  rewrite contains_slash_append in H. discriminate.
Qed.

Lemma contains_slash_cons c s :
  contains_slash (String c s) = false ->
  c <> "/"%char /\ contains_slash s = false.
Proof.
  unfold contains_slash. simpl. intros H. apply orb_false_elim in H as [H1 H2].
  split; [|exact H2]. intros ->. discriminate.
Qed.

(** Without a slash there is no "s3://" to remove. *)
Lemma replace_without_slash (s : string) :
  contains_slash s = false -> Py.replace_aux "s3://" "" 0 s = s.
Proof.
  induction s as [|c s IH]; intros H; [reflexivity|].
  cbn [Py.replace_aux]. rewrite (prefix_s3_needs_slash _ H).
  apply contains_slash_cons in H as [_ H]. now rewrite IH.
Qed.

(** Without a slash the split has one piece. *)
Lemma split_without_slash (limit : option nat) (cur s : string) :
  contains_slash s = false -> Py.split_aux "/" limit 0 cur s = [cur +:+ s].
Proof.
  revert cur. induction s as [|c s IH]; intros cur H.
  - simpl. now rewrite append_nil_r.
  - apply contains_slash_cons in H as [Hc H].
    cbn [Py.split_aux String.prefix].
    destruct (ascii_dec "/" c) as [E|_]; [now subst c|].
    assert (IH' := IH (cur +:+ String c EmptyString) H).
    rewrite append_assoc, append_cons, append_nil_l in IH'.
    destruct limit as [[|n]|]; exact IH'.
Qed.

Lemma drop_append (a b : string) : Py.drop (String.length a) (a +:+ b) = b.
Proof. induction a as [|x a IH]; [now destruct b | now rewrite append_cons]. Qed.

Lemma split_aux_nonempty sep limit skip cur s :
  Py.split_aux sep limit skip cur s <> [].
Proof.
  revert limit skip cur. induction s as [|c s IH]; intros limit skip cur; [easy|].
  cbn [Py.split_aux]. destruct skip; [|apply IH].
  destruct limit as [[|n]|]; try apply IH; destruct (String.prefix _ _); try apply IH; easy.
Qed.

Lemma join_cons sep p ps :
  ps <> [] -> Py.join sep (p :: ps) = p +:+ sep +:+ Py.join sep ps.
Proof. now destruct ps. Qed.

(** Joining the pieces of a split with the separator gives the text
    back: a split cuts at occurrences of the separator and loses
    nothing else. *)
Lemma join_split_aux c0 sep0 limit s :
  forall skip cur,
    Py.join (String c0 sep0) (Py.split_aux (String c0 sep0) limit skip cur s)
    = cur +:+ Py.drop skip s.
Proof.
  revert limit. induction s as [|c s IH]; intros limit skip cur.
  - cbn. destruct skip; now rewrite append_nil_r.
  - cbn [Py.split_aux]. destruct skip as [|k]; [|apply IH].
    assert (Hchar : Py.join (String c0 sep0)
              (Py.split_aux (String c0 sep0) limit 0 (cur +:+ String c "") s)
            = cur +:+ String c s).
    { rewrite IH. cbn [Py.drop]. destruct s; now rewrite append_assoc. }
    destruct (String.prefix (String c0 sep0) (String c s)) eqn:E.
    2:{ destruct limit as [[|n]|]; exact Hchar. }
    destruct limit as [[|n]|]; [exact Hchar | |];
      (rewrite join_cons by apply split_aux_nonempty;
       rewrite IH, append_nil_l;
       apply prefix_append in E as [rest E];
       rewrite append_cons in E; injection E as <- ->;
       cbn [String.length Nat.sub]; rewrite Nat.sub_0_r, drop_append;
       cbn [Py.drop]; now rewrite append_cons).
Qed.

Lemma join_split c0 sep0 s :
  Py.join (String c0 sep0) (Py.split s (String c0 sep0)) = s.
Proof. unfold Py.split. now rewrite join_split_aux. Qed.

(** The parse of a reference does not look at the world and leaves it alone. *)
Lemma parse_s3_uri_pure uri w w0 :
  parse_s3_uri uri w = (fst (parse_s3_uri uri w0), w).
Proof.
  unfold parse_s3_uri. destruct (Py.startswith uri "s3://"); [|reflexivity].
  destruct (Py.split_max _ _ _) as [|? [|? [|? ?]]]; reflexivity.
Qed.

Lemma parse_rejects_other_forms uri w :
  has_scheme_and_slash uri = false ->
  parse_s3_uri uri w = (Raise (AssertionError "Invalid S3 URI format"), w) \/
  parse_s3_uri uri w = (Raise (ValueError "not enough values to unpack (expected 2, got 1)"), w).
Proof.
  intros H. unfold parse_s3_uri.
  destruct (Py.startswith uri "s3://") eqn:E; [right | now left].
  apply prefix_append in E as [rest ->].
  change (contains_slash rest = false) in H.
  assert (Py.replace ("s3://" +:+ rest) "s3://" "" = rest) as ->.
  { unfold Py.replace. rewrite !append_cons, append_nil_l. cbn.
    rewrite prefix_nil, append_nil_l. now apply replace_without_slash. }
  unfold Py.split_max. now rewrite split_without_slash.
Qed.

(** C8, the case against it: "s3://meeting-mind-library/" names a
    container and no key, so it is not of the form
    scheme://container/key; the parse accepts it with the empty key, and
    the call goes on to ask the store for the transcript
    "transcription/.txt" instead of failing before any call. *)
Lemma empty_key_reaches_the_store :
  has_reference_form "s3://meeting-mind-library/" = false /\
  fst (parse_s3_uri "s3://meeting-mind-library/" Demo.world)
    = Ok ("meeting-mind-library", "") /\
  trace Demo.world = [] /\
  exists evs,
    trace (snd (Demo.transcribe 5 "s3://meeting-mind-library/" Demo.world))
      = EvHeadObject "meeting-mind-library" "transcription/.txt" :: evs.
Proof.
  split; [reflexivity|]. split; [reflexivity|]. split; [reflexivity|].
  eexists. vm_compute. reflexivity.
Qed.

(** C8 as the code has it: a string that does not begin with "s3://",
    or has no slash after it, is refused by the parse at the head of
    [transcribe_s3_video_with_cache], by the assertion or by the
    unpacking of the split: the call raises and the world is the one it
    started in, so nothing was asked of the store or of the job
    service. *)
Theorem invalid_reference_fails_fast
    ffmpeg json_loads fuel uri region_name sample_rate_hz language_code w :
  has_scheme_and_slash uri = false ->
  exists e,
    transcribe_s3_video_with_cache ffmpeg json_loads fuel uri region_name
      sample_rate_hz language_code w = (Raise e, w) /\
    (e = AssertionError "Invalid S3 URI format" \/
     e = ValueError "not enough values to unpack (expected 2, got 1)").
Proof.
  intros H. unfold transcribe_s3_video_with_cache, bind.
  destruct (parse_rejects_other_forms uri w H) as [-> | ->]; eauto.
Qed.

Lemma invalid_reference_fails_fast_witness :
  exists e,
    Demo.transcribe 5 "https://example.org/video/team-sync.mp4" Demo.world
      = (Raise e, Demo.world) /\
    (e = AssertionError "Invalid S3 URI format" \/
     e = ValueError "not enough values to unpack (expected 2, got 1)").
Proof.
  apply (invalid_reference_fails_fast Demo.ffmpeg Demo.json_loads 5
           "https://example.org/video/team-sync.mp4" "us-west-2" 16000 "en-US"
           Demo.world).
  reflexivity.
Defined.

Example missing_slash_is_refused :
  Demo.transcribe 5 "s3://meeting-mind-library" Demo.world
    = (Raise (ValueError "not enough values to unpack (expected 2, got 1)"), Demo.world).
Proof. reflexivity. Qed.

(** ** The cache lookup *)

Lemma s3_head_object_run b k w :
  s3_head_object b k w =
    (match hd None (s3_faults w) with
     | Some e => Raise e
     | None => match s3_objects w !! (b, k) with
               | Some _ => Ok tt
               | None => Raise (ClientError "404")
               end
     end,
     set_s3_faults (tl (s3_faults w)) (log [EvHeadObject b k] w)).
Proof.
  unfold s3_head_object, bind, emit, modify, s3_api, get_world, ret, raise, log. cbn.
  destruct (hd None (s3_faults w)); [reflexivity|]. cbn.
  destruct (s3_objects w !! (b, k)); reflexivity.
Qed.

Lemma s3_get_object_run b k w :
  s3_get_object b k w =
    (match hd None (s3_faults w) with
     | Some e => Raise e
     | None => match s3_objects w !! (b, k) with
               | Some body => Ok body
               | None => Raise (ClientError "NoSuchKey")
               end
     end,
     set_s3_faults (tl (s3_faults w)) (log [EvGetObject b k] w)).
Proof.
  unfold s3_get_object, bind, emit, modify, s3_api, get_world, ret, raise, log. cbn.
  destruct (hd None (s3_faults w)); [reflexivity|]. cbn.
  destruct (s3_objects w !! (b, k)); reflexivity.
Qed.

(** All the runs of [check_cache]: the outcome and the world after it,
    by the fault of the first call, the presence of the object, the
    fault of the second call and the encoding of the body. *)
Lemma check_cache_cases b k rg w :
  let w1 := set_s3_faults (tl (s3_faults w)) (log [EvHeadObject b k] w) in
  let w2 := set_s3_faults (tl (s3_faults w1)) (log [EvGetObject b k] w1) in
  check_cache b k rg w =
    match hd None (s3_faults w) with
    | Some e =>
        (match e with ClientError _ => Ok (false, "") | _ => Raise e end, w1)
    | None =>
        match s3_objects w !! (b, k) with
        | None => (Ok (false, ""), w1)
        | Some body =>
            match hd None (tl (s3_faults w)) with
            | Some e =>
                (match e with ClientError _ => Ok (false, "") | _ => Raise e end, w2)
            | None =>
                (if Utf8.valid body then Ok (true, body) else Raise UnicodeDecodeError, w2)
            end
        end
    end.
Proof.
  unfold check_cache, try_except_ClientError, s3_head_object, s3_get_object,
    decode_utf8, bind, emit, modify, s3_api, get_world, ret, raise, log.
  cbn.
  destruct (hd None (s3_faults w)) as [e|]; [destruct e; reflexivity|].
  cbn. destruct (s3_objects w !! (b, k)) as [body|] eqn:E; [|reflexivity].
  cbn. destruct (hd None (tl (s3_faults w))) as [e|]; [destruct e; reflexivity|].
  cbn. rewrite E. cbn. destruct (Utf8.valid body); reflexivity.
Qed.

(** A hit means: two calls went through, the object is there, and its
    bytes are the text. *)
Lemma check_cache_hit_inv b k rg w T w1 :
  check_cache b k rg w = (Ok (true, T), w1) ->
  s3_objects w !! (b, k) = Some T /\ Utf8.valid T = true /\
  w1 = set_s3_faults (tl (tl (s3_faults w)))
         (log [EvGetObject b k] (log [EvHeadObject b k] w)).
Proof.
  rewrite check_cache_cases. cbv zeta.
  destruct (hd None (s3_faults w)) as [e|]; [destruct e; discriminate|].
  destruct (s3_objects w !! (b, k)) as [body|]; [|discriminate].
  destruct (hd None (tl (s3_faults w))) as [e|]; [destruct e; discriminate|].
  destruct (Utf8.valid body) eqn:V; [|discriminate].
  intros [= -> <-]. auto.
Qed.

Lemma check_cache_hits b k rg w T :
  s3_objects w !! (b, k) = Some T -> Utf8.valid T = true ->
  hd None (s3_faults w) = None -> hd None (tl (s3_faults w)) = None ->
  fst (check_cache b k rg w) = Ok (true, T).
Proof.
  intros H V F1 F2. rewrite check_cache_cases. cbv zeta.
  now rewrite F1, H, F2, V.
Qed.

Lemma transcribe_after_parse ffmpeg json_loads fuel uri rg rate lang w b k :
  fst (parse_s3_uri uri w) = Ok (b, k) ->
  transcribe_s3_video_with_cache ffmpeg json_loads fuel uri rg rate lang w =
  bind (ret (b, k)) (fun '(bucket_name, key) =>
    let video_name := video_name_of key in
    let transcript_key := transcript_key_of video_name in
    let audio_key := audio_key_of video_name in
    do '(is_cached, cached_transcript) <- check_cache bucket_name transcript_key rg;
    if is_cached : bool then
      print "✅ Using cached transcript" ;;
      ret (cached_transcript, Py.split cached_transcript ". ", true)
    else
      print "⬇️ Downloading video from S3..." ;;
      do tmp_video <- download_from_s3 bucket_name key rg;
      print "🎧 Extracting audio..." ;;
      do wav_path <- extract_audio_ffmpeg ffmpeg tmp_video rate;
      print "☁️ Uploading audio to S3..." ;;
      do s3_audio_uri <- upload_to_s3 wav_path bucket_name audio_key rg;
      do now <- time_time;
      let job_name := job_name_of video_name now in
      print ("📝 Starting Amazon Transcribe job: " +:+ job_name) ;;
      do output_json_key <-
        run_transcription_job fuel job_name s3_audio_uri bucket_name lang;
      do tmp_json <- download_from_s3 bucket_name output_json_key rg;
      do data <- json_load_file json_loads tmp_json;
      do results <- subscript_key data "results";
      do transcripts <- subscript_key results "transcripts";
      do first <- subscript_0 transcripts;
      do full_transcript <- subscript_key first "transcript";
      print "💾 Caching transcript to S3..." ;;
      save_transcript_cache bucket_name transcript_key full_transcript rg ;;
      match full_transcript with
      | JString text => ret (text, Py.split text ". ", false)
      | _ => raise (OtherError "AttributeError")
      end) w.
Proof.
  intros H. unfold transcribe_s3_video_with_cache.
  unfold bind at 1. rewrite (parse_s3_uri_pure uri w w), H. reflexivity.
Qed.

Lemma transcribe_on_hit ffmpeg json_loads fuel uri rg rate lang w bucket key T w1 :
  fst (parse_s3_uri uri w) = Ok (bucket, key) ->
  check_cache bucket (transcript_key_of (video_name_of key)) rg w = (Ok (true, T), w1) ->
  transcribe_s3_video_with_cache ffmpeg json_loads fuel uri rg rate lang w
    = (Ok (T, Py.split T ". ", true), log [EvPrint "✅ Using cached transcript"] w1).
Proof.
  intros Hp Hc. rewrite (transcribe_after_parse _ _ _ _ _ _ _ _ _ _ Hp).
  unfold bind at 1, ret at 1. cbv zeta. unfold bind at 1. now rewrite Hc.
Qed.

(** C1. When the lookup of the transcript key is a hit with text T, the
    call returns (T, T split on ". ", True), and all it did is the two
    calls of the lookup and one print: the video was not downloaded, no
    audio was extracted or uploaded, no job was started or asked for,
    nothing was put; store, local files and jobs are as before. *)
Theorem cache_hit_skips_the_pipeline
    ffmpeg json_loads fuel uri rg rate lang w bucket key T w1 :
  fst (parse_s3_uri uri w) = Ok (bucket, key) ->
  check_cache bucket (transcript_key_of (video_name_of key)) rg w = (Ok (true, T), w1) ->
  exists w',
    transcribe_s3_video_with_cache ffmpeg json_loads fuel uri rg rate lang w
      = (Ok (T, Py.split T ". ", true), w') /\
    trace w' = trace w ++
      [EvHeadObject bucket (transcript_key_of (video_name_of key));
       EvGetObject bucket (transcript_key_of (video_name_of key));
       EvPrint "✅ Using cached transcript"] /\
    s3_objects w' = s3_objects w /\ local_files w' = local_files w /\
    jobs w' = jobs w /\ polls_done w' = polls_done w /\
    tmp_serial w' = tmp_serial w /\ clock w' = clock w.
Proof.
  intros Hp Hc. eexists. split; [exact (transcribe_on_hit _ _ _ _ _ _ _ _ _ _ _ _ Hp Hc)|].
  apply check_cache_hit_inv in Hc as (_ & _ & ->). cbn.
  rewrite <- !app_assoc. repeat split; reflexivity.
Qed.

Lemma cache_hit_skips_the_pipeline_witness :
  exists w',
    Demo.transcribe 0 Demo.uri Demo.world_after_run
      = (Ok (Demo.text, ["Hello world"; "This is a test."], true), w') /\
    trace w' = trace Demo.world_after_run ++
      [EvHeadObject Demo.bucket "transcription/team-sync.txt";
       EvGetObject Demo.bucket "transcription/team-sync.txt";
       EvPrint "✅ Using cached transcript"] /\
    s3_objects w' = s3_objects Demo.world_after_run /\
    local_files w' = local_files Demo.world_after_run /\
    jobs w' = jobs Demo.world_after_run /\
    polls_done w' = polls_done Demo.world_after_run /\
    tmp_serial w' = tmp_serial Demo.world_after_run /\
    clock w' = clock Demo.world_after_run.
Proof.
  apply (cache_hit_skips_the_pipeline Demo.ffmpeg Demo.json_loads 0 Demo.uri
           "us-west-2" 16000 "en-US" Demo.world_after_run Demo.bucket Demo.video_key
           Demo.text
           (snd (check_cache Demo.bucket "transcription/team-sync.txt" "us-west-2"
                   Demo.world_after_run))).
  - vm_compute. reflexivity.
  - vm_compute. reflexivity.
Defined.

(** C2, the case against it: the store answers the lookup with
    AccessDenied, which is not "not found", and [check_cache] returns the
    plain miss (False, "") instead of raising. *)
Lemma access_denied_is_taken_for_a_miss :
  hd None (s3_faults Demo.denied_world) = Some (ClientError "AccessDenied") /\
  fst (check_cache Demo.bucket "transcription/team-sync.txt" "us-west-2"
         Demo.denied_world) = Ok (false, "") /\
  ~ exists e, fst (check_cache Demo.bucket "transcription/team-sync.txt" "us-west-2"
                     Demo.denied_world) = Raise e.
Proof.
  split; [reflexivity|]. split; [reflexivity|].
  intros [e H]. vm_compute in H. discriminate.
Qed.

(** C2 as the code has it: when a call of the lookup fails,
    [check_cache] returns the miss (False, "") for every [ClientError],
    whatever its code ("404" and "NoSuchKey" of a missing object,
    "AccessDenied", ...), and raises the error on only when it is of
    another class; it never raises a [ClientError] itself. *)
Theorem lookup_turns_client_errors_into_misses b k rg w e :
  lookup_fails_with b k w e ->
  fst (check_cache b k rg w) =
    match e with ClientError _ => Ok (false, "") | _ => Raise e end /\
  forall code, fst (check_cache b k rg w) <> Raise (ClientError code).
Proof.
  unfold lookup_fails_with. rewrite s3_head_object_run. cbn [fst snd].
  rewrite s3_get_object_run. cbn [fst snd]. cbn [s3_faults set_s3_faults s3_objects log
    set_trace]. rewrite check_cache_cases. cbv zeta.
  intros H.
  destruct (hd None (s3_faults w)) as [e1|].
  { destruct H as [[= ->]|[[=] _]]. cbn. split; [reflexivity|].
    intros code. now destruct e. }
  destruct (s3_objects w !! (b, k)) as [body|].
  2:{ destruct H as [[= <-]|[[=] _]]. cbn. split; [reflexivity|]. discriminate. }
  destruct H as [[=]|[_ H]].
  destruct (hd None (tl (s3_faults w))) as [e2|]; [|discriminate].
  injection H as ->. cbn. split; [reflexivity|]. intros code. now destruct e.
Qed.

Lemma lookup_turns_client_errors_into_misses_witness :
  fst (check_cache Demo.bucket "transcription/team-sync.txt" "us-west-2"
         Demo.denied_world) = Ok (false, "") /\
  forall code,
    fst (check_cache Demo.bucket "transcription/team-sync.txt" "us-west-2"
           Demo.denied_world) <> Raise (ClientError code).
Proof.
  apply (lookup_turns_client_errors_into_misses Demo.bucket
           "transcription/team-sync.txt" "us-west-2" Demo.denied_world
           (ClientError "AccessDenied")).
  left. reflexivity.
Defined.

Example missing_object_is_a_miss :
  lookup_fails_with Demo.bucket "transcription/team-sync.txt" Demo.world
    (ClientError "404") /\
  fst (check_cache Demo.bucket "transcription/team-sync.txt" "us-west-2" Demo.world)
    = Ok (false, "").
Proof. split; [left|]; reflexivity. Qed.

Example connection_error_propagates :
  fst (check_cache Demo.bucket "transcription/team-sync.txt" "us-west-2"
         (set_s3_faults [Some (OtherError "EndpointConnectionError")] Demo.world))
    = Raise (OtherError "EndpointConnectionError").
Proof. reflexivity. Qed.

(** ** Composing facts about runs *)

Section Preserves.
Context (R : World -> World -> Prop) (HR : PreOrder R).

Lemma preserves_ret {A} (a : A) : preserves R (ret a).
Proof. intros w. reflexivity. Qed.

Lemma preserves_raise {A} e : preserves R (@raise A e).
Proof. intros w. reflexivity. Qed.

Lemma preserves_diverge {A} : preserves R (@diverge A).
Proof. intros w. reflexivity. Qed.

Lemma preserves_get_world : preserves R get_world.
Proof. intros w. reflexivity. Qed.

Lemma preserves_time_time : preserves R time_time.
Proof. intros w. reflexivity. Qed.

Lemma preserves_bind_returns {A B} (c : M A) (k : A -> M B) :
  preserves R c -> (forall a, returns c a -> preserves R (k a)) ->
  preserves R (bind c k).
Proof.
  intros Hc Hk w. unfold bind. specialize (Hc w).
  destruct (c w) as [[a|e|] w1] eqn:E; simpl in *; try assumption.
  transitivity w1; [assumption|]. apply Hk. now exists w, w1.
Qed.

Lemma preserves_bind {A B} (c : M A) (k : A -> M B) :
  preserves R c -> (forall a, preserves R (k a)) -> preserves R (bind c k).
Proof. intros Hc Hk. apply preserves_bind_returns; auto. Qed.

Lemma preserves_try {A} (c h : M A) :
  preserves R c -> preserves R h -> preserves R (try_except_ClientError c h).
Proof.
  intros Hc Hh w. unfold try_except_ClientError. specialize (Hc w).
  destruct (c w) as [[a|e|] w1]; simpl in *; try assumption.
  destruct e; simpl; try assumption.
  transitivity w1; [assumption | apply Hh].
Qed.

End Preserves.

(** One step of a proof that a computation preserves a relation: the
    structure of the computation is followed, [base] closes the leaves. *)
Ltac preserves_step base :=
  lazymatch goal with
  | |- preserves _ (bind _ _) => apply preserves_bind; [ apply _ | | intros ? ]
  | |- preserves _ (ret _) => apply preserves_ret; apply _
  | |- preserves _ (raise _) => apply preserves_raise; apply _
  | |- preserves _ diverge => apply preserves_diverge; apply _
  | |- preserves _ get_world => apply preserves_get_world; apply _
  | |- preserves _ time_time => apply preserves_time_time; apply _
  | |- preserves _ (try_except_ClientError _ _) =>
      apply preserves_try; [ apply _ | | ]
  | |- preserves _ (match ?x with _ => _ end) => destruct x
  | |- preserves _ (let _ := _ in _) => cbv zeta
  | |- preserves _ (s3_head_object _ _) => unfold s3_head_object
  | |- preserves _ (s3_get_object _ _) => unfold s3_get_object
  | |- preserves _ (s3_download_file _ _ _) => unfold s3_download_file
  | |- preserves _ (decode_utf8 _) => unfold decode_utf8
  | |- preserves _ (time_sleep _) => unfold time_sleep
  | |- preserves _ (start_transcription_job _ _ _ _ _) =>
      unfold start_transcription_job
  | |- preserves _ (subprocess_run_ffmpeg _ _ _ _) => unfold subprocess_run_ffmpeg
  | |- preserves _ (json_load_file _ _) => unfold json_load_file
  | |- preserves _ (subscript_key _ _) => unfold subscript_key
  | |- preserves _ (subscript_0 _) => unfold subscript_0
  | |- preserves _ (extract_audio_ffmpeg _ _ _) => unfold extract_audio_ffmpeg
  | |- preserves _ (upload_to_s3 _ _ _ _) => unfold upload_to_s3
  | |- preserves _ (download_from_s3 _ _ _) => unfold download_from_s3
  | |- preserves _ (check_cache _ _ _) => unfold check_cache
  | |- preserves _ (save_transcript_cache _ _ _ _) => unfold save_transcript_cache
  | |- preserves _ (parse_s3_uri _) => unfold parse_s3_uri
  | |- _ => base
  end.

Lemma ok_only_bind_returns {A B} (c : M A) (k : A -> M B) (P : B -> World -> Prop) :
  (forall a, returns c a -> ok_only (k a) P) -> ok_only (bind c k) P.
Proof.
  intros Hk w b w'. unfold bind.
  destruct (c w) as [[a|e|] w1] eqn:E; [|discriminate|discriminate].
  apply Hk. now exists w, w1.
Qed.

Lemma ok_only_bind {A B} (c : M A) (k : A -> M B) (P : B -> World -> Prop) :
  (forall a, ok_only (k a) P) -> ok_only (bind c k) P.
Proof. intros Hk. apply ok_only_bind_returns. auto. Qed.

Lemma ok_only_ret {A} (a : A) (P : A -> World -> Prop) :
  (forall w, P a w) -> ok_only (ret a) P.
Proof. intros H w b w' [= <- _]. apply H. Qed.

Lemma ok_only_raise {A} e (P : A -> World -> Prop) : ok_only (raise e) P.
Proof. intros w b w'. discriminate. Qed.

(** *** Events *)

#[global] Instance only_events_preorder P : PreOrder (only_events P).
Proof.
  split.
  - intros w. exists []. split; [now rewrite app_nil_r | constructor].
  - intros w1 w2 w3 (e1 & H1 & F1) (e2 & H2 & F2). exists (e1 ++ e2). split.
    + rewrite H2, H1. now rewrite <- app_assoc.
    + apply Forall_app; auto.
Qed.

Lemma only_events_emit P e : P e -> preserves (only_events P) (emit e).
Proof. intros H w. exists [e]. split; [reflexivity | now constructor]. Qed.

Lemma only_events_modify P (f : World -> World) :
  (forall w, trace (f w) = trace w) -> preserves (only_events P) (modify f).
Proof.
  intros H w. exists []. simpl. rewrite H, app_nil_r.
  split; [reflexivity | constructor].
Qed.

Lemma only_events_s3_api P : preserves (only_events P) s3_api.
Proof.
  intros w. exists []. simpl. rewrite app_nil_r. split; [reflexivity | constructor].
Qed.

Lemma only_events_weaken (P Q : event -> Prop) {A} (c : M A) :
  (forall e, P e -> Q e) ->
  preserves (only_events P) c -> preserves (only_events Q) c.
Proof.
  intros H Hc w. destruct (Hc w) as (evs & E & F). exists evs.
  split; [exact E | eapply Forall_impl; eauto].
Qed.

Ltac only_events_base :=
  idtac;
  lazymatch goal with
  | |- preserves _ (emit _) => apply only_events_emit
  | |- preserves _ (print _) => apply only_events_emit
  | |- preserves _ (modify _) => apply only_events_modify; intros; reflexivity
  | |- preserves _ s3_api => apply only_events_s3_api
  | |- preserves _ (s3_upload_file _ _ _) => unfold s3_upload_file
  | |- preserves _ (s3_put_object _ _ _) => unfold s3_put_object
  | |- preserves _ (NamedTemporaryFile _) => unfold NamedTemporaryFile
  | |- preserves _ (get_transcription_job _) => unfold get_transcription_job
  end.

Ltac only_events := repeat preserves_step only_events_base.

(** *** The job *)

(** All the runs of one status request. *)
Lemma get_transcription_job_cases name w :
  get_transcription_job name w =
    match jobs w !! name with
    | None =>
        (Raise (ClientError "BadRequestException"),
         log [EvGetJob name (PollRaise (ClientError "BadRequestException"))] w)
    | Some out =>
        let reply := poll_script w (polls_done w) in
        let w1 := set_polls_done (S (polls_done w)) (log [EvGetJob name reply] w) in
        match reply with
        | PollRaise e => (Raise e, w1)
        | PollOk r =>
            (Ok r,
             if String.eqb (TranscriptionJobStatus r) "COMPLETED"
             then set_s3_objects (insert out (job_output w)) w1
             else w1)
        end
    end.
Proof.
  unfold get_transcription_job, bind, get_world, emit, modify, raise, ret, log.
  destruct (jobs w !! name) as [out|]; [|reflexivity]. cbn.
  destruct (poll_script w (polls_done w)) as [r|e]; [|reflexivity].
  destruct (String.eqb (TranscriptionJobStatus r) "COMPLETED"); reflexivity.
Qed.

Lemma wait_for_job_only_events P fuel name :
  (forall reply, P (EvGetJob name reply)) ->
  P (EvPrint "⏳ Waiting for transcription to finish...") -> P (EvSleep 10) ->
  preserves (only_events P) (wait_for_job fuel name).
Proof.
  intros Hpoll Hprint Hsleep.
  induction fuel as [|fuel IH]; cbn [wait_for_job]; [only_events|].
  apply preserves_bind; [apply _ | only_events; apply Hpoll |].
  intros status. destruct (terminal _); [only_events|].
  apply preserves_bind; [apply _ | only_events; exact Hprint |]. intros _.
  apply preserves_bind; [apply _ | only_events; exact Hsleep |]. intros _.
  exact IH.
Qed.

Lemma run_transcription_job_only_events P fuel name uri bucket lang :
  P (EvStartJob name uri lang bucket (output_key_of name)) ->
  (forall reply, P (EvGetJob name reply)) ->
  P (EvPrint "⏳ Waiting for transcription to finish...") -> P (EvSleep 10) ->
  preserves (only_events P) (run_transcription_job fuel name uri bucket lang).
Proof.
  intros Hstart Hpoll Hprint Hsleep. unfold run_transcription_job. cbv zeta.
  apply preserves_bind; [apply _ | only_events; exact Hstart |]. intros _.
  apply preserves_bind; [apply _ | now apply wait_for_job_only_events |].
  intros status. only_events.
Qed.

(** The job returns the output key it was started with. *)
Lemma run_transcription_job_returns fuel name uri bucket lang key :
  returns (run_transcription_job fuel name uri bucket lang) key ->
  key = output_key_of name.
Proof.
  intros (w & w' & H). unfold run_transcription_job, bind in H. cbv zeta in H.
  destruct (start_transcription_job _ _ _ _ _ w) as [[[]|e|] w1]; try discriminate.
  destruct (wait_for_job fuel name w1) as [[status|e|] w2]; try discriminate.
  destruct (String.eqb _ _); [discriminate|]. now injection H as <- _.
Qed.

Lemma upload_to_s3_returns path bucket key rg uri :
  returns (upload_to_s3 path bucket key rg) uri ->
  uri = "s3://" +:+ bucket +:+ "/" +:+ key.
Proof.
  intros (w & w' & H). unfold upload_to_s3, bind in H.
  destruct (s3_upload_file _ _ _ w) as [[[]|e|] w1]; try discriminate.
  now injection H as <- _.
Qed.

Lemma parse_s3_uri_returns uri w b k p :
  fst (parse_s3_uri uri w) = Ok (b, k) -> returns (parse_s3_uri uri) p -> p = (b, k).
Proof.
  intros H (w1 & w2 & E). rewrite (parse_s3_uri_pure uri w1 w), H in E.
  now injection E as <- _.
Qed.

(** ** The derived keys *)

Lemma transcribe_uses_keys ffmpeg json_loads fuel uri rg rate lang w0 b k :
  fst (parse_s3_uri uri w0) = Ok (b, k) ->
  preserves (only_events (uses_keys b k))
    (transcribe_s3_video_with_cache ffmpeg json_loads fuel uri rg rate lang).
Proof.
  intros Hp. unfold transcribe_s3_video_with_cache.
  apply preserves_bind_returns; [apply _ | only_events |].
  intros p Hret. rewrite (parse_s3_uri_returns _ _ _ _ _ Hp Hret). cbv zeta.
  apply preserves_bind; [apply _ | only_events; now cbn |].
  intros [is_cached cached_transcript]. destruct is_cached; [only_events; now cbn|].
  apply preserves_bind; [apply _ | only_events; now cbn |]. intros _.
  apply preserves_bind; [apply _ | only_events; cbn; auto |]. intros tmp_video.
  apply preserves_bind; [apply _ | only_events; now cbn |]. intros _.
  apply preserves_bind; [apply _ | only_events; now cbn |]. intros wav_path.
  apply preserves_bind; [apply _ | only_events; now cbn |]. intros _.
  apply preserves_bind_returns; [apply _ | only_events; now cbn |].
  intros s3_audio_uri ->%upload_to_s3_returns.
  apply preserves_bind; [apply _ | only_events |]. intros now.
  apply preserves_bind; [apply _ | only_events; now cbn |]. intros _.
  apply preserves_bind_returns;
    [apply _ | apply run_transcription_job_only_events; cbn; eauto 6 |].
  intros output_json_key ->%run_transcription_job_returns.
  apply preserves_bind; [apply _ | only_events; cbn; eauto 6 |]. intros tmp_json.
  only_events; now cbn.
Qed.

(** The run of the sample world, event by event. *)
Example sample_run_trace :
  trace Demo.world_after_run =
    [EvHeadObject "meeting-mind-library" "transcription/team-sync.txt";
     EvPrint "⬇️ Downloading video from S3...";
     EvTempFile "/tmp/tmp0.mp4";
     EvDownloadFile "meeting-mind-library" "video/team-sync.mp4" "/tmp/tmp0.mp4";
     EvPrint "🎧 Extracting audio...";
     EvTempFile "/tmp/tmp1.wav";
     EvFfmpeg "/tmp/tmp0.mp4" 16000 "/tmp/tmp1.wav";
     EvPrint "☁️ Uploading audio to S3...";
     EvUploadFile "/tmp/tmp1.wav" "meeting-mind-library" "audio/team-sync.wav";
     EvPrint "📝 Starting Amazon Transcribe job: transcribe-team-sync-1700000000";
     EvStartJob "transcribe-team-sync-1700000000"
       "s3://meeting-mind-library/audio/team-sync.wav" "en-US"
       "meeting-mind-library" "transcription/transcribe-team-sync-1700000000.json";
     EvGetJob "transcribe-team-sync-1700000000" Demo.in_progress;
     EvPrint "⏳ Waiting for transcription to finish...";
     EvSleep 10;
     EvGetJob "transcribe-team-sync-1700000000" Demo.in_progress;
     EvPrint "⏳ Waiting for transcription to finish...";
     EvSleep 10;
     EvGetJob "transcribe-team-sync-1700000000" Demo.completed;
     EvTempFile "/tmp/tmp2.json";
     EvDownloadFile "meeting-mind-library"
       "transcription/transcribe-team-sync-1700000000.json" "/tmp/tmp2.json";
     EvOpenRead "/tmp/tmp2.json";
     EvPrint "💾 Caching transcript to S3...";
     EvPutObject "meeting-mind-library" "transcription/team-sync.txt"
       "Hello world. This is a test."].
Proof. vm_compute. reflexivity. Qed.

(** ** Scratch files *)

#[global] Instance keeps_files_preorder : PreOrder keeps_files.
Proof.
  split.
  - intros w. exists []. rewrite app_nil_r. repeat split; [auto | intros p []].
  - intros w1 w2 w3 (e1 & H1 & M1 & T1) (e2 & H2 & M2 & T2). exists (e1 ++ e2).
    split; [rewrite H2, H1; now rewrite <- app_assoc|].
    split; [auto|]. intros p [H|H]%in_app_or; auto.
Qed.

Lemma keeps_files_emit e : ~ is_temp_file e -> preserves keeps_files (emit e).
Proof.
  intros H w. exists [e]. repeat split; [auto|].
  intros p [->|[]]. now destruct H.
Qed.

Lemma keeps_files_modify (f : World -> World) :
  (forall w, trace (f w) = trace w) ->
  (forall w p, is_Some (local_files w !! p) -> is_Some (local_files (f w) !! p)) ->
  preserves keeps_files (modify f).
Proof.
  intros Ht Hf w. exists []. simpl. rewrite Ht, app_nil_r.
  repeat split; [auto | intros p []].
Qed.

Lemma keeps_files_s3_api : preserves keeps_files s3_api.
Proof.
  intros w. exists []. simpl. rewrite app_nil_r. repeat split; [auto | intros p []].
Qed.

Lemma keeps_files_NamedTemporaryFile suffix :
  preserves keeps_files (NamedTemporaryFile suffix).
Proof.
  intros w. exists [EvTempFile (tmp_path (tmp_serial w) suffix)]. cbn.
  repeat split.
  - intros p H. apply lookup_insert_is_Some'. now right.
  - intros p [[= <-]|[]]. apply lookup_insert_is_Some'. now left.
Qed.

Ltac keeps_files_base :=
  idtac;
  lazymatch goal with
  | |- preserves _ (emit _) => apply keeps_files_emit; exact id
  | |- preserves _ (print _) => apply keeps_files_emit; exact id
  | |- preserves _ (modify _) =>
      apply keeps_files_modify;
      [ intros; reflexivity
      | intros ? ? ?; cbn; try (apply lookup_insert_is_Some'; right); assumption ]
  | |- preserves _ s3_api => apply keeps_files_s3_api
  | |- preserves _ (NamedTemporaryFile _) => apply keeps_files_NamedTemporaryFile
  | |- preserves _ (s3_upload_file _ _ _) => unfold s3_upload_file
  | |- preserves _ (s3_put_object _ _ _) => unfold s3_put_object
  | |- preserves _ (get_transcription_job _) => unfold get_transcription_job
  end.

Ltac keeps_files := repeat preserves_step keeps_files_base.

Lemma wait_for_job_keeps_files fuel name :
  preserves keeps_files (wait_for_job fuel name).
Proof.
  induction fuel as [|fuel IH]; cbn [wait_for_job]; [keeps_files|].
  apply preserves_bind; [apply _ | keeps_files |].
  intros status. destruct (terminal _); [keeps_files|].
  apply preserves_bind; [apply _ | keeps_files |]. intros _.
  apply preserves_bind; [apply _ | keeps_files |]. intros _.
  exact IH.
Qed.

Lemma run_transcription_job_keeps_files fuel name uri bucket lang :
  preserves keeps_files (run_transcription_job fuel name uri bucket lang).
Proof.
  unfold run_transcription_job. cbv zeta.
  apply preserves_bind; [apply _ | keeps_files |]. intros _.
  apply preserves_bind; [apply _ | apply wait_for_job_keeps_files |].
  intros status. keeps_files.
Qed.

(** C9, the case against it: the sample run starts without local files
    and succeeds; when it ends the three temporary files (video, audio,
    job output) are all there, with their contents.  A run whose job
    fails leaves the first two. *)
Lemma scratch_files_are_left_behind :
  local_files Demo.world = ∅ /\
  fst (Demo.transcribe 5 Demo.uri Demo.world)
    = Ok (Demo.text, ["Hello world"; "This is a test."], false) /\
  local_files Demo.world_after_run !! "/tmp/tmp0.mp4" = Some Demo.video /\
  local_files Demo.world_after_run !! "/tmp/tmp1.wav" = Some Demo.wav /\
  local_files Demo.world_after_run !! "/tmp/tmp2.json" = Some Demo.document /\
  local_files (snd (Demo.transcribe 5 Demo.uri Demo.failing_world)) !! "/tmp/tmp0.mp4"
    = Some Demo.video /\
  local_files (snd (Demo.transcribe 5 Demo.uri Demo.failing_world)) !! "/tmp/tmp1.wav"
    = Some Demo.wav.
Proof. repeat split; vm_compute; reflexivity. Qed.

(** C9 as the code has it: the temporary files are created with
    [delete=False] and nothing removes them.  In every run, whatever its
    outcome, no local file disappears and every temporary file the run
    creates is still there when the run ends. *)
Theorem scratch_files_are_never_removed
    ffmpeg json_loads fuel uri rg rate lang w :
  keeps_files w
    (snd (transcribe_s3_video_with_cache ffmpeg json_loads fuel uri rg rate lang w)).
Proof.
  revert w. change (preserves keeps_files
    (transcribe_s3_video_with_cache ffmpeg json_loads fuel uri rg rate lang)).
  unfold transcribe_s3_video_with_cache.
  apply preserves_bind; [apply _ | keeps_files |]. intros [bucket key]. cbv zeta.
  apply preserves_bind; [apply _ | keeps_files |].
  intros [is_cached cached_transcript]. destruct is_cached; [keeps_files|].
  do 8 (apply preserves_bind; [apply _ | keeps_files |]; intros ?).
  apply preserves_bind;
    [apply _ | apply run_transcription_job_keeps_files |]. intros output_json_key.
  keeps_files.
Qed.

(** ** Segments *)

Ltac ok_only :=
  repeat lazymatch goal with
  | |- ok_only (bind _ _) _ => apply ok_only_bind; intros ?
  | |- ok_only (ret _) _ => apply ok_only_ret
  | |- ok_only (raise _) _ => apply ok_only_raise
  | |- ok_only (match ?x with _ => _ end) _ => destruct x
  | |- ok_only (let _ := _ in _) _ => cbv zeta
  end.

Lemma transcribe_segments ffmpeg json_loads fuel uri rg rate lang :
  ok_only (transcribe_s3_video_with_cache ffmpeg json_loads fuel uri rg rate lang)
    (fun '(text, segments, _) _ => segments = Py.split text ". ").
Proof. unfold transcribe_s3_video_with_cache. ok_only; reflexivity. Qed.

(** C10. Whenever [transcribe_s3_video_with_cache] returns, from the
    cache or from a fresh transcription, the segments are the returned
    text split on ". ". *)
Theorem segments_are_the_split_of_the_text
    ffmpeg json_loads fuel uri rg rate lang w text segments is_cached w' :
  transcribe_s3_video_with_cache ffmpeg json_loads fuel uri rg rate lang w
    = (Ok (text, segments, is_cached), w') ->
  segments = Py.split text ". ".
Proof. intros H. exact (transcribe_segments _ _ _ _ _ _ _ _ _ _ H). Qed.

Lemma segments_are_the_split_of_the_text_witness :
  ["Hello world"; "This is a test."] = Py.split Demo.text ". ".
Proof.
  apply (segments_are_the_split_of_the_text Demo.ffmpeg Demo.json_loads 5 Demo.uri
           "us-west-2" 16000 "en-US" Demo.world Demo.text
           ["Hello world"; "This is a test."] false Demo.world_after_run).
  vm_compute. reflexivity.
Defined.

(** C6. When the returned text is "Hello world. This is a test." the
    returned segments are "Hello world" and "This is a test.": the text
    is cut at each ". " and nowhere else. *)
Theorem hello_world_segments
    ffmpeg json_loads fuel uri rg rate lang w segments is_cached w' :
  transcribe_s3_video_with_cache ffmpeg json_loads fuel uri rg rate lang w
    = (Ok ("Hello world. This is a test.", segments, is_cached), w') ->
  segments = ["Hello world"; "This is a test."].
Proof. intros H. now rewrite (transcribe_segments _ _ _ _ _ _ _ _ _ _ H). Qed.

Lemma hello_world_segments_witness :
  Py.split Demo.text ". " = ["Hello world"; "This is a test."].
Proof.
  apply (hello_world_segments Demo.ffmpeg Demo.json_loads 0 Demo.uri
           "us-west-2" 16000 "en-US" Demo.world_after_run (Py.split Demo.text ". ") true
           (snd (Demo.transcribe 0 Demo.uri Demo.world_after_run))).
  vm_compute. reflexivity.
Defined.

(** ** The poll loop *)

Lemma wait_for_job_in_vain fuel name out w r :
  jobs w !! name = Some out ->
  poll_script w (polls_done w) = PollOk r ->
  terminal (TranscriptionJobStatus r) = false ->
  wait_for_job (S fuel) name w = wait_for_job fuel name (wait_once name w).
Proof.
  intros Hj Hr Ht. cbn [wait_for_job]. unfold bind at 1, wait_once.
  rewrite get_transcription_job_cases, Hj. cbv zeta. rewrite Hr, Ht.
  assert (String.eqb (TranscriptionJobStatus r) "COMPLETED" = false) as ->.
  { unfold terminal in Ht. cbn in Ht. now apply orb_false_elim in Ht as [-> _]. }
  reflexivity.
Qed.

Lemma wait_for_job_terminal fuel name out w r :
  jobs w !! name = Some out ->
  poll_script w (polls_done w) = PollOk r ->
  terminal (TranscriptionJobStatus r) = true ->
  exists w', wait_for_job (S fuel) name w = (Ok r, w') /\
    trace w' = trace w ++ [EvGetJob name (PollOk r)] /\ clock w' = clock w.
Proof.
  intros Hj Hr Ht. cbn [wait_for_job]. unfold bind at 1.
  rewrite get_transcription_job_cases, Hj. cbv zeta. rewrite Hr, Ht.
  eexists. split; [reflexivity|].
  destruct (String.eqb _ _); split; reflexivity.
Qed.

(** While the answers are not terminal the loop goes on: with fuel for
    at most [n] requests it has not come to an end. *)
Lemma wait_for_job_still_waiting name out n :
  forall fuel w,
    jobs w !! name = Some out ->
    (forall i, i < n -> exists r, poll_script w (polls_done w + i) = PollOk r /\
                                  terminal (TranscriptionJobStatus r) = false) ->
    fuel <= n ->
    fst (wait_for_job fuel name w) = Diverge.
Proof.
  induction n as [|n IH]; intros fuel w Hj Hw Hf.
  - now replace fuel with 0 by lia.
  - destruct fuel as [|fuel]; [reflexivity|].
    destruct (Hw 0 ltac:(lia)) as (r & Hr & Ht). rewrite Nat.add_0_r in Hr.
    rewrite (wait_for_job_in_vain _ _ _ _ _ Hj Hr Ht).
    apply IH; [exact Hj | | lia].
    intros i Hi. destruct (Hw (S i) ltac:(lia)) as (r' & Hr' & Ht').
    exists r'. split; [|exact Ht']. cbn. now rewrite <- Nat.add_succ_r.
Qed.

(** At the first terminal answer the loop returns it, after one print
    and one sleep of ten seconds for each request made in vain. *)
Lemma wait_for_job_until_terminal name out n :
  forall fuel w,
    jobs w !! name = Some out ->
    first_terminal_at (poll_script w) (polls_done w) n ->
    n < fuel ->
    exists r w',
      poll_script w (polls_done w + n) = PollOk r /\
      wait_for_job fuel name w = (Ok r, w') /\
      trace w' = trace w ++ waiting_events (poll_script w) name (polls_done w) n
                         ++ [EvGetJob name (PollOk r)] /\
      clock w' = (clock w + 10 * Z.of_nat n)%Z.
Proof.
  induction n as [|n IH]; intros fuel w Hj [Hw (r & Hr & Ht)] Hf;
    (destruct fuel as [|fuel]; [lia|]).
  - rewrite Nat.add_0_r in *.
    destruct (wait_for_job_terminal fuel _ _ _ _ Hj Hr Ht) as (w' & E & T & C).
    exists r, w'. repeat split; [exact Hr | exact E | exact T | lia].
  - destruct (Hw 0 ltac:(lia)) as (r0 & Hr0 & Ht0). rewrite Nat.add_0_r in Hr0.
    rewrite (wait_for_job_in_vain _ _ _ _ _ Hj Hr0 Ht0).
    destruct (IH fuel (wait_once name w)) as (r' & w' & Hr' & E & T & C).
    + exact Hj.
    + split.
      * intros i Hi. destruct (Hw (S i) ltac:(lia)) as (ri & Hri & Hti).
        exists ri. split; [|exact Hti]. cbn. now rewrite <- Nat.add_succ_r.
      * exists r. split; [|exact Ht]. cbn. now rewrite <- Nat.add_succ_r.
    + lia.
    + cbn in Hr'. rewrite <- Nat.add_succ_r in Hr'.
      exists r', w'. repeat split; [exact Hr' | exact E | |].
      * rewrite T. cbn. now rewrite <- !app_assoc.
      * rewrite C. unfold wait_once. cbn -[Z.of_nat Z.mul Z.add]. lia.
Qed.

(** When every answer is a status, a loop that comes to an end has seen
    a terminal one. *)
Lemma wait_for_job_ends_at_terminal name out fuel :
  forall w,
    jobs w !! name = Some out ->
    (forall i, exists r, poll_script w i = PollOk r) ->
    fst (wait_for_job fuel name w) <> Diverge ->
    exists n, first_terminal_at (poll_script w) (polls_done w) n.
Proof.
  induction fuel as [|fuel IH]; intros w Hj Hs Hend; [now destruct Hend|].
  destruct (Hs (polls_done w)) as [r Hr].
  destruct (terminal (TranscriptionJobStatus r)) eqn:Ht.
  - exists 0. split; [intros i Hi; lia|]. exists r. now rewrite Nat.add_0_r.
  - rewrite (wait_for_job_in_vain _ _ _ _ _ Hj Hr Ht) in Hend.
    destruct (IH (wait_once name w) Hj Hs Hend) as (n & Hw & r' & Hr' & Ht').
    exists (S n). split.
    + intros [|i] Hi.
      * exists r. now rewrite Nat.add_0_r.
      * destruct (Hw i ltac:(lia)) as (ri & Hri & Hti). exists ri.
        split; [|exact Hti]. cbn in Hri. now rewrite Nat.add_succ_r.
    + exists r'. split; [|exact Ht']. cbn in Hr'. now rewrite Nat.add_succ_r.
Qed.

Lemma slow_script_first_terminal from n :
  first_terminal_at (slow_script from n) from n.
Proof.
  unfold slow_script. split.
  - intros i Hi. destruct (Nat.ltb_spec (from + i) (from + n)); [|lia]. eauto.
  - destruct (Nat.ltb_spec (from + n) (from + n)); [lia|]. eauto.
Qed.

(** C7. With a job service that answers every status request with a
    status, the loop of [run_transcription_job] comes to an end exactly
    when some answer is COMPLETED or FAILED.  At the first such answer,
    after [n] requests made in vain, it has printed and slept ten
    seconds after each of them and returns that answer; with fuel for
    [n] requests or fewer it has not given up.  And [n] can be any
    number (a service that says IN_PROGRESS [n] times before
    COMPLETED): nothing bounds the wait. *)
Theorem poll_loop_ends_iff_terminal_status name out w :
  jobs w !! name = Some out ->
  (forall i, exists r, poll_script w i = PollOk r) ->
  ((exists fuel, fst (wait_for_job fuel name w) <> Diverge) <->
   (exists n, first_terminal_at (poll_script w) (polls_done w) n)) /\
  (forall n, first_terminal_at (poll_script w) (polls_done w) n ->
     (forall fuel, fuel <= n -> fst (wait_for_job fuel name w) = Diverge) /\
     (forall fuel, n < fuel ->
        exists r w',
          poll_script w (polls_done w + n) = PollOk r /\
          wait_for_job fuel name w = (Ok r, w') /\
          trace w' = trace w ++ waiting_events (poll_script w) name (polls_done w) n
                             ++ [EvGetJob name (PollOk r)] /\
          clock w' = (clock w + 10 * Z.of_nat n)%Z)) /\
  (forall n,
     let slow := with_script (slow_script (polls_done w) n) w in
     (forall fuel, fuel <= n -> fst (wait_for_job fuel name slow) = Diverge) /\
     exists r w',
       wait_for_job (S n) name slow = (Ok r, w') /\
       clock w' = (clock w + 10 * Z.of_nat n)%Z).
Proof.
  intros Hj Hs. split; [split|split].
  - intros [fuel Hend]. now apply (wait_for_job_ends_at_terminal name out fuel).
  - intros [n Hn].
    destruct (wait_for_job_until_terminal name out n (S n) w Hj Hn ltac:(lia))
      as (r & w' & _ & E & _).
    exists (S n). now rewrite E.
  - intros n Hn. split.
    + intros fuel Hf. apply (wait_for_job_still_waiting name out n); auto.
      now destruct Hn.
    + intros fuel Hf. now apply (wait_for_job_until_terminal name out n).
  - intros n slow.
    assert (Hn : first_terminal_at (poll_script slow) (polls_done slow) n)
      by apply slow_script_first_terminal.
    split.
    + intros fuel Hf. apply (wait_for_job_still_waiting name out n); auto.
      now destruct Hn.
    + destruct (wait_for_job_until_terminal name out n (S n) slow Hj Hn ltac:(lia))
        as (r & w' & _ & E & _ & C).
      now exists r, w'.
Qed.

Lemma demo_script_answers i : exists r, Demo.script i = PollOk r.
Proof. destruct i as [|[|i]]; eexists; reflexivity. Qed.

Lemma poll_loop_ends_iff_terminal_status_witness :
  let name := "transcribe-team-sync-1700000000" in
  let w := Demo.polling_world in
  ((exists fuel, fst (wait_for_job fuel name w) <> Diverge) <->
   (exists n, first_terminal_at (poll_script w) (polls_done w) n)) /\
  (forall n, first_terminal_at (poll_script w) (polls_done w) n ->
     (forall fuel, fuel <= n -> fst (wait_for_job fuel name w) = Diverge) /\
     (forall fuel, n < fuel ->
        exists r w',
          poll_script w (polls_done w + n) = PollOk r /\
          wait_for_job fuel name w = (Ok r, w') /\
          trace w' = trace w ++ waiting_events (poll_script w) name (polls_done w) n
                             ++ [EvGetJob name (PollOk r)] /\
          clock w' = (clock w + 10 * Z.of_nat n)%Z)) /\
  (forall n,
     let slow := with_script (slow_script (polls_done w) n) w in
     (forall fuel, fuel <= n -> fst (wait_for_job fuel name slow) = Diverge) /\
     exists r w',
       wait_for_job (S n) name slow = (Ok r, w') /\
       clock w' = (clock w + 10 * Z.of_nat n)%Z).
Proof.
  apply (poll_loop_ends_iff_terminal_status "transcribe-team-sync-1700000000"
           (Demo.bucket, "transcription/transcribe-team-sync-1700000000.json")
           Demo.polling_world).
  - vm_compute. reflexivity.
  - exact demo_script_answers.
Defined.

Example sample_wait :
  fst (wait_for_job 3 "transcribe-team-sync-1700000000" Demo.polling_world)
    = Ok (mkResponse "COMPLETED" "{...}") /\
  fst (wait_for_job 2 "transcribe-team-sync-1700000000" Demo.polling_world) = Diverge /\
  clock (snd (wait_for_job 3 "transcribe-team-sync-1700000000" Demo.polling_world))
    = 1700000020%Z.
Proof. repeat split; vm_compute; reflexivity. Qed.

(** The job that [run_transcription_job] polls is the one it started. *)
Lemma start_registers_job name uri lang bucket key w w' :
  start_transcription_job name uri lang bucket key w = (Ok tt, w') ->
  jobs w' !! name = Some (bucket, key) /\ poll_script w' = poll_script w /\
  polls_done w' = polls_done w.
Proof.
  unfold start_transcription_job, bind, emit, modify, get_world, raise. cbn.
  destruct (start_fault w); [discriminate|].
  destruct (jobs w !! name); [discriminate|].
  intros [= <-]. cbn. split; [apply lookup_insert_eq | auto].
Qed.

(** ** A failed job *)

#[global] Instance writes_only_by_events_preorder x : PreOrder (writes_only_by_events x).
Proof.
  split.
  - intros w. exists []. rewrite app_nil_r. auto.
  - intros w1 w2 w3 (e1 & H1 & S1) (e2 & H2 & S2). exists (e1 ++ e2).
    split; [rewrite H2, H1; now rewrite <- app_assoc|].
    rewrite Exists_app. destruct S1 as [S1|S1], S2 as [S2|S2]; auto.
    left. congruence.
Qed.

Lemma writes_emit x e : preserves (writes_only_by_events x) (emit e).
Proof. intros w. exists [e]. auto. Qed.

Lemma writes_modify x (f : World -> World) :
  (forall w, trace (f w) = trace w) ->
  (forall w, s3_objects (f w) = s3_objects w) ->
  preserves (writes_only_by_events x) (modify f).
Proof. intros Ht Hs w. exists []. simpl. rewrite Ht, Hs, app_nil_r. auto. Qed.

Lemma writes_s3_api x : preserves (writes_only_by_events x) s3_api.
Proof. intros w. exists []. simpl. rewrite app_nil_r. auto. Qed.

Lemma writes_insert (x y : string * string) (body : string) (e : event)
    (m : gmap (string * string) string) :
  (y = x -> may_write x e) ->
  <[y := body]> m !! x = m !! x \/ Exists (may_write x) [e].
Proof.
  intros H. destruct (decide (y = x)) as [E|E].
  - right. constructor. auto.
  - left. now apply lookup_insert_ne.
Qed.

Lemma writes_s3_upload_file x path b k :
  preserves (writes_only_by_events x) (s3_upload_file path b k).
Proof.
  intros w. exists [EvUploadFile path b k].
  unfold s3_upload_file, bind, emit, modify, s3_api, get_world, raise. cbn.
  destruct (hd None (s3_faults w)); cbn; [auto|].
  destruct (local_files w !! path); cbn; [|auto].
  split; [reflexivity|]. now apply writes_insert.
Qed.

Lemma writes_s3_put_object x b k body :
  preserves (writes_only_by_events x) (s3_put_object b k body).
Proof.
  intros w. unfold s3_put_object.
  destruct body as [| | |body| |];
    try solve [exists []; cbn; rewrite app_nil_r; auto].
  destruct (Utf8.valid body); [|exists []; cbn; rewrite app_nil_r; auto].
  exists [EvPutObject b k body].
  unfold bind, emit, modify, s3_api. cbn.
  destruct (hd None (s3_faults w)); cbn; [auto|].
  split; [reflexivity|]. now apply writes_insert.
Qed.

Lemma writes_get_transcription_job x name :
  preserves (writes_only_by_events x) (get_transcription_job name).
Proof.
  intros w. rewrite get_transcription_job_cases.
  destruct (jobs w !! name) as [out|]; [|eexists; cbn; eauto].
  cbv zeta. destruct (poll_script w (polls_done w)) as [r|e] eqn:Er; [|eexists; cbn; eauto].
  exists [EvGetJob name (PollOk r)]. cbn.
  destruct (String.eqb _ _) eqn:E; cbn; [|auto].
  split; [reflexivity|]. right. constructor. cbn. now apply String.eqb_eq.
Qed.

Ltac writes_base :=
  idtac;
  lazymatch goal with
  | |- preserves _ (emit _) => apply writes_emit
  | |- preserves _ (print _) => apply writes_emit
  | |- preserves _ (modify _) =>
      apply writes_modify; intros; reflexivity
  | |- preserves _ s3_api => apply writes_s3_api
  | |- preserves _ (NamedTemporaryFile _) => unfold NamedTemporaryFile
  | |- preserves _ (s3_upload_file _ _ _) => apply writes_s3_upload_file
  | |- preserves _ (s3_put_object _ _ _) => apply writes_s3_put_object
  | |- preserves _ (get_transcription_job _) => apply writes_get_transcription_job
  end.

Ltac writes := repeat preserves_step writes_base.

Lemma wait_for_job_writes x fuel name :
  preserves (writes_only_by_events x) (wait_for_job fuel name).
Proof.
  induction fuel as [|fuel IH]; cbn [wait_for_job]; [writes|].
  apply preserves_bind; [apply _ | writes |].
  intros status. destruct (terminal _); [writes|].
  apply preserves_bind; [apply _ | writes |]. intros _.
  apply preserves_bind; [apply _ | writes |]. intros _.
  exact IH.
Qed.

Lemma transcribe_writes x ffmpeg json_loads fuel uri rg rate lang :
  preserves (writes_only_by_events x)
    (transcribe_s3_video_with_cache ffmpeg json_loads fuel uri rg rate lang).
Proof.
  unfold transcribe_s3_video_with_cache.
  apply preserves_bind; [apply _ | writes |]. intros [bucket key]. cbv zeta.
  apply preserves_bind; [apply _ | writes |].
  intros [is_cached cached_transcript]. destruct is_cached; [writes|].
  do 8 (apply preserves_bind; [apply _ | writes |]; intros ?).
  apply preserves_bind; [apply _ | | intros ?; writes].
  unfold run_transcription_job. cbv zeta.
  apply preserves_bind; [apply _ | writes |]. intros _.
  apply preserves_bind; [apply _ | apply wait_for_job_writes |].
  intros status. writes.
Qed.

(** *** Events and outcome together *)

Lemma emits_ret {A} (a : A) (Q : outcome A -> list event -> Prop) :
  Q (Ok a) [] -> emits (ret a) Q.
Proof. intros H w. exists []. cbn. now rewrite app_nil_r. Qed.

Lemma emits_raise {A} e (Q : outcome A -> list event -> Prop) :
  Q (Raise e) [] -> emits (raise e) Q.
Proof. intros H w. exists []. cbn. now rewrite app_nil_r. Qed.

Lemma quiet_not_failed evs status :
  Forall quiet evs -> ~ Exists (is_poll_with status) evs.
Proof.
  intros F E. apply Exists_exists in E as (e & I & P).
  rewrite Forall_forall in F. destruct (F e I) as [N _].
  destruct e; try contradiction. now apply N.
Qed.

Lemma no_poll_not_failed evs status :
  Forall (fun e => ~ is_poll e) evs -> ~ Exists (is_poll_with status) evs.
Proof.
  intros F E. apply Exists_exists in E as (e & I & P).
  rewrite Forall_forall in F. specialize (F e I).
  destruct e; try contradiction. now apply F.
Qed.

(** Stages without status request and without put, in front. *)
Lemma emits_quiet_bind {A B} (failure : outcome B -> Prop)
    (c : M A) (k : A -> M B) :
  preserves (only_events quiet) c ->
  (forall a, emits (k a) (failed_job_post failure)) ->
  emits (bind c k) (failed_job_post failure).
Proof.
  intros Hc Hk w. unfold bind. destruct (Hc w) as (evs1 & E1 & F1).
  destruct (c w) as [[a|e|] w1]; cbn in E1 |- *.
  - destruct (Hk a w1) as (evs2 & E2 & Q2). exists (evs1 ++ evs2).
    split; [rewrite E2, E1; now rewrite <- app_assoc|].
    intros [X|X]%Exists_app; [now apply quiet_not_failed in X|].
    destruct (Q2 X) as (Hf & Hp & Hd). split; [exact Hf|].
    split; apply Forall_app; split; auto.
    + eapply Forall_impl; [exact F1|]. now intros e [_ N].
    + eapply Forall_impl; [exact F1|]. intros e [N _] P.
      destruct e; try contradiction. now apply N.
  - exists evs1. split; [exact E1|]. intros X. now apply quiet_not_failed in X.
  - exists evs1. split; [exact E1|]. intros X. now apply quiet_not_failed in X.
Qed.

(** The job, then stages without status request. *)
Lemma emits_job_bind {A B} (c : M A) (k : A -> M B) :
  emits c (failed_job_post job_failure) ->
  emits c (fun _ evs => Forall (fun e => ~ is_put e) evs) ->
  (forall a, preserves (only_events (fun e => ~ is_poll e)) (k a)) ->
  emits (bind c k) (failed_job_post job_failure).
Proof.
  intros Hc Hp Hk w. unfold bind.
  destruct (Hc w) as (evs1 & E1 & Q1). destruct (Hp w) as (evs1' & E1' & P1).
  assert (evs1' = evs1) as -> by (rewrite E1 in E1'; now apply app_inv_head in E1').
  destruct (c w) as [[a|e|] w1]; cbn in E1, Q1 |- *.
  - destruct (Hk a w1) as (evs2 & E2 & F2). exists (evs1 ++ evs2).
    split; [rewrite E2, E1; now rewrite <- app_assoc|].
    intros [X|X]%Exists_app; [|now apply no_poll_not_failed in X].
    destruct (Q1 X) as ((detail & [=]) & _).
  - exists evs1. split; [exact E1|]. intros X. destruct (Q1 X) as ((d & [= ->]) & Hq).
    split; [now exists d | exact Hq].
  - exists evs1. split; [exact E1|]. intros X. destruct (Q1 X) as ((d & [=]) & _).
Qed.

Lemma emits_of_only_events {A} P (c : M A) :
  preserves (only_events P) c -> emits c (fun _ evs => Forall P evs).
Proof. intros H w. exact (H w). Qed.

Lemma exists_one (P : event -> Prop) e : Exists P [e] -> P e.
Proof. intros X. inversion X as [? ? H|? ? H]; [exact H | inversion H]. Qed.

Lemma terminal_not_both r status :
  terminal (TranscriptionJobStatus r) = false -> terminal status = true ->
  TranscriptionJobStatus r <> status.
Proof. intros H1 H2 E. rewrite E in H1. congruence. Qed.

(** A terminal answer among the events of the loop is the last one, and
    the loop returns it. *)
Lemma wait_for_job_terminal_polls fuel name :
  emits (wait_for_job fuel name) (fun r evs =>
    forall status, terminal status = true ->
      Exists (is_poll_with status) evs ->
      exists st, r = Ok st /\ TranscriptionJobStatus st = status).
Proof.
  induction fuel as [|fuel IH]; intros w.
  - exists []. cbn. rewrite app_nil_r. split; [reflexivity|].
    intros status _ X. inversion X.
  - destruct (wait_for_job (S fuel) name w) as [r' w'] eqn:Run. cbn [fst snd].
    cbn [wait_for_job] in Run. unfold bind at 1 in Run.
    rewrite get_transcription_job_cases in Run.
    destruct (jobs w !! name) as [out|].
    2:{ injection Run as <- <-. eexists. split; [reflexivity|].
        intros status _ X%exists_one. destruct X. }
    cbv zeta in Run. destruct (poll_script w (polls_done w)) as [r|e].
    2:{ injection Run as <- <-. eexists. split; [reflexivity|].
        intros status _ X%exists_one. destruct X. }
    destruct (terminal (TranscriptionJobStatus r)) eqn:T.
    + injection Run as <- <-. exists [EvGetJob name (PollOk r)].
      split; [destruct (String.eqb _ _); reflexivity|].
      intros status _ X%exists_one. now exists r.
    + unfold bind, print, time_sleep, emit, modify in Run. cbn in Run.
      match type of Run with
      | wait_for_job fuel name ?w3 = _ => destruct (IH w3) as (evs & E & Q)
      end.
      rewrite Run in E, Q. cbn in E, Q.
      exists ([EvGetJob name (PollOk r);
               EvPrint "⏳ Waiting for transcription to finish...";
               EvSleep 10] ++ evs).
      split.
      * rewrite E. destruct (String.eqb _ _); cbn; now rewrite <- !app_assoc.
      * intros status Hs [X|X]%Exists_app; [|now apply Q].
        inversion X as [? ? H|? ? H]; subst.
        -- now apply terminal_not_both in H.
        -- inversion H as [? ? H'|? ? H']; subst; [destruct H'|].
           apply exists_one in H'. destruct H'.
Qed.

Lemma run_transcription_job_failed fuel name uri bucket lang :
  emits (run_transcription_job fuel name uri bucket lang)
    (failed_job_post job_failure).
Proof.
  unfold run_transcription_job. cbv zeta.
  apply emits_quiet_bind; [only_events; unfold quiet; cbn; tauto|]. intros _ w.
  destruct (wait_for_job_terminal_polls fuel name w) as (evs & E & Q).
  destruct (wait_for_job_only_events (fun e => ~ is_put e) fuel name
              ltac:(intros ?; exact id) id id w) as (evs' & E' & P).
  assert (evs' = evs) as -> by (rewrite E in E'; now apply app_inv_head in E').
  unfold bind. destruct (wait_for_job fuel name w) as [[st|e|] w1]; cbn in E, Q |- *.
  - destruct (String.eqb (TranscriptionJobStatus st) "FAILED") eqn:F;
      exists evs; (split; [exact E|]); intros X.
    + apply String.eqb_eq in F. split; [now eexists|]. split; [exact P|].
      apply Forall_Exists_neg. intros Y.
      destruct (Q "COMPLETED" eq_refl Y) as (st' & [= <-] & C). congruence.
    + destruct (Q "FAILED" eq_refl X) as (st' & [= <-] & C).
      apply String.eqb_neq in F. contradiction.
  - exists evs. split; [exact E|]. intros X.
    destruct (Q "FAILED" eq_refl X) as (st' & [=] & _).
  - exists evs. split; [exact E|]. intros X.
    destruct (Q "FAILED" eq_refl X) as (st' & [=] & _).
Qed.

Ltac quiet_stage := only_events; unfold quiet; cbn; tauto.

Lemma transcribe_failed_job ffmpeg json_loads fuel uri rg rate lang :
  emits (transcribe_s3_video_with_cache ffmpeg json_loads fuel uri rg rate lang)
    (failed_job_post job_failure).
Proof.
  unfold transcribe_s3_video_with_cache.
  apply emits_quiet_bind; [quiet_stage|]. intros [bucket key]. cbv zeta.
  apply emits_quiet_bind; [quiet_stage|]. intros [is_cached cached_transcript].
  destruct is_cached.
  { apply emits_quiet_bind; [quiet_stage|]. intros _.
    apply emits_ret. intros X. inversion X. }
  do 8 (apply emits_quiet_bind; [quiet_stage|]; intros ?).
  apply emits_job_bind.
  - apply run_transcription_job_failed.
  - apply emits_of_only_events, run_transcription_job_only_events;
      first [exact id | intros ?; exact id].
  - intros output_json_key. only_events; exact id.
Qed.

Lemma keys_differ video_name : audio_key_of video_name <> transcript_key_of video_name.
Proof. unfold audio_key_of, transcript_key_of. rewrite !append_cons. discriminate. Qed.

(** C5. In a run in which the job service answers FAILED, the call
    raises the error "Transcription job failed: ..." of the transcribe
    stage, nothing is put in the store, and the object under the
    transcript key is what it was before the run. *)
Theorem failed_job_raises_and_caches_nothing
    ffmpeg json_loads fuel uri rg rate lang w bucket key evs :
  fst (parse_s3_uri uri w) = Ok (bucket, key) ->
  trace (snd (transcribe_s3_video_with_cache ffmpeg json_loads fuel uri rg rate lang w))
    = trace w ++ evs ->
  Exists (is_poll_with "FAILED") evs ->
  job_failure
    (fst (transcribe_s3_video_with_cache ffmpeg json_loads fuel uri rg rate lang w)) /\
  Forall (fun e => ~ is_put e) evs /\
  s3_objects
    (snd (transcribe_s3_video_with_cache ffmpeg json_loads fuel uri rg rate lang w))
    !! (bucket, transcript_key_of (video_name_of key))
  = s3_objects w !! (bucket, transcript_key_of (video_name_of key)).
Proof.
  intros Hp Ht X.
  destruct (transcribe_failed_job ffmpeg json_loads fuel uri rg rate lang w)
    as (evs1 & E1 & Q).
  assert (evs1 = evs) as -> by (rewrite Ht in E1; now apply app_inv_head in E1).
  destruct (Q X) as (Hf & Hput & Hdone). split; [exact Hf|]. split; [exact Hput|].
  destruct (transcribe_writes (bucket, transcript_key_of (video_name_of key))
              ffmpeg json_loads fuel uri rg rate lang w) as (evs2 & E2 & [S|S]);
    [exact S|].
  assert (evs2 = evs) as -> by (rewrite Ht in E2; now apply app_inv_head in E2).
  destruct (transcribe_uses_keys ffmpeg json_loads fuel uri rg rate lang w _ _ Hp w)
    as (evs3 & E3 & K).
  assert (evs3 = evs) as -> by (rewrite Ht in E3; now apply app_inv_head in E3).
  apply Exists_exists in S as (e & I & W).
  rewrite Forall_forall in Hput, Hdone, K.
  specialize (Hput e I). specialize (Hdone e I). specialize (K e I).
  destruct e as [| | | |path b k|b k body| | | |name [r|e]| |]; cbn in W, K;
    try contradiction.
  - destruct K as [_ ->]. apply (f_equal snd) in W. now apply keys_differ in W.
  - now destruct Hput.
Qed.

Lemma failed_job_raises_and_caches_nothing_witness :
  job_failure (fst (Demo.transcribe 5 Demo.uri Demo.failing_world)) /\
  Forall (fun e => ~ is_put e)
    (trace (snd (Demo.transcribe 5 Demo.uri Demo.failing_world))) /\
  s3_objects (snd (Demo.transcribe 5 Demo.uri Demo.failing_world))
    !! (Demo.bucket, transcript_key_of (video_name_of Demo.video_key))
  = s3_objects Demo.failing_world
    !! (Demo.bucket, transcript_key_of (video_name_of Demo.video_key)).
Proof.
  apply (failed_job_raises_and_caches_nothing Demo.ffmpeg Demo.json_loads 5 Demo.uri
           "us-west-2" 16000 "en-US" Demo.failing_world Demo.bucket Demo.video_key
           (trace (snd (Demo.transcribe 5 Demo.uri Demo.failing_world)))).
  - vm_compute. reflexivity.
  - reflexivity.
  - vm_compute. do 14 apply Exists_cons_tl. apply Exists_cons_hd. reflexivity.
Defined.

Example failed_run_outcome :
  fst (Demo.transcribe 5 Demo.uri Demo.failing_world)
    = Raise (RuntimeError "Transcription job failed: {...}").
Proof. vm_compute. reflexivity. Qed.

(** ** Two references, one cache entry *)

(** The last step of a fresh transcription: what is returned is what
    was put under the transcript key. *)
Lemma save_then_return bucket transcript_key full_transcript rg :
  ok_only
    (save_transcript_cache bucket transcript_key full_transcript rg ;;
     match full_transcript with
     | JString text => ret (text, Py.split text ". ", false)
     | _ => raise (OtherError "AttributeError")
     end)
    (fun '(text, _, _) w' =>
       s3_objects w' !! (bucket, transcript_key) = Some text /\ Utf8.valid text = true).
Proof.
  intros w [[text segments] is_cached] w' H.
  unfold save_transcript_cache, s3_put_object, bind in H.
  destruct full_transcript as [| | |body| |]; try discriminate.
  destruct (Utf8.valid body) eqn:V; [|discriminate].
  unfold emit, s3_api, modify in H. cbn in H.
  destruct (hd None (s3_faults w)); [discriminate|].
  injection H as <- _ _ <-. cbn. split; [apply lookup_insert_eq | exact V].
Qed.

Lemma transcribe_stores_transcript ffmpeg json_loads fuel uri rg rate lang w0 b k :
  fst (parse_s3_uri uri w0) = Ok (b, k) ->
  ok_only (transcribe_s3_video_with_cache ffmpeg json_loads fuel uri rg rate lang)
    (fun '(text, _, is_cached) w' =>
       is_cached = false ->
       s3_objects w' !! (b, transcript_key_of (video_name_of k)) = Some text /\
       Utf8.valid text = true).
Proof.
  intros Hp. unfold transcribe_s3_video_with_cache.
  apply ok_only_bind_returns. intros p Hret.
  rewrite (parse_s3_uri_returns _ _ _ _ _ Hp Hret). cbv zeta.
  apply ok_only_bind. intros [is_cached cached_transcript].
  destruct is_cached; [ok_only; intros ? [=]|].
  do 16 (apply ok_only_bind; intros ?).
  intros w [[text segments] is_cached] w' H _.
  exact (save_then_return _ _ _ _ _ _ _ H).
Qed.

(** C3, the case against it: the sample video is in two buckets under
    the same key, so both references have the base name "team-sync".
    After a run for the first bucket has stored the transcript, a call
    for the second bucket is no hit: it finds nothing under the
    transcript key of its own bucket and runs the whole pipeline. *)
Lemma other_bucket_is_no_hit :
  fst (parse_s3_uri Demo.uri Demo.world)
    = Ok ("meeting-mind-library", "video/team-sync.mp4") /\
  fst (parse_s3_uri Demo.other_uri Demo.world)
    = Ok ("meeting-mind-archive", "video/team-sync.mp4") /\
  fst (Demo.transcribe 5 Demo.uri Demo.world)
    = Ok (Demo.text, ["Hello world"; "This is a test."], false) /\
  s3_objects Demo.world_after_run
    !! ("meeting-mind-library", "transcription/team-sync.txt") = Some Demo.text /\
  s3_objects Demo.world_after_run
    !! ("meeting-mind-archive", "transcription/team-sync.txt") = None /\
  fst (Demo.transcribe 5 Demo.other_uri Demo.world_after_run)
    = Ok (Demo.text, ["Hello world"; "This is a test."], false).
Proof. repeat split; vm_compute; reflexivity. Qed.

(** C3 as the code has it: the cache entry of a video is the object
    transcription/<base name>.txt of the video's own bucket.  Two
    references to the same bucket whose keys have the same base name
    share it: after a run for the first has returned a fresh
    transcript T, a call for the second (whose lookup the store lets
    through) returns T as a cache hit. *)
Theorem same_bucket_same_name_share_the_entry
    ffmpeg json_loads fuel fuel' uri1 uri2 rg rate lang rg' rate' lang'
    w bucket key1 key2 T segments w1 :
  fst (parse_s3_uri uri1 w) = Ok (bucket, key1) ->
  fst (parse_s3_uri uri2 w1) = Ok (bucket, key2) ->
  video_name_of key1 = video_name_of key2 ->
  transcribe_s3_video_with_cache ffmpeg json_loads fuel uri1 rg rate lang w
    = (Ok (T, segments, false), w1) ->
  hd None (s3_faults w1) = None ->
  hd None (tl (s3_faults w1)) = None ->
  fst (transcribe_s3_video_with_cache ffmpeg json_loads fuel' uri2 rg' rate' lang' w1)
    = Ok (T, Py.split T ". ", true).
Proof.
  intros Hp1 Hp2 Hname Hrun F1 F2.
  destruct (transcribe_stores_transcript _ _ _ _ _ _ _ _ _ _ Hp1 _ _ _ Hrun eq_refl)
    as [Hs Hv].
  rewrite Hname in Hs.
  assert (Hc := check_cache_hits _ _ rg' _ _ Hs Hv F1 F2).
  rewrite (transcribe_on_hit ffmpeg json_loads fuel' uri2 rg' rate' lang' w1 bucket key2 T
             (snd (check_cache bucket (transcript_key_of (video_name_of key2)) rg' w1)) Hp2).
  - reflexivity.
  - rewrite <- Hc. apply surjective_pairing.
Qed.

Lemma same_bucket_same_name_share_the_entry_witness :
  fst (Demo.transcribe 0 Demo.same_name_uri Demo.world_after_run)
    = Ok (Demo.text, Py.split Demo.text ". ", true).
Proof.
  apply (same_bucket_same_name_share_the_entry Demo.ffmpeg Demo.json_loads 5 0
           Demo.uri Demo.same_name_uri "us-west-2" 16000 "en-US" "us-west-2" 16000 "en-US"
           Demo.world Demo.bucket Demo.video_key "uploads/2024/team-sync.mov"
           Demo.text ["Hello world"; "This is a test."] Demo.world_after_run).
  - vm_compute. reflexivity.
  - vm_compute. reflexivity.
  - vm_compute. reflexivity.
  - vm_compute. reflexivity.
  - vm_compute. reflexivity.
  - vm_compute. reflexivity.
Defined.

(** * Further properties of the code *)

(** ** Names derived from a key *)

Lemma has_char_append c (a b : string) :
  has_char c (a +:+ b) = has_char c a || has_char c b.
Proof.
  unfold has_char. induction a as [|x a IH]; [reflexivity|].
  rewrite append_cons. simpl. now rewrite IH, orb_assoc.
Qed.

Lemma has_char_cons c x s :
  has_char c (String x s) = false -> c <> x /\ has_char c s = false.
Proof.
  unfold has_char. simpl. intros H. apply orb_false_elim in H as [H1 H2].
  split; [|exact H2]. intros ->. now rewrite Ascii.eqb_refl in H1.
Qed.

Lemma prefix_char_cons c x s :
  String.prefix (String c "") (String x s) = true <-> c = x.
Proof.
  cbn. destruct (ascii_dec c x) as [E|E]; [now rewrite prefix_nil|].
  split; [discriminate | contradiction].
Qed.

Lemma split_aux_limit_0 sep cur s :
  Py.split_aux sep (Some 0) 0 cur s = [cur +:+ s].
Proof.
  revert cur. induction s as [|x s IH]; intros cur.
  - cbn. now rewrite append_nil_r.
  - cbn [Py.split_aux]. rewrite IH. now rewrite append_assoc, append_cons, append_nil_l.
Qed.


(** One split at the first separator. *)
Lemma split_aux_once c cur a b :
  has_char c a = false ->
  Py.split_aux (String c "") (Some 1) 0 cur (a +:+ String c b) = [cur +:+ a; b].
Proof.
  revert cur. induction a as [|x a IH]; intros cur H.
  - rewrite append_nil_l, append_nil_r. cbn [Py.split_aux].
    rewrite (proj2 (prefix_char_cons c c b) eq_refl). cbn.
    now rewrite split_aux_limit_0.
  - apply has_char_cons in H as [Hx H]. rewrite append_cons.
    assert (E : String.prefix (String c "") (String x (a +:+ String c b)) = false).
    { destruct (String.prefix _ _) eqn:E; [|reflexivity].
      now apply prefix_char_cons in E. }
    cbn [Py.split_aux]. rewrite E, IH by exact H.
    now rewrite append_assoc, append_cons, append_nil_l.
Qed.

Lemma list_ascii_append (a b : string) :
  list_ascii_of_string (a +:+ b) = list_ascii_of_string a ++ list_ascii_of_string b.
Proof. induction a as [|x a IH]; [reflexivity|]. rewrite append_cons. cbn. now rewrite IH. Qed.

Lemma string_of_list_app (l1 l2 : list ascii) :
  string_of_list_ascii (l1 ++ l2) = string_of_list_ascii l1 +:+ string_of_list_ascii l2.
Proof. induction l1 as [|x l IH]; [reflexivity|]. cbn. now rewrite IH, append_cons. Qed.

Lemma rev_string_append (a b : string) :
  Py.rev_string (a +:+ b) = Py.rev_string b +:+ Py.rev_string a.
Proof.
  unfold Py.rev_string. now rewrite list_ascii_append, rev_app_distr, string_of_list_app.
Qed.

Lemma rev_string_involutive (s : string) : Py.rev_string (Py.rev_string s) = s.
Proof.
  unfold Py.rev_string.
  now rewrite list_ascii_of_string_of_list_ascii, rev_involutive,
    string_of_list_ascii_of_string.
Qed.





Lemma basename_aux_without cur s :
  contains_slash s = false -> Py.basename_aux cur s = cur +:+ s.
Proof.
  revert cur. induction s as [|x s IH]; intros cur H.
  - cbn. now rewrite append_nil_r.
  - apply contains_slash_cons in H as [Hx H]. cbn [Py.basename_aux].
    destruct (Ascii.eqb_spec x "/") as [->|_]; [contradiction|].
    rewrite IH by exact H. now rewrite append_assoc, append_cons, append_nil_l.
Qed.

Lemma basename_aux_after_slash cur a b :
  Py.basename_aux cur (a +:+ String "/" b) = Py.basename_aux "" b.
Proof.
  revert cur. induction a as [|x a IH]; intros cur.
  - reflexivity.
  - rewrite append_cons. cbn [Py.basename_aux]. destruct (Ascii.eqb x "/"); apply IH.
Qed.

Lemma basename_of_path dir name :
  contains_slash name = false -> Py.basename (dir +:+ "/" +:+ name) = name.
Proof.
  intros H. unfold Py.basename. rewrite append_cons, append_nil_l.
  now rewrite basename_aux_after_slash, basename_aux_without.
Qed.



(** ** The pieces of a split *)

Lemma prefix_of_append (p r : string) : String.prefix p (p +:+ r) = true.
Proof.
  induction p as [|x p IH]; [apply prefix_nil|].
  rewrite append_cons. cbn. now destruct (ascii_dec x x).
Qed.

Lemma prefix_extends (p v rest : string) :
  String.prefix p v = true -> String.prefix p (v +:+ rest) = true.
Proof.
  intros [r ->]%prefix_append. rewrite append_assoc. apply prefix_of_append.
Qed.

Lemma append_eq_nil (u v : string) : u +:+ v = "" -> v = "".
Proof. destruct u; [now rewrite append_nil_l | now rewrite append_cons]. Qed.

Lemma append_snoc_inv (u cur v : string) c :
  cur +:+ String c "" = u +:+ v -> v <> "" ->
  exists v0, v = v0 +:+ String c "" /\ cur = u +:+ v0.
Proof.
  revert cur. induction u as [|x u IH]; intros cur E Hv.
  - exists cur. now rewrite append_nil_l in E |- *.
  - destruct cur as [|y cur].
    + rewrite append_nil_l, append_cons in E. injection E as _ E.
      symmetry in E. now apply append_eq_nil in E.
    + rewrite !append_cons in E. injection E as -> E.
      destruct (IH cur E Hv) as (v0 & -> & ->). exists v0.
      now rewrite append_cons.
Qed.

Section Pieces.

Variables (c0 : ascii) (sep0 : string).
Local Abbreviation sep := (String c0 sep0).
Local Abbreviation safe := (starts_no_match (String c0 sep0)).

Lemma safe_nil rest : safe "" rest.
Proof. intros u v E Hv. symmetry in E. now apply append_eq_nil in E. Qed.

Lemma no_occurrence cur :
  (forall u v, cur = u +:+ v -> v <> "" -> String.prefix sep v = false) ->
  occurs sep cur = false.
Proof.
  induction cur as [|x cur IH]; intros H; [reflexivity|].
  cbn [occurs]. rewrite (H "" (String x cur)) by easy. cbn.
  apply IH. intros u v -> Hv. apply (H (String x u) v); [now rewrite append_cons | exact Hv].
Qed.

Lemma safe_no_occurrence cur rest : safe cur rest -> occurs sep cur = false.
Proof.
  intros H. apply no_occurrence. intros u v E Hv.
  destruct (String.prefix sep v) eqn:P; [|reflexivity].
  apply (prefix_extends _ _ rest) in P. now rewrite (H u v E Hv) in P.
Qed.

Lemma safe_snoc cur x s :
  safe cur (String x s) -> String.prefix sep (String x s) = false ->
  safe (cur +:+ String x "") s.
Proof.
  intros H P u v E Hv. destruct (append_snoc_inv _ _ _ _ E Hv) as (v0 & -> & ->).
  rewrite append_assoc, append_cons, append_nil_l.
  destruct v0 as [|y v0]; [now rewrite append_nil_l|].
  now apply (H u (String y v0)).
Qed.

(** No piece of a split contains the separator. *)
Lemma split_pieces_free s :
  forall skip cur,
    (skip = 0 -> safe cur s) -> (skip <> 0 -> cur = "") ->
    Forall (fun p => occurs sep p = false) (Py.split_aux sep None skip cur s).
Proof.
  induction s as [|x s IH]; intros skip cur H0 H1.
  - cbn. constructor; [|constructor].
    destruct skip; [now apply (safe_no_occurrence cur ""), H0 | now rewrite H1].
  - cbn [Py.split_aux]. destruct skip as [|k].
    + destruct (String.prefix sep (String x s)) eqn:P.
      * constructor; [now apply (safe_no_occurrence cur (String x s)), H0|].
        apply IH; [intros _; apply safe_nil | reflexivity].
      * apply IH; [intros _; now apply safe_snoc, P; apply H0 | easy].
    + rewrite H1 by easy. apply IH; [intros _; apply safe_nil | reflexivity].
Qed.

Lemma split_free s : Forall (fun p => occurs sep p = false) (Py.split s sep).
Proof. apply split_pieces_free; [intros _; apply safe_nil | easy]. Qed.

End Pieces.

(** X2. Whenever [transcribe_s3_video_with_cache] returns, the segments
    are the text cut at every ". " and nowhere else: there is at least
    one segment, no segment contains ". ", and joining the segments
    with ". " gives the text back. *)
Theorem segments_rebuild_the_text
    ffmpeg json_loads fuel uri rg rate lang w text segments is_cached w' :
  transcribe_s3_video_with_cache ffmpeg json_loads fuel uri rg rate lang w
    = (Ok (text, segments, is_cached), w') ->
  segments <> [] /\
  Forall (fun p => occurs ". " p = false) segments /\
  Py.join ". " segments = text.
Proof.
  intros H. rewrite (transcribe_segments _ _ _ _ _ _ _ _ _ _ H).
  split; [apply split_aux_nonempty|]. split; [apply split_free | apply join_split].
Qed.

Lemma segments_rebuild_the_text_witness :
  ["Hello world"; "This is a test."] <> [] /\
  Forall (fun p => occurs ". " p = false) ["Hello world"; "This is a test."] /\
  Py.join ". " ["Hello world"; "This is a test."] = Demo.text.
Proof.
  apply (segments_rebuild_the_text Demo.ffmpeg Demo.json_loads 5 Demo.uri
           "us-west-2" 16000 "en-US" Demo.world Demo.text
           ["Hello world"; "This is a test."] false Demo.world_after_run).
  vm_compute. reflexivity.
Defined.

(** ** The adapters of the store *)

Lemma check_cache_effects b k rg w :
  fst (check_cache b k rg w) <> Diverge /\
  (trace (snd (check_cache b k rg w)) = trace w ++ [EvHeadObject b k] \/
   trace (snd (check_cache b k rg w)) = trace w ++ [EvHeadObject b k; EvGetObject b k]) /\
  s3_objects (snd (check_cache b k rg w)) = s3_objects w /\
  local_files (snd (check_cache b k rg w)) = local_files w /\
  jobs (snd (check_cache b k rg w)) = jobs w /\
  clock (snd (check_cache b k rg w)) = clock w.
Proof.
  rewrite check_cache_cases. cbv zeta.
  destruct (hd None (s3_faults w)) as [e|].
  { cbn. split; [now destruct e|]. auto 10. }
  destruct (s3_objects w !! (b, k)) as [body|]; [|cbn; split; [easy | auto 10]].
  destruct (hd None (tl (s3_faults w))) as [e|]; cbn.
  - split; [now destruct e|]. rewrite <- app_assoc. auto 10.
  - split; [now destruct (Utf8.valid body)|]. rewrite <- app_assoc. auto 10.
Qed.

(** X3. The cache lookup only reads: whatever the store answers,
    [check_cache] comes to an end, makes one call ([head_object]) or two
    ([head_object], then [get_object]), and leaves the store, the local
    files, the jobs and the clock as they were. *)
Theorem check_cache_only_reads b k rg w :
  fst (check_cache b k rg w) <> Diverge /\
  (trace (snd (check_cache b k rg w)) = trace w ++ [EvHeadObject b k] \/
   trace (snd (check_cache b k rg w)) = trace w ++ [EvHeadObject b k; EvGetObject b k]) /\
  s3_objects (snd (check_cache b k rg w)) = s3_objects w /\
  local_files (snd (check_cache b k rg w)) = local_files w /\
  jobs (snd (check_cache b k rg w)) = jobs w /\
  clock (snd (check_cache b k rg w)) = clock w.
Proof. exact (check_cache_effects b k rg w). Qed.

(** X4. What the lookup returns: the text of a hit is the object stored
    under the key, byte for byte, and it is well-formed UTF-8; a miss
    always comes with the empty text. *)
Theorem check_cache_returns_the_object b k rg w hit text w' :
  check_cache b k rg w = (Ok (hit, text), w') ->
  if hit then s3_objects w !! (b, k) = Some text /\ Utf8.valid text = true
  else text = "".
Proof.
  destruct hit.
  - intros H. apply check_cache_hit_inv in H as (H & V & _). auto.
  - rewrite check_cache_cases. cbv zeta.
    destruct (hd None (s3_faults w)) as [e|]; [destruct e; intros [=]; easy|].
    destruct (s3_objects w !! (b, k)) as [body|]; [|now intros [=]].
    destruct (hd None (tl (s3_faults w))) as [e|]; [destruct e; intros [=]; easy|].
    destruct (Utf8.valid body); intros [=].
Qed.

Lemma check_cache_returns_the_object_witness :
  s3_objects Demo.world_after_run !! (Demo.bucket, "transcription/team-sync.txt")
    = Some Demo.text /\ Utf8.valid Demo.text = true.
Proof.
  apply (check_cache_returns_the_object Demo.bucket "transcription/team-sync.txt"
           "us-west-2" Demo.world_after_run true Demo.text
           (snd (check_cache Demo.bucket "transcription/team-sync.txt" "us-west-2"
                   Demo.world_after_run))).
  vm_compute. reflexivity.
Defined.

Lemma save_transcript_cache_inv b k body rg w w' :
  save_transcript_cache b k (JString body) rg w = (Ok tt, w') ->
  Utf8.valid body = true /\
  w' = set_s3_objects (insert (b, k) body)
         (set_s3_faults (tl (s3_faults w)) (log [EvPutObject b k body] w)).
Proof.
  unfold save_transcript_cache, s3_put_object.
  destruct (Utf8.valid body); [|discriminate].
  unfold bind, emit, modify, s3_api. cbn.
  destruct (hd None (s3_faults w)); [discriminate|]. now intros [= <-].
Qed.

(** X5. Save, then look up: after [save_transcript_cache] has returned,
    a lookup of the same bucket and key that the store lets through is
    a hit with the text that was saved. *)
Theorem saved_transcript_is_found b k text rg rg' w w' :
  save_transcript_cache b k (JString text) rg w = (Ok tt, w') ->
  hd None (s3_faults w') = None ->
  hd None (tl (s3_faults w')) = None ->
  fst (check_cache b k rg' w') = Ok (true, text).
Proof.
  intros H F1 F2. apply save_transcript_cache_inv in H as (V & ->).
  apply check_cache_hits; [apply lookup_insert_eq | exact V | exact F1 | exact F2].
Qed.

Lemma saved_transcript_is_found_witness :
  fst (check_cache "meeting-mind-library" "transcription/notes.txt" "us-west-2"
         (snd (save_transcript_cache "meeting-mind-library" "transcription/notes.txt"
                 (JString "Budget approved. Next review in May.") "us-west-2" Demo.world)))
    = Ok (true, "Budget approved. Next review in May.").
Proof.
  apply (saved_transcript_is_found "meeting-mind-library" "transcription/notes.txt"
           "Budget approved. Next review in May." "us-west-2" "us-west-2" Demo.world).
  - vm_compute. reflexivity.
  - reflexivity.
  - reflexivity.
Defined.

(** All the runs of [download_from_s3]. *)
Lemma download_from_s3_cases b k rg w :
  let p := tmp_path (tmp_serial w) (Py.splitext_ext k) in
  let w1 := set_s3_faults (tl (s3_faults w))
              (log [EvDownloadFile b k p]
                 (set_tmp_serial (S (tmp_serial w))
                    (set_local_files (insert p "") (log [EvTempFile p] w)))) in
  download_from_s3 b k rg w =
    match hd None (s3_faults w) with
    | Some e => (Raise e, w1)
    | None =>
        match s3_objects w !! (b, k) with
        | Some body => (Ok p, set_local_files (insert p body) w1)
        | None => (Raise (ClientError "404"), w1)
        end
    end.
Proof.
  unfold download_from_s3, NamedTemporaryFile, s3_download_file,
    bind, emit, modify, s3_api, get_world, ret, raise, log. cbn.
  destruct (hd None (s3_faults w)); [reflexivity|]. cbn.
  destruct (s3_objects w !! (b, k)); reflexivity.
Qed.

Lemma download_from_s3_effects b k rg w :
  let p := tmp_path (tmp_serial w) (Py.splitext_ext k) in
  let w' := snd (download_from_s3 b k rg w) in
  s3_objects w' = s3_objects w /\
  match fst (download_from_s3 b k rg w) with
  | Ok path => path = p /\ local_files w' !! path = s3_objects w !! (b, k) /\
               is_Some (s3_objects w !! (b, k))
  | Raise e => local_files w' !! p = Some "" /\
               (hd None (s3_faults w) = None -> e = ClientError "404" /\
                                                s3_objects w !! (b, k) = None)
  | Diverge => False
  end.
Proof.
  rewrite download_from_s3_cases. cbv zeta.
  destruct (hd None (s3_faults w)) as [e|].
  { cbn. split; [reflexivity|]. split; [apply lookup_insert_eq | discriminate]. }
  destruct (s3_objects w !! (b, k)) as [body|] eqn:E; cbn.
  - split; [reflexivity|]. split; [reflexivity|].
    split; [apply lookup_insert_eq | eauto].
  - split; [reflexivity|]. split; [apply lookup_insert_eq | auto].
Qed.


Lemma upload_to_s3_inv path b k rg w uri w' :
  upload_to_s3 path b k rg w = (Ok uri, w') ->
  exists body,
    local_files w !! path = Some body /\
    uri = "s3://" +:+ b +:+ "/" +:+ k /\
    w' = set_s3_objects (insert (b, k) body)
           (set_s3_faults (tl (s3_faults w)) (log [EvUploadFile path b k] w)).
Proof.
  unfold upload_to_s3, s3_upload_file, bind, emit, modify, s3_api, get_world, ret, raise.
  cbn. destruct (hd None (s3_faults w)); [discriminate|]. cbn.
  destruct (local_files w !! path) as [body|]; [|discriminate].
  intros [= <- <-]. now exists body.
Qed.

(** X7. Upload, then download: a file uploaded with [upload_to_s3] and
    fetched again with [download_from_s3] from the same bucket and key
    arrives with the bytes it was sent with, and the URI the upload
    returned is "s3://bucket/key". *)
Theorem upload_then_download path b k rg rg' w uri w1 path' w2 :
  upload_to_s3 path b k rg w = (Ok uri, w1) ->
  download_from_s3 b k rg' w1 = (Ok path', w2) ->
  uri = "s3://" +:+ b +:+ "/" +:+ k /\
  is_Some (local_files w !! path) /\
  local_files w2 !! path' = local_files w !! path.
Proof.
  intros (body & Hb & -> & ->)%upload_to_s3_inv Hd.
  split; [reflexivity|]. split; [eauto|].
  assert (D := download_from_s3_effects b k rg'
    (set_s3_objects (insert (b, k) body)
       (set_s3_faults (tl (s3_faults w)) (log [EvUploadFile path b k] w)))).
  cbv zeta in D. rewrite Hd in D. cbn [fst snd] in D.
  destruct D as (_ & _ & -> & _). cbn. now rewrite lookup_insert_eq.
Qed.

Lemma upload_then_download_witness :
  "s3://meeting-mind-library/video/demo.mp4"
    = "s3://" +:+ "meeting-mind-library" +:+ "/" +:+ "video/demo.mp4" /\
  is_Some (local_files (with_local_file "/tmp/demo.mp4" "DEMO" Demo.world) !! "/tmp/demo.mp4") /\
  local_files
    (snd (download_from_s3 "meeting-mind-library" "video/demo.mp4" "us-west-2"
            (snd (upload_to_s3 "/tmp/demo.mp4" "meeting-mind-library" "video/demo.mp4"
                    "us-west-2" (with_local_file "/tmp/demo.mp4" "DEMO" Demo.world)))))
    !! "/tmp/tmp0.mp4"
  = local_files (with_local_file "/tmp/demo.mp4" "DEMO" Demo.world) !! "/tmp/demo.mp4".
Proof.
  apply (upload_then_download "/tmp/demo.mp4" "meeting-mind-library" "video/demo.mp4"
           "us-west-2" "us-west-2" (with_local_file "/tmp/demo.mp4" "DEMO" Demo.world)
           "s3://meeting-mind-library/video/demo.mp4"
           (snd (upload_to_s3 "/tmp/demo.mp4" "meeting-mind-library" "video/demo.mp4"
                   "us-west-2" (with_local_file "/tmp/demo.mp4" "DEMO" Demo.world)))
           "/tmp/tmp0.mp4").
  - vm_compute. reflexivity.
  - vm_compute. reflexivity.
Defined.

(** ** From an upload to a reference *)

Lemma has_double_slash_tail x s :
  has_double_slash (String x s) = false -> has_double_slash s = false.
Proof. cbn [has_double_slash]. intros H. now apply orb_false_elim in H. Qed.

Lemma prefix_s3_needs_double_slash s :
  has_double_slash s = false -> String.prefix "s3://" s = false.
Proof.
  intros H. destruct (String.prefix "s3://" s) eqn:E; [|reflexivity].
  apply prefix_append in E as [rest ->]. rewrite !append_cons in H. discriminate.
Qed.

(** Without two slashes in a row there is no "s3://" to remove. *)
Lemma replace_without_double_slash s :
  has_double_slash s = false -> Py.replace_aux "s3://" "" 0 s = s.
Proof.
  induction s as [|x s IH]; intros H; [reflexivity|].
  cbn [Py.replace_aux]. rewrite (prefix_s3_needs_double_slash _ H).
  now rewrite IH by now apply has_double_slash_tail in H.
Qed.

Lemma no_slash_no_double_slash s :
  contains_slash s = false -> has_double_slash s = false.
Proof.
  induction s as [|x s IH]; intros H; [reflexivity|].
  apply contains_slash_cons in H as [Hx H]. cbn [has_double_slash].
  rewrite IH by exact H. destruct (Ascii.eqb_spec x "/"); [contradiction | reflexivity].
Qed.

Lemma double_slash_after_name a b :
  contains_slash a = false ->
  has_double_slash (a +:+ String "/" b) = has_double_slash (String "/" b).
Proof.
  induction a as [|x a IH]; intros H; [reflexivity|].
  apply contains_slash_cons in H as [Hx H]. rewrite append_cons.
  cbn [has_double_slash]. fold has_double_slash. rewrite IH by exact H.
  destruct (Ascii.eqb_spec x "/"); [contradiction | reflexivity].
Qed.

(** The keys the front end uploads to: "video/" and a file name. *)
Lemma upload_key_has_no_double_slash bucket filename :
  contains_slash bucket = false -> contains_slash filename = false ->
  has_double_slash (bucket +:+ "/" +:+ "video/" +:+ filename) = false.
Proof.
  intros Hb Hf. rewrite append_cons, append_nil_l.
  rewrite double_slash_after_name by exact Hb.
  change ("video/" +:+ filename) with ("video" +:+ String "/" filename).
  cbn [has_double_slash]. fold has_double_slash.
  rewrite append_cons. cbn [Ascii.eqb Bool.eqb andb orb].
  rewrite <- append_cons, double_slash_after_name by reflexivity.
  cbn [has_double_slash]. fold has_double_slash.
  rewrite (no_slash_no_double_slash _ Hf).
  destruct filename as [|y f]; [reflexivity|].
  apply contains_slash_cons in Hf as [Hy _].
  destruct (Ascii.eqb_spec y "/"); [contradiction | reflexivity].
Qed.

Lemma parse_of_bucket_and_key bucket key w :
  contains_slash bucket = false ->
  has_double_slash (bucket +:+ "/" +:+ key) = false ->
  parse_s3_uri ("s3://" +:+ bucket +:+ "/" +:+ key) w = (Ok (bucket, key), w).
Proof.
  intros Hb Hd. unfold parse_s3_uri, Py.startswith.
  rewrite prefix_of_append.
  assert (Py.replace ("s3://" +:+ bucket +:+ "/" +:+ key) "s3://" ""
          = bucket +:+ "/" +:+ key) as ->.
  { unfold Py.replace. rewrite !append_cons, append_nil_l. cbn.
    rewrite prefix_nil, append_nil_l. rewrite <- append_cons.
    now apply replace_without_double_slash. }
  unfold Py.split_max. rewrite append_cons, append_nil_l.
  rewrite split_aux_once by exact Hb. now rewrite append_nil_l.
Qed.

Lemma upload_uri_parses path bucket key rg w uri w' :
  contains_slash bucket = false ->
  has_double_slash (bucket +:+ "/" +:+ key) = false ->
  upload_to_s3 path bucket key rg w = (Ok uri, w') ->
  parse_s3_uri uri w' = (Ok (bucket, key), w').
Proof.
  intros Hb Hd (body & _ & -> & _)%upload_to_s3_inv.
  now apply parse_of_bucket_and_key.
Qed.

(** X8. The URI that [upload_to_s3] returns is read back by the parse
    of the orchestrator as the bucket and the key of the upload, when
    the bucket has no slash and bucket/key has no two slashes in a row
    (so that no second "s3://" occurs in it). *)
Theorem uploaded_uri_parses_back path bucket key rg w uri w' :
  contains_slash bucket = false ->
  has_double_slash (bucket +:+ "/" +:+ key) = false ->
  upload_to_s3 path bucket key rg w = (Ok uri, w') ->
  parse_s3_uri uri w' = (Ok (bucket, key), w').
Proof. exact (upload_uri_parses path bucket key rg w uri w'). Qed.

Lemma uploaded_uri_parses_back_witness :
  parse_s3_uri "s3://meeting-mind-library/video/demo.mp4"
    (snd (upload_to_s3 "/tmp/demo.mp4" "meeting-mind-library" "video/demo.mp4"
            "us-west-2" (with_local_file "/tmp/demo.mp4" "DEMO" Demo.world)))
  = (Ok ("meeting-mind-library", "video/demo.mp4"),
     snd (upload_to_s3 "/tmp/demo.mp4" "meeting-mind-library" "video/demo.mp4"
            "us-west-2" (with_local_file "/tmp/demo.mp4" "DEMO" Demo.world))).
Proof.
  apply (uploaded_uri_parses_back "/tmp/demo.mp4" "meeting-mind-library" "video/demo.mp4"
           "us-west-2" (with_local_file "/tmp/demo.mp4" "DEMO" Demo.world)
           "s3://meeting-mind-library/video/demo.mp4").
  - reflexivity.
  - reflexivity.
  - vm_compute. reflexivity.
Defined.

Lemma parse_drops_inner_scheme_example :
  fst (parse_s3_uri "s3://meeting-mind-library/s3://video/demo.mp4" Demo.world)
    = Ok ("meeting-mind-library", "video/demo.mp4").
Proof. reflexivity. Qed.


(** ** The caller: [transcript_to_text] *)

Lemma transcript_to_text_inv ffmpeg json_loads fuel uri w text is_cached w' :
  transcript_to_text ffmpeg json_loads fuel uri w = (Ok (text, is_cached), w') ->
  exists segments,
    transcribe_s3_video_with_cache ffmpeg json_loads fuel uri "us-west-2" 16000 "en-US" w
      = (Ok (text, segments, is_cached), w').
Proof.
  unfold transcript_to_text, bind.
  destruct (transcribe_s3_video_with_cache _ _ _ _ _ _ _ w)
    as [[[[t segs] c]|e|] w1]; try discriminate.
  intros [= <- <- <-]. now exists segs.
Qed.

Lemma transcript_to_text_of_hit ffmpeg json_loads fuel uri w b k text :
  fst (parse_s3_uri uri w) = Ok (b, k) ->
  fst (check_cache b (transcript_key_of (video_name_of k)) "us-west-2" w) = Ok (true, text) ->
  fst (transcript_to_text ffmpeg json_loads fuel uri w) = Ok (text, true).
Proof.
  intros Hp Hc. unfold transcript_to_text, bind.
  rewrite (transcribe_on_hit ffmpeg json_loads fuel uri "us-west-2" 16000 "en-US" w b k text
             (snd (check_cache b (transcript_key_of (video_name_of k)) "us-west-2" w)) Hp).
  - reflexivity.
  - rewrite <- Hc. apply surjective_pairing.
Qed.

(** A run that returns has parsed its reference. *)
Lemma transcribe_ok_parses ffmpeg json_loads fuel uri rg rate lang w r w' :
  transcribe_s3_video_with_cache ffmpeg json_loads fuel uri rg rate lang w = (Ok r, w') ->
  exists b k, forall w0, fst (parse_s3_uri uri w0) = Ok (b, k).
Proof.
  unfold transcribe_s3_video_with_cache. unfold bind at 1.
  destruct (parse_s3_uri uri w) as [[[b k]|e|] w1] eqn:E; try discriminate.
  intros _. exists b, k. intros w0.
  rewrite (parse_s3_uri_pure uri w w0) in E. now injection E as ->.
Qed.

(** X9. Miss, then hit: when [transcript_to_text] has returned a fresh
    transcript T (flag False), the next call for the same reference
    returns (T, True), provided the store lets the two calls of the
    lookup through. *)
Theorem fresh_transcript_is_a_hit_next_time
    ffmpeg json_loads fuel fuel' uri w text w1 :
  transcript_to_text ffmpeg json_loads fuel uri w = (Ok (text, false), w1) ->
  hd None (s3_faults w1) = None ->
  hd None (tl (s3_faults w1)) = None ->
  fst (transcript_to_text ffmpeg json_loads fuel' uri w1) = Ok (text, true).
Proof.
  intros [segments Hrun]%transcript_to_text_inv F1 F2.
  destruct (transcribe_ok_parses _ _ _ _ _ _ _ _ _ _ Hrun) as (b & k & Hp).
  destruct (transcribe_stores_transcript _ _ _ _ _ _ _ _ _ _ (Hp w) _ _ _ Hrun eq_refl)
    as [Hs Hv].
  apply (transcript_to_text_of_hit _ _ _ _ _ b k); [apply Hp|].
  now apply check_cache_hits.
Qed.

Lemma fresh_transcript_is_a_hit_next_time_witness :
  fst (transcript_to_text Demo.ffmpeg Demo.json_loads 0 Demo.uri Demo.world_after_run)
    = Ok (Demo.text, true).
Proof.
  apply (fresh_transcript_is_a_hit_next_time Demo.ffmpeg Demo.json_loads 5 0 Demo.uri
           Demo.world Demo.text Demo.world_after_run).
  - vm_compute. reflexivity.
  - vm_compute. reflexivity.
  - vm_compute. reflexivity.
Defined.

Lemma video_name_of_upload_key filename :
  contains_slash filename = false ->
  video_name_of ("video/" +:+ filename) = video_name_of filename.
Proof.
  intros H. unfold video_name_of.
  change ("video/" +:+ filename) with ("video" +:+ "/" +:+ filename).
  rewrite basename_of_path by exact H.
  unfold Py.basename. now rewrite basename_aux_without, append_nil_l.
Qed.

Lemma upload_key_is_no_transcript_key filename name :
  "video/" +:+ filename <> transcript_key_of name.
Proof. unfold transcript_key_of. rewrite !append_cons. discriminate. Qed.

(** X10. A transcript cached under the name of a file answers for every
    upload of that name.  When the front end has uploaded a file as
    video/<filename> and the store holds a transcript T under
    transcription/<video name of filename>.txt, [transcript_to_text] on
    the URI of the upload returns (T, True): the uploaded bytes are not
    looked at. *)
Theorem cached_name_answers_for_the_upload
    ffmpeg json_loads fuel path bucket filename rg w uri w1 text :
  contains_slash bucket = false ->
  contains_slash filename = false ->
  upload_to_s3 path bucket ("video/" +:+ filename) rg w = (Ok uri, w1) ->
  s3_objects w !! (bucket, transcript_key_of (video_name_of filename)) = Some text ->
  Utf8.valid text = true ->
  hd None (s3_faults w1) = None ->
  hd None (tl (s3_faults w1)) = None ->
  fst (transcript_to_text ffmpeg json_loads fuel uri w1) = Ok (text, true).
Proof.
  intros Hb Hf Hup Hs Hv F1 F2.
  assert (Hp := upload_uri_parses _ _ _ _ _ _ _ Hb
                  (upload_key_has_no_double_slash _ _ Hb Hf) Hup).
  apply (transcript_to_text_of_hit _ _ _ _ _ bucket ("video/" +:+ filename));
    [now rewrite Hp|].
  rewrite video_name_of_upload_key by exact Hf.
  apply check_cache_hits; [|exact Hv | exact F1 | exact F2].
  apply upload_to_s3_inv in Hup as (body & _ & _ & ->). cbn.
  rewrite lookup_insert_ne; [exact Hs|].
  intros E. apply (f_equal snd) in E. now apply upload_key_is_no_transcript_key in E.
Qed.

Lemma cached_name_answers_for_the_upload_witness :
  fst (transcript_to_text Demo.ffmpeg Demo.json_loads 0
         "s3://meeting-mind-library/video/team-sync.mkv"
         (snd (upload_to_s3 "/tmp/team-sync.mkv" "meeting-mind-library"
                 ("video/" +:+ "team-sync.mkv") "us-west-2"
                 (with_local_file "/tmp/team-sync.mkv" "ANOTHER-MEETING"
                    Demo.world_after_run))))
    = Ok (Demo.text, true).
Proof.
  apply (cached_name_answers_for_the_upload Demo.ffmpeg Demo.json_loads 0
           "/tmp/team-sync.mkv" "meeting-mind-library" "team-sync.mkv" "us-west-2"
           (with_local_file "/tmp/team-sync.mkv" "ANOTHER-MEETING" Demo.world_after_run)).
  - reflexivity.
  - reflexivity.
  - vm_compute. reflexivity.
  - vm_compute. reflexivity.
  - reflexivity.
  - vm_compute. reflexivity.
  - vm_compute. reflexivity.
Defined.

(** ** The audio extraction *)

(** All the runs of [extract_audio_ffmpeg]. *)
Lemma extract_audio_ffmpeg_cases ffmpeg video_path rate w :
  let p := tmp_path (tmp_serial w) ".wav" in
  let w1 := log [EvFfmpeg video_path rate p]
              (set_tmp_serial (S (tmp_serial w))
                 (set_local_files (insert p "") (log [EvTempFile p] w))) in
  extract_audio_ffmpeg ffmpeg video_path rate w =
    match <[p := ""]> (local_files w) !! video_path with
    | None => (Raise CalledProcessError, w1)
    | Some video =>
        match ffmpeg video rate with
        | Some wav => (Ok p, set_local_files (insert p wav) w1)
        | None =>
            (Raise CalledProcessError,
             match ffmpeg_leftover w with
             | Some part => set_local_files (insert p part) w1
             | None => w1
             end)
        end
    end.
Proof.
  unfold extract_audio_ffmpeg, NamedTemporaryFile, subprocess_run_ffmpeg,
    bind, emit, modify, get_world, ret, raise, log. cbn.
  destruct (<[_ := ""]> (local_files w) !! video_path) as [video|]; [|reflexivity].
  destruct (ffmpeg video rate); [reflexivity|].
  destruct (ffmpeg_leftover w); reflexivity.
Qed.

(** X11. [extract_audio_ffmpeg] on an existing video file, with a
    temporary name that is new: the video file and the store are left
    as they are; when ffmpeg succeeds the returned path holds what
    ffmpeg made of the video at the sample rate; when ffmpeg fails the
    call raises [CalledProcessError] and the temporary wav file stays
    behind, with whatever the failed conversion wrote to it (empty
    when it wrote nothing). *)
Theorem extract_audio_keeps_the_video ffmpeg video_path rate w video :
  local_files w !! video_path = Some video ->
  local_files w !! tmp_path (tmp_serial w) ".wav" = None ->
  let p := tmp_path (tmp_serial w) ".wav" in
  let w' := snd (extract_audio_ffmpeg ffmpeg video_path rate w) in
  local_files w' !! video_path = Some video /\
  s3_objects w' = s3_objects w /\
  match ffmpeg video rate with
  | Some wav => fst (extract_audio_ffmpeg ffmpeg video_path rate w) = Ok p /\
                local_files w' !! p = Some wav
  | None => fst (extract_audio_ffmpeg ffmpeg video_path rate w) = Raise CalledProcessError /\
            local_files w' !! p = Some (default "" (ffmpeg_leftover w))
  end.
Proof.
  intros Hv Hfresh p w'. subst w'. rewrite extract_audio_ffmpeg_cases. cbv zeta.
  assert (Hne : p <> video_path) by (intros E; subst p; congruence).
  rewrite lookup_insert_ne, Hv by exact Hne.
  destruct (ffmpeg video rate) as [wav|]; cbn.
  - rewrite lookup_insert_ne, lookup_insert_ne, lookup_insert_eq by exact Hne. auto.
  - destruct (ffmpeg_leftover w) as [part|]; cbn.
    + rewrite lookup_insert_ne, lookup_insert_ne, lookup_insert_eq by exact Hne. auto.
    + rewrite lookup_insert_ne, lookup_insert_eq by exact Hne. auto.
Qed.

Lemma extract_audio_keeps_the_video_witness :
  let w := with_local_file "/tmp/in.mp4" Demo.video Demo.world in
  let w' := snd (extract_audio_ffmpeg Demo.ffmpeg "/tmp/in.mp4" 16000 w) in
  local_files w' !! "/tmp/in.mp4" = Some Demo.video /\
  s3_objects w' = s3_objects w /\
  fst (extract_audio_ffmpeg Demo.ffmpeg "/tmp/in.mp4" 16000 w) = Ok "/tmp/tmp0.wav" /\
  local_files w' !! "/tmp/tmp0.wav" = Some Demo.wav.
Proof.
  apply (extract_audio_keeps_the_video Demo.ffmpeg "/tmp/in.mp4" 16000
           (with_local_file "/tmp/in.mp4" Demo.video Demo.world) Demo.video).
  - vm_compute. reflexivity.
  - vm_compute. reflexivity.
Defined.

(** ** The job, from start to return *)

Lemma start_transcription_job_trace name uri lang bucket key w :
  trace (snd (start_transcription_job name uri lang bucket key w))
    = trace w ++ [EvStartJob name uri lang bucket key] /\
  s3_objects (snd (start_transcription_job name uri lang bucket key w)) = s3_objects w.
Proof.
  unfold start_transcription_job, bind, emit, modify, get_world, raise. cbn.
  destruct (start_fault w); [now split|]. destruct (jobs w !! name); now split.
Qed.

(** When the loop returns, it returns a terminal answer, and that
    answer is the last event. *)
Lemma wait_for_job_returns_last fuel name :
  forall w st w',
    wait_for_job fuel name w = (Ok st, w') ->
    terminal (TranscriptionJobStatus st) = true /\
    exists pre, trace w' = trace w ++ pre ++ [EvGetJob name (PollOk st)].
Proof.
  induction fuel as [|fuel IH]; intros w st w' Run; [discriminate|].
  cbn [wait_for_job] in Run. unfold bind at 1 in Run.
  rewrite get_transcription_job_cases in Run.
  destruct (jobs w !! name) as [out|]; [|discriminate].
  cbv zeta in Run. destruct (poll_script w (polls_done w)) as [r|e]; [|discriminate].
  destruct (terminal (TranscriptionJobStatus r)) eqn:T.
  - injection Run as <- <-. split; [exact T|]. exists [].
    destruct (String.eqb _ _); reflexivity.
  - unfold bind, print, time_sleep, emit, modify in Run. cbn in Run.
    apply IH in Run as (Ht & pre & E). split; [exact Ht|].
    exists ([EvGetJob name (PollOk r);
             EvPrint "⏳ Waiting for transcription to finish...";
             EvSleep 10] ++ pre).
    rewrite E. destruct (String.eqb _ _); cbn; now rewrite <- !app_assoc.
Qed.

Lemma terminal_not_failed status :
  terminal status = true -> String.eqb status "FAILED" = false -> status = "COMPLETED".
Proof.
  unfold terminal. cbn. intros H F. rewrite F in H. rewrite !orb_false_r in H.
  now apply String.eqb_eq.
Qed.

Lemma run_transcription_job_ok_inv fuel name uri bucket lang w key w' :
  run_transcription_job fuel name uri bucket lang w = (Ok key, w') ->
  key = output_key_of name /\
  jobs w' !! name = Some (bucket, key) /\
  exists mid r,
    TranscriptionJobStatus r = "COMPLETED" /\
    trace w' = trace w ++ EvStartJob name uri lang bucket key :: mid
                       ++ [EvGetJob name (PollOk r)].
Proof.
  unfold run_transcription_job. cbv zeta. unfold bind at 1.
  destruct (start_transcription_job_trace name uri lang bucket (output_key_of name) w)
    as [Ht _].
  destruct (start_transcription_job _ _ _ _ _ w) as [[[]|e|] w1] eqn:Hs; try discriminate.
  cbn [snd] in Ht. apply start_registers_job in Hs as (Hj & _ & _).
  unfold bind. destruct (wait_for_job fuel name w1) as [[st|e|] w2] eqn:Hw; try discriminate.
  destruct (String.eqb (TranscriptionJobStatus st) "FAILED") eqn:F; [discriminate|].
  intros [= <- <-]. split; [reflexivity|].
  assert (Hjobs : jobs w2 = jobs w1).
  { clear - Hw. revert w1 Hw. induction fuel as [|fuel IH]; intros w1 Hw; [discriminate|].
    cbn [wait_for_job] in Hw. unfold bind at 1 in Hw.
    rewrite get_transcription_job_cases in Hw.
    destruct (jobs w1 !! name) as [out|]; [|discriminate].
    cbv zeta in Hw. destruct (poll_script w1 (polls_done w1)) as [r|e]; [|discriminate].
    destruct (terminal (TranscriptionJobStatus r)).
    - injection Hw as _ <-. now destruct (String.eqb _ _).
    - unfold bind, print, time_sleep, emit, modify in Hw. cbn in Hw.
      apply IH in Hw. rewrite Hw. now destruct (String.eqb _ _). }
  split; [now rewrite Hjobs|].
  apply wait_for_job_returns_last in Hw as (T & pre & E).
  exists pre, st. split; [now apply terminal_not_failed|].
  rewrite E, Ht. now rewrite <- app_assoc.
Qed.

(** X12. [run_transcription_job] returns only for a completed job: when
    it returns, the value is transcription/<job name>.json, the first
    event of the call is the start of the job with that output key, the
    last event is a status request answered COMPLETED, and the job is
    registered with the bucket and that key. *)
Theorem job_returns_only_when_completed fuel name uri bucket lang w key w' :
  run_transcription_job fuel name uri bucket lang w = (Ok key, w') ->
  key = output_key_of name /\
  jobs w' !! name = Some (bucket, key) /\
  exists mid r,
    TranscriptionJobStatus r = "COMPLETED" /\
    trace w' = trace w ++ EvStartJob name uri lang bucket key :: mid
                       ++ [EvGetJob name (PollOk r)].
Proof. exact (run_transcription_job_ok_inv fuel name uri bucket lang w key w'). Qed.

Lemma job_returns_only_when_completed_witness :
  "transcription/transcribe-team-sync-1700000000.json"
    = output_key_of "transcribe-team-sync-1700000000" /\
  jobs (snd (run_transcription_job 5 "transcribe-team-sync-1700000000"
               "s3://meeting-mind-library/audio/team-sync.wav" Demo.bucket "en-US"
               Demo.world))
    !! "transcribe-team-sync-1700000000"
    = Some (Demo.bucket, "transcription/transcribe-team-sync-1700000000.json") /\
  exists mid r,
    TranscriptionJobStatus r = "COMPLETED" /\
    trace (snd (run_transcription_job 5 "transcribe-team-sync-1700000000"
                  "s3://meeting-mind-library/audio/team-sync.wav" Demo.bucket "en-US"
                  Demo.world))
    = trace Demo.world ++
        EvStartJob "transcribe-team-sync-1700000000"
          "s3://meeting-mind-library/audio/team-sync.wav" "en-US" Demo.bucket
          "transcription/transcribe-team-sync-1700000000.json" :: mid
        ++ [EvGetJob "transcribe-team-sync-1700000000" (PollOk r)].
Proof.
  apply (job_returns_only_when_completed 5 "transcribe-team-sync-1700000000"
           "s3://meeting-mind-library/audio/team-sync.wav" Demo.bucket "en-US" Demo.world).
  vm_compute. reflexivity.
Defined.

(** ** The order of the stages *)

Lemma split_after_prefix (P : event -> Prop) (l1 l2 pre post : list event) e :
  l1 ++ l2 = pre ++ e :: post -> Forall (fun x => ~ P x) l1 -> P e ->
  exists pre2, pre = l1 ++ pre2 /\ l2 = pre2 ++ e :: post.
Proof.
  revert pre. induction l1 as [|x l1 IH]; intros pre E F He.
  - now exists pre.
  - inversion F as [|? ? Hx F']; subst. destruct pre as [|y pre].
    + injection E as -> _. contradiction.
    + injection E as -> E. destruct (IH pre E F' He) as (pre2 & -> & ->).
      now exists pre2.
Qed.

(** Stages without a put, in front. *)
Lemma put_follows_quiet_bind {A B} (c : M A) (k : A -> M B) :
  preserves (only_events (fun e => ~ is_put e)) c ->
  (forall a, emits (k a) (fun _ evs => put_follows_completed evs)) ->
  emits (bind c k) (fun _ evs => put_follows_completed evs).
Proof.
  intros Hc Hk w. unfold bind. destruct (Hc w) as (evs1 & E1 & F1).
  destruct (c w) as [[a|e|] w1]; cbn in E1 |- *.
  - destruct (Hk a w1) as (evs2 & E2 & Q2). exists (evs1 ++ evs2).
    split; [rewrite E2, E1; now rewrite <- app_assoc|].
    intros pre e post E He.
    destruct (split_after_prefix is_put _ _ _ _ _ E F1 He) as (pre2 & -> & E').
    apply Exists_app. right. now apply (Q2 pre2 e post).
  - exists evs1. split; [exact E1|]. intros pre e' post -> He.
    apply Forall_app in F1 as [_ F1]. inversion F1; contradiction.
  - exists evs1. split; [exact E1|]. intros pre e' post -> He.
    apply Forall_app in F1 as [_ F1]. inversion F1; contradiction.
Qed.

(** The job, then anything. *)
Lemma put_follows_job_bind {A B} (c : M A) (k : A -> M B) :
  preserves (only_events (fun e => ~ is_put e)) c ->
  (forall w a w', c w = (Ok a, w') ->
     exists evs, trace w' = trace w ++ evs /\ Exists (is_poll_with "COMPLETED") evs) ->
  (forall a, preserves (only_events (fun _ => True)) (k a)) ->
  emits (bind c k) (fun _ evs => put_follows_completed evs).
Proof.
  intros Hc Hdone Hk w. unfold bind. destruct (Hc w) as (evs1 & E1 & F1).
  destruct (c w) as [[a|e|] w1] eqn:Hrun; cbn in E1 |- *.
  - destruct (Hk a w1) as (evs2 & E2 & _). exists (evs1 ++ evs2).
    split; [rewrite E2, E1; now rewrite <- app_assoc|].
    intros pre e post E He.
    destruct (split_after_prefix is_put _ _ _ _ _ E F1 He) as (pre2 & -> & _).
    apply Exists_app. left.
    destruct (Hdone w a w1 Hrun) as (evs & E' & X).
    rewrite E1 in E'. apply app_inv_head in E'. now subst evs.
  - exists evs1. split; [exact E1|]. intros pre e' post -> He.
    apply Forall_app in F1 as [_ F1]. inversion F1; contradiction.
  - exists evs1. split; [exact E1|]. intros pre e' post -> He.
    apply Forall_app in F1 as [_ F1]. inversion F1; contradiction.
Qed.

Ltac no_put_stage := only_events; exact id.

Lemma transcribe_put_follows_completed ffmpeg json_loads fuel uri rg rate lang :
  emits (transcribe_s3_video_with_cache ffmpeg json_loads fuel uri rg rate lang)
    (fun _ evs => put_follows_completed evs).
Proof.
  unfold transcribe_s3_video_with_cache.
  apply put_follows_quiet_bind; [no_put_stage|]. intros [bucket key]. cbv zeta.
  apply put_follows_quiet_bind; [no_put_stage|]. intros [is_cached cached_transcript].
  destruct is_cached.
  { apply put_follows_quiet_bind; [no_put_stage|]. intros _.
    apply emits_ret. intros [|? ?] ? ? [=]. }
  do 8 (apply put_follows_quiet_bind; [no_put_stage|]; intros ?).
  apply put_follows_job_bind.
  - apply run_transcription_job_only_events; first [exact id | intros ?; exact id].
  - intros w key' w' Hrun.
    apply run_transcription_job_ok_inv in Hrun as (_ & _ & mid & r & Hr & ->).
    eexists. split; [reflexivity|].
    apply Exists_cons_tl, Exists_app. right. now constructor.
  - intros output_json_key. only_events; exact I.
Qed.

(** X13. Nothing is cached before the job has completed: in every run
    of [transcribe_s3_video_with_cache], whatever its outcome, every
    [put_object] comes after a status request that was answered
    COMPLETED. *)
Theorem put_only_after_completed
    ffmpeg json_loads fuel uri rg rate lang w pre e post :
  trace (snd (transcribe_s3_video_with_cache ffmpeg json_loads fuel uri rg rate lang w))
    = trace w ++ pre ++ e :: post ->
  is_put e ->
  Exists (is_poll_with "COMPLETED") pre.
Proof.
  intros Ht He.
  destruct (transcribe_put_follows_completed ffmpeg json_loads fuel uri rg rate lang w)
    as (evs & E & Q).
  rewrite Ht in E. apply app_inv_head in E. now apply (Q pre e post).
Qed.

Lemma put_only_after_completed_witness :
  Exists (is_poll_with "COMPLETED") (firstn 22 (trace Demo.world_after_run)).
Proof.
  apply (put_only_after_completed Demo.ffmpeg Demo.json_loads 5 Demo.uri
           "us-west-2" 16000 "en-US" Demo.world
           (firstn 22 (trace Demo.world_after_run))
           (EvPutObject Demo.bucket "transcription/team-sync.txt" Demo.text) []).
  - vm_compute. reflexivity.
  - exact I.
Defined.

(** ** What a run writes *)

#[global] Instance unchanged_at_preorder x : PreOrder (unchanged_at x).
Proof.
  split; [now intros w | intros w1 w2 w3 H1 H2; unfold unchanged_at in *; congruence].
Qed.

#[global] Instance keeps_objects_preorder : PreOrder keeps_objects.
Proof. split; [now intros w x | intros w1 w2 w3 H1 H2 x H; auto]. Qed.

Lemma unchanged_modify x (f : World -> World) :
  (forall w, s3_objects (f w) = s3_objects w) -> preserves (unchanged_at x) (modify f).
Proof. intros H w. unfold unchanged_at. cbn. now rewrite H. Qed.

Lemma unchanged_insert x y body :
  x <> y -> preserves (unchanged_at x) (modify (set_s3_objects (insert y body))).
Proof. intros H w. unfold unchanged_at. cbn. now apply lookup_insert_ne. Qed.

Lemma unchanged_s3_api x : preserves (unchanged_at x) s3_api.
Proof. now intros w. Qed.

Lemma keeps_objects_modify (f : World -> World) :
  (forall w x, is_Some (s3_objects w !! x) -> is_Some (s3_objects (f w) !! x)) ->
  preserves keeps_objects (modify f).
Proof. intros H w x. apply H. Qed.

Lemma keeps_objects_s3_api : preserves keeps_objects s3_api.
Proof. now intros w x. Qed.

Ltac unchanged_base :=
  idtac;
  lazymatch goal with
  | |- preserves _ (emit _) => apply unchanged_modify; intros; reflexivity
  | |- preserves _ (print _) => apply unchanged_modify; intros; reflexivity
  | |- preserves _ (modify (set_s3_objects (insert _ _))) =>
      apply unchanged_insert; assumption
  | |- preserves _ (modify _) => apply unchanged_modify; intros; reflexivity
  | |- preserves _ s3_api => apply unchanged_s3_api
  | |- preserves _ (NamedTemporaryFile _) => unfold NamedTemporaryFile
  | |- preserves _ (s3_upload_file _ _ _) => unfold s3_upload_file
  | |- preserves _ (s3_put_object _ _ _) => unfold s3_put_object
  end.

Ltac unchanged := repeat preserves_step unchanged_base.

Ltac keeps_objects_base :=
  idtac;
  lazymatch goal with
  | |- preserves _ (emit _) => apply keeps_objects_modify; intros; assumption
  | |- preserves _ (print _) => apply keeps_objects_modify; intros; assumption
  | |- preserves _ (modify _) =>
      apply keeps_objects_modify;
      intros ? ? ?; cbn; try (apply lookup_insert_is_Some'; right); assumption
  | |- preserves _ s3_api => apply keeps_objects_s3_api
  | |- preserves _ (NamedTemporaryFile _) => unfold NamedTemporaryFile
  | |- preserves _ (s3_upload_file _ _ _) => unfold s3_upload_file
  | |- preserves _ (s3_put_object _ _ _) => unfold s3_put_object
  | |- preserves _ (get_transcription_job _) => unfold get_transcription_job
  end.

Ltac keeps_objects := repeat preserves_step keeps_objects_base.

(** The loop writes the output of its job and nothing else. *)
Lemma wait_for_job_unchanged x name out fuel :
  forall w, jobs w !! name = Some out -> x <> out ->
    unchanged_at x w (snd (wait_for_job fuel name w)).
Proof.
  induction fuel as [|fuel IH]; intros w Hj Hx; [reflexivity|].
  destruct (poll_script w (polls_done w)) as [r|e] eqn:Hr.
  2:{ cbn [wait_for_job]. unfold bind at 1. rewrite get_transcription_job_cases, Hj.
      cbv zeta. rewrite Hr. reflexivity. }
  destruct (terminal (TranscriptionJobStatus r)) eqn:T.
  - cbn [wait_for_job]. unfold bind at 1. rewrite get_transcription_job_cases, Hj.
    cbv zeta. rewrite Hr, T. unfold unchanged_at.
    destruct (String.eqb _ _); cbn; [|reflexivity].
    apply lookup_insert_ne. congruence.
  - rewrite (wait_for_job_in_vain _ _ _ _ _ Hj Hr T).
    unfold unchanged_at. now rewrite (IH (wait_once name w) Hj Hx).
Qed.

Lemma run_transcription_job_unchanged x fuel name uri bucket lang :
  x <> (bucket, output_key_of name) ->
  preserves (unchanged_at x) (run_transcription_job fuel name uri bucket lang).
Proof.
  intros Hx w. unfold run_transcription_job. cbv zeta. unfold bind at 1.
  destruct (start_transcription_job_trace name uri lang bucket (output_key_of name) w)
    as [_ Hs].
  destruct (start_transcription_job _ _ _ _ _ w) as [[[]|e|] w1] eqn:Hstart;
    cbn [snd] in Hs |- *; try solve [unfold unchanged_at; now rewrite Hs].
  apply start_registers_job in Hstart as (Hj & _ & _).
  assert (Hw := wait_for_job_unchanged x name _ fuel w1 Hj Hx).
  unfold bind. destruct (wait_for_job fuel name w1) as [[st|e|] w2]; cbn [snd] in Hw |- *.
  - destruct (String.eqb _ _); cbn; unfold unchanged_at in *; congruence.
  - unfold unchanged_at in *; congruence.
  - unfold unchanged_at in *; congruence.
Qed.

Lemma wait_for_job_keeps_objects fuel name :
  preserves keeps_objects (wait_for_job fuel name).
Proof.
  induction fuel as [|fuel IH]; cbn [wait_for_job]; [keeps_objects|].
  apply preserves_bind; [apply _ | keeps_objects |].
  intros status. destruct (terminal _); [keeps_objects|].
  apply preserves_bind; [apply _ | keeps_objects |]. intros _.
  apply preserves_bind; [apply _ | keeps_objects |]. intros _.
  exact IH.
Qed.

Lemma transcribe_keeps_objects ffmpeg json_loads fuel uri rg rate lang :
  preserves keeps_objects
    (transcribe_s3_video_with_cache ffmpeg json_loads fuel uri rg rate lang).
Proof.
  unfold transcribe_s3_video_with_cache.
  apply preserves_bind; [apply _ | keeps_objects |]. intros [bucket key]. cbv zeta.
  apply preserves_bind; [apply _ | keeps_objects |].
  intros [is_cached cached_transcript]. destruct is_cached; [keeps_objects|].
  do 8 (apply preserves_bind; [apply _ | keeps_objects |]; intros ?).
  apply preserves_bind; [apply _ | | intros ?; keeps_objects].
  unfold run_transcription_job. cbv zeta.
  apply preserves_bind; [apply _ | keeps_objects |]. intros _.
  apply preserves_bind; [apply _ | apply wait_for_job_keeps_objects |].
  intros status. keeps_objects.
Qed.

Lemma transcribe_unchanged ffmpeg json_loads fuel uri rg rate lang w0 b k x :
  fst (parse_s3_uri uri w0) = Ok (b, k) ->
  x <> (b, audio_key_of (video_name_of k)) ->
  x <> (b, transcript_key_of (video_name_of k)) ->
  (forall now, x <> (b, output_key_of (job_name_of (video_name_of k) now))) ->
  preserves (unchanged_at x)
    (transcribe_s3_video_with_cache ffmpeg json_loads fuel uri rg rate lang).
Proof.
  intros Hp Ha Ht Ho. unfold transcribe_s3_video_with_cache.
  apply preserves_bind_returns; [apply _ | unchanged |].
  intros p Hret. rewrite (parse_s3_uri_returns _ _ _ _ _ Hp Hret). cbv zeta.
  apply preserves_bind; [apply _ | unchanged |].
  intros [is_cached cached_transcript]. destruct is_cached; [unchanged|].
  do 8 (apply preserves_bind; [apply _ | unchanged |]; intros ?).
  apply preserves_bind; [apply _ | now apply run_transcription_job_unchanged |].
  intros output_json_key. unchanged.
Qed.

(** X14. What a run may write.  In every run of
    [transcribe_s3_video_with_cache], whatever its outcome, no object of
    the store disappears, and every object other than the audio object,
    the transcript object and the output object of the job of this
    video (all three in the bucket of the video) is after the run what
    it was before. *)
Theorem run_writes_only_its_three_objects
    ffmpeg json_loads fuel uri rg rate lang w b k :
  fst (parse_s3_uri uri w) = Ok (b, k) ->
  let w' := snd (transcribe_s3_video_with_cache ffmpeg json_loads fuel uri rg rate lang w) in
  keeps_objects w w' /\
  forall x,
    x <> (b, audio_key_of (video_name_of k)) ->
    x <> (b, transcript_key_of (video_name_of k)) ->
    (forall now, x <> (b, output_key_of (job_name_of (video_name_of k) now))) ->
    s3_objects w' !! x = s3_objects w !! x.
Proof.
  intros Hp w'. split; [apply transcribe_keeps_objects|].
  intros x Ha Ht Ho.
  now apply (transcribe_unchanged ffmpeg json_loads fuel uri rg rate lang w b k x).
Qed.

Lemma run_writes_only_its_three_objects_witness :
  keeps_objects Demo.world Demo.world_after_run /\
  forall x,
    x <> (Demo.bucket, audio_key_of (video_name_of Demo.video_key)) ->
    x <> (Demo.bucket, transcript_key_of (video_name_of Demo.video_key)) ->
    (forall now,
       x <> (Demo.bucket, output_key_of (job_name_of (video_name_of Demo.video_key) now))) ->
    s3_objects Demo.world_after_run !! x = s3_objects Demo.world !! x.
Proof.
  apply (run_writes_only_its_three_objects Demo.ffmpeg Demo.json_loads 5 Demo.uri
           "us-west-2" 16000 "en-US" Demo.world Demo.bucket Demo.video_key).
  reflexivity.
Defined.

(** X15. What a fresh transcription leaves in the cache: when the call
    returns (T, segments, False), the object under the transcript key
    of the video is T, and T is well-formed text. *)
Theorem fresh_return_is_what_is_cached
    ffmpeg json_loads fuel uri rg rate lang w b k text segments w' :
  fst (parse_s3_uri uri w) = Ok (b, k) ->
  transcribe_s3_video_with_cache ffmpeg json_loads fuel uri rg rate lang w
    = (Ok (text, segments, false), w') ->
  s3_objects w' !! (b, transcript_key_of (video_name_of k)) = Some text /\
  Utf8.valid text = true.
Proof.
  intros Hp Hrun.
  exact (transcribe_stores_transcript _ _ _ _ _ _ _ _ _ _ Hp _ _ _ Hrun eq_refl).
Qed.

Lemma fresh_return_is_what_is_cached_witness :
  s3_objects Demo.world_after_run
    !! (Demo.bucket, transcript_key_of (video_name_of Demo.video_key)) = Some Demo.text /\
  Utf8.valid Demo.text = true.
Proof.
  apply (fresh_return_is_what_is_cached Demo.ffmpeg Demo.json_loads 5 Demo.uri
           "us-west-2" 16000 "en-US" Demo.world Demo.bucket Demo.video_key Demo.text
           ["Hello world"; "This is a test."] Demo.world_after_run).
  - reflexivity.
  - vm_compute. reflexivity.
Defined.

(** X16. The flag tells the truth: when the call returns
    (T, segments, True), T was in the store under the transcript key of
    the video before the call, and the call has changed neither the
    store nor the local files; all it did is the lookup and one print. *)
Theorem cached_flag_means_nothing_ran
    ffmpeg json_loads fuel uri rg rate lang w b k text segments w' :
  fst (parse_s3_uri uri w) = Ok (b, k) ->
  transcribe_s3_video_with_cache ffmpeg json_loads fuel uri rg rate lang w
    = (Ok (text, segments, true), w') ->
  s3_objects w !! (b, transcript_key_of (video_name_of k)) = Some text /\
  s3_objects w' = s3_objects w /\ local_files w' = local_files w /\
  trace w' = trace w ++
    [EvHeadObject b (transcript_key_of (video_name_of k));
     EvGetObject b (transcript_key_of (video_name_of k));
     EvPrint "✅ Using cached transcript"].
Proof.
  intros Hp Hrun. assert (Hrun' := Hrun).
  rewrite (transcribe_after_parse _ _ _ _ _ _ _ _ _ _ Hp) in Hrun.
  unfold bind at 1, ret at 1 in Hrun. cbv zeta in Hrun. unfold bind at 1 in Hrun.
  destruct (check_cache b (transcript_key_of (video_name_of k)) rg w)
    as [[[is_cached cached]|e|] w1] eqn:Hc; try discriminate.
  destruct is_cached.
  - assert (cached = text) as ->.
    { unfold bind, print, emit, modify, ret in Hrun. cbn in Hrun. now injection Hrun. }
    rewrite (transcribe_on_hit _ _ _ _ _ _ _ _ _ _ _ _ Hp Hc) in Hrun'.
    injection Hrun' as _ <-.
    apply check_cache_hit_inv in Hc as (Hs & _ & ->). cbn.
    rewrite <- !app_assoc. auto.
  - exfalso.
    match type of Hrun with
    | ?c w1 = _ =>
        assert (F : ok_only c (fun '(_, _, flag) _ => flag = false))
          by (ok_only; reflexivity)
    end.
    specialize (F _ _ _ Hrun). discriminate.
Qed.

Lemma cached_flag_means_nothing_ran_witness :
  let w' := snd (Demo.transcribe 0 Demo.uri Demo.world_after_run) in
  s3_objects Demo.world_after_run
    !! (Demo.bucket, transcript_key_of (video_name_of Demo.video_key)) = Some Demo.text /\
  s3_objects w' = s3_objects Demo.world_after_run /\
  local_files w' = local_files Demo.world_after_run /\
  trace w' = trace Demo.world_after_run ++
    [EvHeadObject Demo.bucket (transcript_key_of (video_name_of Demo.video_key));
     EvGetObject Demo.bucket (transcript_key_of (video_name_of Demo.video_key));
     EvPrint "✅ Using cached transcript"].
Proof.
  apply (cached_flag_means_nothing_ran Demo.ffmpeg Demo.json_loads 0 Demo.uri
           "us-west-2" 16000 "en-US" Demo.world_after_run Demo.bucket Demo.video_key
           Demo.text (Py.split Demo.text ". ")).
  - reflexivity.
  - vm_compute. reflexivity.
Defined.

(** ** The stages in order *)

Lemma strongly_sorted_app (l1 l2 : list event) :
  StronglySorted before l1 -> StronglySorted before l2 ->
  (forall x y, In x l1 -> In y l2 -> before x y) ->
  StronglySorted before (l1 ++ l2).
Proof.
  intros S1 S2 H. induction S1 as [|x l1 S1 IH F]; [exact S2|].
  cbn. constructor.
  - apply IH. intros a b Ha Hb. apply H; [now right | exact Hb].
  - apply Forall_app. split; [exact F|].
    apply Forall_forall. intros y Hy. rewrite list_elem_of_In in Hy.
    apply H; [now left | exact Hy].
Qed.

Lemma staged_weaken lo hi lo' hi' w w' :
  lo' <= lo -> hi <= hi' -> staged lo hi w w' -> staged lo' hi' w w'.
Proof.
  intros Hl Hh (evs & E & F & S). exists evs. split; [exact E|]. split; [|exact S].
  eapply Forall_impl; [exact F|]. intros e He i Hi. specialize (He i Hi). lia.
Qed.

Lemma staged_refl lo hi w : staged lo hi w w.
Proof. exists []. rewrite app_nil_r. repeat split; constructor. Qed.

Lemma staged_trans lo mid mid' hi w1 w2 w3 :
  mid < mid' \/ (mid = mid' /\ mid = 6) ->
  staged lo mid w1 w2 -> staged mid' hi w2 w3 ->
  staged (Nat.min lo mid') (Nat.max mid hi) w1 w3.
Proof.
  intros Hm (e1 & E1 & F1 & S1) (e2 & E2 & F2 & S2). exists (e1 ++ e2).
  split; [rewrite E2, E1; now rewrite <- app_assoc|]. split.
  - apply Forall_app. split.
    + eapply Forall_impl; [exact F1|]. intros e He i Hi. specialize (He i Hi). lia.
    + eapply Forall_impl; [exact F2|]. intros e He i Hi. specialize (He i Hi). lia.
  - apply strongly_sorted_app; [exact S1 | exact S2|].
    intros x y Hx Hy i j Hi Hj.
    rewrite Forall_forall in F1, F2.
    rewrite <- list_elem_of_In in Hx, Hy.
    specialize (F1 x Hx i Hi). specialize (F2 y Hy j Hj). lia.
Qed.

#[global] Instance staged_polls_preorder : PreOrder (staged 6 6).
Proof.
  split; [intros w; apply staged_refl|].
  intros w1 w2 w3 H1 H2.
  apply (staged_weaken (Nat.min 6 6) (Nat.max 6 6)); [reflexivity | reflexivity|].
  apply (staged_trans 6 6 6 6 w1 w2 w3); auto.
Qed.

Lemma silent_sorted (evs : list event) :
  Forall (fun e => stage e = None) evs -> StronglySorted before evs.
Proof.
  induction 1 as [|e evs He F IH]; constructor; [exact IH|].
  apply Forall_forall. intros y _ i j Hi. congruence.
Qed.

Lemma silent_in_stages lo hi (evs : list event) :
  Forall (fun e => stage e = None) evs -> Forall (in_stages lo hi) evs.
Proof. intros F. eapply Forall_impl; [exact F|]. intros e He i Hi. congruence. Qed.

(** A computation whose events carry no stage fits anywhere. *)
Lemma staged_silent lo hi {A} (c : M A) :
  preserves (only_events (fun e => stage e = None)) c -> preserves (staged lo hi) c.
Proof.
  intros H w. destruct (H w) as (evs & E & F). exists evs. split; [exact E|].
  split; [now apply silent_in_stages | now apply silent_sorted].
Qed.

Lemma staged_one lo hi e w w' :
  in_stages lo hi e -> trace w' = trace w ++ [e] -> staged lo hi w w'.
Proof.
  intros He E. exists [e]. split; [exact E|].
  split; [constructor; [exact He | constructor] | repeat constructor].
Qed.

Lemma staged_bind lo mid mid' hi {A B} (c : M A) (k : A -> M B) :
  mid < mid' \/ (mid = mid' /\ mid = 6) -> lo <= mid' -> mid <= hi ->
  preserves (staged lo mid) c -> (forall a, preserves (staged mid' hi) (k a)) ->
  preserves (staged lo hi) (bind c k).
Proof.
  intros Hm Hl Hh Hc Hk w. unfold bind. specialize (Hc w).
  destruct (c w) as [[a|e|] w1]; cbn [snd] in Hc |- *.
  - apply (staged_weaken (Nat.min lo mid') (Nat.max mid hi)); [lia | lia|].
    apply (staged_trans lo mid mid' hi w w1); [exact Hm | exact Hc | apply Hk].
  - apply (staged_weaken lo mid); [lia | lia | exact Hc].
  - apply (staged_weaken lo mid); [lia | lia | exact Hc].
Qed.

(** Silent stages in front of a staged computation. *)
Lemma staged_after_silent lo hi {A B} (c : M A) (k : A -> M B) :
  preserves (only_events (fun e => stage e = None)) c ->
  (forall a, preserves (staged lo hi) (k a)) ->
  preserves (staged lo hi) (bind c k).
Proof.
  intros Hc Hk w. unfold bind. destruct (Hc w) as (e1 & E1 & N1).
  destruct (c w) as [[a|e|] w1]; cbn [snd] in E1 |- *.
  - destruct (Hk a w1) as (e2 & E2 & F2 & S2).
    exists (e1 ++ e2). split; [rewrite E2, E1; now rewrite <- app_assoc|]. split.
    + apply Forall_app. split; [now apply silent_in_stages | exact F2].
    + apply strongly_sorted_app; [now apply silent_sorted | exact S2|].
      intros x y Hx _ i j Hi. rewrite Forall_forall in N1.
      rewrite <- list_elem_of_In in Hx. rewrite (N1 x Hx) in Hi. discriminate.
  - exists e1. split; [exact E1|].
    split; [now apply silent_in_stages | now apply silent_sorted].
  - exists e1. split; [exact E1|].
    split; [now apply silent_in_stages | now apply silent_sorted].
Qed.

Ltac silent := only_events; reflexivity.

(** Silent stages behind a staged computation. *)
Lemma staged_before_silent lo hi {A B} (c : M A) (k : A -> M B) :
  preserves (staged lo hi) c ->
  (forall a, preserves (only_events (fun e => stage e = None)) (k a)) ->
  preserves (staged lo hi) (bind c k).
Proof.
  intros Hc Hk w. unfold bind. specialize (Hc w).
  destruct (c w) as [[a|e|] w1]; cbn [snd] in Hc |- *; try exact Hc.
  destruct Hc as (e1 & E1 & F1 & S1). destruct (Hk a w1) as (e2 & E2 & N2).
  exists (e1 ++ e2). split; [rewrite E2, E1; now rewrite <- app_assoc|]. split.
  - apply Forall_app. split; [exact F1 | now apply silent_in_stages].
  - apply strongly_sorted_app; [exact S1 | now apply silent_sorted|].
    intros x y _ Hy i j _ Hj. rewrite Forall_forall in N2.
    rewrite <- list_elem_of_In in Hy. rewrite (N2 y Hy) in Hj. discriminate.
Qed.

Ltac one_event_by tac :=
  lazymatch goal with
  | |- staged ?lo ?hi ?w ?w' =>
      let E := fresh "E" in
      eassert (E : trace w' = trace w ++ [_]) by tac;
      refine (staged_one lo hi _ w w' _ E); cbn; intros ? [= <-]; lia
  end.

Ltac one_event E := one_event_by ltac:(idtac; apply E).

Lemma check_cache_staged b k rg : preserves (staged 1 2) (check_cache b k rg).
Proof.
  intros w. destruct (check_cache_effects b k rg w) as (_ & [E|E] & _).
  - one_event (E).
  - eexists. split; [exact E|]. split.
    + repeat (constructor; [intros ? [= <-]; lia|]). constructor.
    + apply SSorted_cons;
        [apply SSorted_cons; [apply SSorted_nil | apply Forall_nil_2]
        |apply Forall_cons_2; [|apply Forall_nil_2]].
      intros ? ? [= <-] [= <-]. lia.
Qed.

Lemma subprocess_run_ffmpeg_trace ffmpeg video_path rate wav_path w :
  trace (snd (subprocess_run_ffmpeg ffmpeg video_path rate wav_path w))
    = trace w ++ [EvFfmpeg video_path rate wav_path].
Proof.
  unfold subprocess_run_ffmpeg, bind, emit, modify, get_world, raise. cbn.
  destruct (local_files w !! video_path) as [video|]; [|reflexivity].
  destruct (ffmpeg video rate); [reflexivity|].
  destruct (ffmpeg_leftover w); reflexivity.
Qed.

Lemma extract_audio_ffmpeg_staged ffmpeg video_path rate :
  preserves (staged 3 3) (extract_audio_ffmpeg ffmpeg video_path rate).
Proof.
  unfold extract_audio_ffmpeg. apply staged_after_silent; [silent|]. intros tmp_wav.
  apply staged_before_silent; [|intros _; silent].
  intros w. one_event subprocess_run_ffmpeg_trace.
Qed.

Lemma s3_upload_file_trace path b k w :
  trace (snd (s3_upload_file path b k w)) = trace w ++ [EvUploadFile path b k].
Proof.
  unfold s3_upload_file, bind, emit, modify, s3_api, get_world, raise. cbn.
  destruct (hd None (s3_faults w)); [reflexivity|]. cbn.
  destruct (local_files w !! path); reflexivity.
Qed.

Lemma upload_to_s3_staged path b k rg : preserves (staged 4 4) (upload_to_s3 path b k rg).
Proof.
  unfold upload_to_s3. apply staged_before_silent; [|intros _; silent].
  intros w. one_event s3_upload_file_trace.
Qed.

Lemma get_transcription_job_staged name : preserves (staged 6 6) (get_transcription_job name).
Proof.
  intros w. rewrite get_transcription_job_cases.
  destruct (jobs w !! name) as [out|];
    [|one_event_by ltac:(idtac; reflexivity)].
  cbv zeta. destruct (poll_script w (polls_done w)) as [r|e];
    [|one_event_by ltac:(idtac; reflexivity)].
  one_event_by ltac:(idtac; cbn; destruct (String.eqb _ _); reflexivity).
Qed.

Lemma wait_for_job_staged fuel name : preserves (staged 6 6) (wait_for_job fuel name).
Proof.
  induction fuel as [|fuel IH]; cbn [wait_for_job]; [apply staged_silent; silent|].
  apply preserves_bind; [apply _ | apply get_transcription_job_staged |].
  intros status. destruct (terminal _); [apply staged_silent; silent|].
  apply staged_after_silent; [silent|]. intros _.
  apply staged_after_silent; [silent|]. intros _. exact IH.
Qed.

Lemma run_transcription_job_staged fuel name uri bucket lang :
  preserves (staged 5 6) (run_transcription_job fuel name uri bucket lang).
Proof.
  unfold run_transcription_job. cbv zeta.
  apply (staged_bind 5 5 6 6); [lia | lia | lia | |].
  - intros w. one_event start_transcription_job_trace.
  - intros _. apply staged_before_silent; [apply wait_for_job_staged|].
    intros status. silent.
Qed.

Lemma save_transcript_cache_staged b k transcript rg :
  preserves (staged 7 7) (save_transcript_cache b k transcript rg).
Proof.
  unfold save_transcript_cache, s3_put_object.
  destruct transcript as [| | |body| |]; try (apply staged_silent; silent).
  destruct (Utf8.valid body); [|apply staged_silent; silent].
  intros w.
  one_event_by ltac:(idtac; unfold bind, emit, modify, s3_api; cbn;
                     destruct (hd None (s3_faults w)); reflexivity).
Qed.

Lemma transcribe_staged ffmpeg json_loads fuel uri rg rate lang :
  preserves (staged 1 7)
    (transcribe_s3_video_with_cache ffmpeg json_loads fuel uri rg rate lang).
Proof.
  unfold transcribe_s3_video_with_cache.
  apply staged_after_silent; [silent|]. intros [bucket key]. cbv zeta.
  apply (staged_bind 1 2 3 7); [lia | lia | lia | apply check_cache_staged |].
  intros [is_cached cached_transcript].
  destruct is_cached; [apply staged_silent; silent|].
  apply staged_after_silent; [silent|]. intros _.
  apply staged_after_silent; [silent|]. intros tmp_video.
  apply staged_after_silent; [silent|]. intros _.
  apply (staged_bind 3 3 4 7); [lia | lia | lia | apply extract_audio_ffmpeg_staged |].
  intros wav_path.
  apply staged_after_silent; [silent|]. intros _.
  apply (staged_bind 4 4 5 7); [lia | lia | lia | apply upload_to_s3_staged |].
  intros s3_audio_uri.
  apply staged_after_silent; [silent|]. intros now.
  apply staged_after_silent; [silent|]. intros _.
  apply (staged_bind 5 6 7 7); [lia | lia | lia | apply run_transcription_job_staged |].
  intros output_json_key.
  do 7 (apply staged_after_silent; [silent|]; intros ?).
  apply staged_before_silent; [apply save_transcript_cache_staged|].
  intros _. silent.
Qed.

Lemma strongly_sorted_pair (pre mid post : list event) e e' :
  StronglySorted before (pre ++ e :: mid ++ e' :: post) -> before e e'.
Proof.
  induction pre as [|x pre IH]; cbn; intros S.
  - apply StronglySorted_inv in S as [_ F]. rewrite Forall_forall in F.
    apply F. apply list_elem_of_In, in_or_app. right. now left.
  - apply StronglySorted_inv in S as [S _]. now apply IH.
Qed.

(** X17. The stages of a run come in order and none is repeated: in
    every run of [transcribe_s3_video_with_cache], whatever its
    outcome, of any two staged events the later one belongs to a later
    stage (lookup head, lookup get, ffmpeg, upload of the audio, start
    of the job, put of the transcript), unless both are status
    requests of the job.  So the audio is extracted and uploaded at
    most once, one job at most is started and never started again, and
    the transcript is put at most once. *)
Theorem stages_come_in_order
    ffmpeg json_loads fuel uri rg rate lang w pre e mid e' post i j :
  trace (snd (transcribe_s3_video_with_cache ffmpeg json_loads fuel uri rg rate lang w))
    = trace w ++ pre ++ e :: mid ++ e' :: post ->
  stage e = Some i -> stage e' = Some j ->
  i < j \/ (i = j /\ i = 6).
Proof.
  intros Ht Hi Hj.
  destruct (transcribe_staged ffmpeg json_loads fuel uri rg rate lang w)
    as (evs & E & _ & S).
  rewrite Ht in E. apply app_inv_head in E. subst evs.
  exact (strongly_sorted_pair _ _ _ _ _ S i j Hi Hj).
Qed.

Lemma stages_come_in_order_witness : 4 < 7 \/ (4 = 7 /\ 4 = 6).
Proof.
  apply (stages_come_in_order Demo.ffmpeg Demo.json_loads 5 Demo.uri
           "us-west-2" 16000 "en-US" Demo.world
           (firstn 8 (trace Demo.world_after_run))
           (EvUploadFile "/tmp/tmp1.wav" Demo.bucket "audio/team-sync.wav")
           (firstn 13 (skipn 9 (trace Demo.world_after_run)))
           (EvPutObject Demo.bucket "transcription/team-sync.txt" Demo.text) []).
  - vm_compute. reflexivity.
  - reflexivity.
  - reflexivity.
Defined.

(** ** The audio object *)

Lemma bind_ok_inv {A B} (c : M A) (k : A -> M B) w r w' :
  bind c k w = (Ok r, w') -> exists a w1, c w = (Ok a, w1) /\ k a w1 = (Ok r, w').
Proof. unfold bind. destruct (c w) as [[a|e|] w1]; try discriminate. eauto. Qed.

Lemma print_inv line w a w' : print line w = (Ok a, w') -> w' = log [EvPrint line] w.
Proof. unfold print, emit, modify. now intros [= _ <-]. Qed.

Lemma pretty_N_go_no_dot x :
  forall s, has_char "." (pretty_N_go x s) = has_char "." s.
Proof.
  induction (N.lt_wf_0 x) as [x _ IH]. intros s.
  assert (x = 0 \/ 0 < x)%N as [->|Hx] by lia; [now rewrite pretty_N_go_0|].
  rewrite pretty_N_go_step by exact Hx.
  rewrite IH by (apply N.div_lt; lia).
  unfold has_char. cbn [list_ascii_of_string existsb].
  unfold pretty_N_char. now repeat case_match.
Qed.

Lemma pretty_nat_no_dot (n : nat) : has_char "." (pretty n) = false.
Proof.
  unfold pretty, pretty_nat, pretty, pretty_N.
  destruct (decide (N.of_nat n = 0%N)); [reflexivity|].
  now rewrite pretty_N_go_no_dot.
Qed.

Lemma append_before_dot (a a' e e' : string) :
  has_char "." a = false -> has_char "." a' = false ->
  (forall c r, e = String c r -> c = "."%char) ->
  (forall c r, e' = String c r -> c = "."%char) ->
  a +:+ e = a' +:+ e' -> a = a'.
Proof.
  revert a'. induction a as [|x a IH]; intros [|x' a'] Ha Ha' He He' E.
  - reflexivity.
  - rewrite append_nil_l, append_cons in E.
    apply has_char_cons in Ha' as [Hx _]. destruct Hx. symmetry. apply (He _ _ E).
  - rewrite append_nil_l, append_cons in E. symmetry in E.
    apply has_char_cons in Ha as [Hx _]. destruct Hx. symmetry. apply (He' _ _ E).
  - rewrite !append_cons in E. injection E as -> E.
    apply has_char_cons in Ha as [_ Ha]. apply has_char_cons in Ha' as [_ Ha'].
    f_equal. now apply IH.
Qed.

Lemma splitext_ext_starts_with_dot key c r :
  Py.splitext_ext key = String c r -> c = "."%char.
Proof.
  unfold Py.splitext_ext.
  destruct (Py.rsplit_max _ _ _) as [|stem [|ext [|]]]; try discriminate.
  destruct (Py.all_dots stem); [discriminate|].
  rewrite append_cons. now intros [= <- _].
Qed.

(** Two temporary files made one after the other have different names,
    whatever the extension of the first. *)
Lemma tmp_paths_differ n key :
  tmp_path (S n) ".wav" <> tmp_path n (Py.splitext_ext key).
Proof.
  unfold tmp_path. rewrite !append_cons, !append_nil_l. intros [= E].
  apply append_before_dot in E.
  - apply (inj pretty) in E. lia.
  - apply pretty_nat_no_dot.
  - apply pretty_nat_no_dot.
  - now intros c r [= <- _].
  - apply splitext_ext_starts_with_dot.
Qed.

(** X18. The audio object of a fresh run: when the call returns
    (T, segments, False), the video was in the store under the key of
    the reference, ffmpeg has converted it at the sample rate of the
    call, and what is in the store under "audio/<video name>.wav" after
    the call is that conversion, whatever was there before (a video
    whose own key is that audio key is replaced by its audio). *)
Theorem stored_audio_is_the_converted_video
    ffmpeg json_loads fuel uri rg rate lang w b k text segments w' :
  fst (parse_s3_uri uri w) = Ok (b, k) ->
  transcribe_s3_video_with_cache ffmpeg json_loads fuel uri rg rate lang w
    = (Ok (text, segments, false), w') ->
  exists video wav,
    s3_objects w !! (b, k) = Some video /\
    ffmpeg video rate = Some wav /\
    s3_objects w' !! (b, audio_key_of (video_name_of k)) = Some wav.
Proof.
  intros Hp Hrun.
  rewrite (transcribe_after_parse _ _ _ _ _ _ _ _ _ _ Hp) in Hrun.
  unfold bind at 1, ret at 1 in Hrun. cbv zeta in Hrun.
  apply bind_ok_inv in Hrun as ([hit cached] & w1 & Hc & Hrun).
  destruct (check_cache_effects b (transcript_key_of (video_name_of k)) rg w)
    as (_ & _ & Hs1 & _).
  rewrite Hc in Hs1. cbn [snd] in Hs1.
  destruct hit.
  { unfold bind, print, emit, modify, ret in Hrun. discriminate Hrun. }
  apply bind_ok_inv in Hrun as ([] & w2 & Hpr & Hrun). apply print_inv in Hpr. subst w2.
  apply bind_ok_inv in Hrun as (tmp_video & w3 & Hd & Hrun).
  rewrite download_from_s3_cases in Hd. cbv zeta in Hd. cbn in Hd.
  destruct (hd None (s3_faults w1)); [discriminate|].
  destruct (s3_objects w1 !! (b, k)) as [video|] eqn:Hv; [|discriminate].
  injection Hd as <- <-. rewrite Hs1 in Hv. exists video.
  apply bind_ok_inv in Hrun as ([] & w4 & Hpr & Hrun). apply print_inv in Hpr. subst w4.
  apply bind_ok_inv in Hrun as (wav_path & w5 & He & Hrun).
  rewrite extract_audio_ffmpeg_cases in He. cbv zeta in He. cbn in He.
  rewrite lookup_insert_ne in He by apply tmp_paths_differ.
  rewrite lookup_insert_eq in He.
  destruct (ffmpeg video rate) as [wav|]; [|discriminate].
  injection He as <- <-. exists wav.
  apply bind_ok_inv in Hrun as ([] & w6 & Hpr & Hrun). apply print_inv in Hpr. subst w6.
  apply bind_ok_inv in Hrun as (s3_audio_uri & w7 & Hu & Hrun).
  apply upload_to_s3_inv in Hu as (body & Hb & -> & ->).
  cbn in Hb. rewrite lookup_insert_eq in Hb. injection Hb as <-.
  split; [exact Hv|]. split; [reflexivity|].
  set (x := (b, audio_key_of (video_name_of k))) in *.
  assert (Ht : x <> (b, transcript_key_of (video_name_of k)))
    by (intros [= E]; exact (keys_differ _ E)).
  assert (Ho : forall name, x <> (b, output_key_of name)).
  { intros name E. apply (f_equal snd) in E. cbn [snd] in E.
    unfold audio_key_of, output_key_of in E.
    rewrite !append_cons in E. discriminate E. }
  match type of Hrun with
  | ?c ?w7 = _ =>
      assert (U : preserves (unchanged_at x) c);
      [|specialize (U w7); rewrite Hrun in U; cbn [snd] in U;
        unfold unchanged_at in U; rewrite U; cbn; apply lookup_insert_eq]
  end.
  do 2 (apply preserves_bind; [apply _ | unchanged |]; intros ?).
  apply preserves_bind; [apply _ | now apply run_transcription_job_unchanged |].
  intros output_json_key. unchanged.
Qed.

Lemma stored_audio_is_the_converted_video_witness :
  exists video wav,
    s3_objects Demo.world !! (Demo.bucket, Demo.video_key) = Some video /\
    Demo.ffmpeg video 16000 = Some wav /\
    s3_objects Demo.world_after_run
      !! (Demo.bucket, audio_key_of (video_name_of Demo.video_key)) = Some wav.
Proof.
  apply (stored_audio_is_the_converted_video Demo.ffmpeg Demo.json_loads 5 Demo.uri
           "us-west-2" 16000 "en-US" Demo.world Demo.bucket Demo.video_key Demo.text
           ["Hello world"; "This is a test."] Demo.world_after_run).
  - reflexivity.
  - vm_compute. reflexivity.
Defined.

(** ** The names of the jobs *)

Lemma append_cancel_l (a x y : string) : a +:+ x = a +:+ y -> x = y.
Proof.
  induction a as [|c a IH]; [now rewrite !append_nil_l|].
  rewrite !append_cons. intros [= E]. now apply IH.
Qed.

Lemma append_cancel_r (x y s : string) : x +:+ s = y +:+ s -> x = y.
Proof.
  intros E. apply (f_equal Py.rev_string) in E.
  rewrite !rev_string_append in E. apply append_cancel_l in E.
  apply (f_equal Py.rev_string) in E. now rewrite !rev_string_involutive in E.
Qed.

(** X19. The second in the name keeps the jobs of one video apart: the
    job names built for the same video name at two different seconds
    differ, and so do the keys of the output documents of the two jobs. *)
Theorem job_names_differ_by_the_second video_name (t t' : Z) :
  t <> t' ->
  job_name_of video_name t <> job_name_of video_name t' /\
  output_key_of (job_name_of video_name t) <> output_key_of (job_name_of video_name t').
Proof.
  intros Ht.
  assert (Hn : job_name_of video_name t <> job_name_of video_name t').
  { unfold job_name_of, Py.str_int. intros E.
    do 3 apply append_cancel_l in E. now apply (inj pretty) in E. }
  split; [exact Hn|].
  unfold output_key_of. intros E.
  apply append_cancel_l, append_cancel_r in E. contradiction.
Qed.

Lemma job_names_differ_by_the_second_witness :
  job_name_of "team-sync" 1700000000 <> job_name_of "team-sync" 1700000001 /\
  output_key_of (job_name_of "team-sync" 1700000000)
    <> output_key_of (job_name_of "team-sync" 1700000001).
Proof.
  apply (job_names_differ_by_the_second "team-sync" 1700000000 1700000001). lia.
Defined.

(** ** The derived names, as the runs use them *)

(** *** The numeral of the clock *)

Lemma digit_value_pretty (d : N) : (d < 10)%N -> digit_value (pretty_N_char d) = Some d.
Proof.
  intros H.
  assert (d = 0 \/ d = 1 \/ d = 2 \/ d = 3 \/ d = 4 \/ d = 5 \/ d = 6 \/ d = 7 \/
          d = 8 \/ d = 9)%N as Hd by lia.
  repeat (destruct Hd as [->|Hd]; [reflexivity|]). now subst d.
Qed.

Lemma read_digits_pretty_go x : forall s, read_digits 0 (pretty_N_go x s) = read_digits x s.
Proof.
  induction (N.lt_wf_0 x) as [x _ IH]. intros s.
  assert (x = 0 \/ 0 < x)%N as [->|Hx] by lia; [now rewrite pretty_N_go_0|].
  rewrite pretty_N_go_step by exact Hx.
  rewrite IH by (apply N.div_lt; lia). cbn [read_digits].
  rewrite digit_value_pretty by (apply N.mod_lt; lia).
  now rewrite <- (N.div_mod x 10) by lia.
Qed.

Lemma no_leading_zero_pretty_go x :
  forall s, (0 < x)%N -> String.prefix "0" (pretty_N_go x s) = false.
Proof.
  induction (N.lt_wf_0 x) as [x _ IH]. intros s Hx.
  rewrite pretty_N_go_step by exact Hx.
  destruct (decide (x / 10 = 0)%N) as [E|E].
  - rewrite E, pretty_N_go_0. apply N.div_small_iff in E; [|lia].
    rewrite N.mod_small by exact E.
    assert (x = 1 \/ x = 2 \/ x = 3 \/ x = 4 \/ x = 5 \/ x = 6 \/ x = 7 \/
            x = 8 \/ x = 9)%N as Hd by lia.
    repeat (destruct Hd as [->|Hd]; [reflexivity|]). now subst x.
  - apply IH; [apply N.div_lt; lia | now apply N.neq_0_lt_0].
Qed.

Lemma pretty_pos_is_decimal (p : positive) :
  read_digits 0 (pretty p) = Some (Npos p) /\ String.prefix "0" (pretty p) = false.
Proof.
  unfold pretty, pretty_positive, pretty, pretty_N.
  destruct (decide (Npos p = 0%N)); [discriminate|]. split.
  - now rewrite read_digits_pretty_go.
  - now apply no_leading_zero_pretty_go.
Qed.

(** [str(int(t))] is the decimal numeral of [t]. *)
Lemma str_int_is_decimal (t : Z) : is_decimal_of (Py.str_int t) t.
Proof.
  unfold Py.str_int. destruct t as [|p|p]; cbn [is_decimal_of].
  - reflexivity.
  - apply pretty_pos_is_decimal.
  - exists (pretty p). split; [reflexivity | apply pretty_pos_is_decimal].
Qed.

Example epoch_is_decimal : is_decimal_of "1700000000" 1700000000.
Proof. split; reflexivity. Qed.

(** *** The clock before the job *)

#[global] Instance same_clock_preorder : PreOrder same_clock.
Proof.
  split; [now intros w | intros w1 w2 w3 H1 H2; unfold same_clock in *; congruence].
Qed.

Lemma same_clock_modify (f : World -> World) :
  (forall w, clock (f w) = clock w) -> preserves same_clock (modify f).
Proof. intros H w. apply H. Qed.

Lemma same_clock_s3_api : preserves same_clock s3_api.
Proof. now intros w. Qed.

Ltac same_clock_base :=
  idtac;
  lazymatch goal with
  | |- preserves _ (emit _) => apply same_clock_modify; intros; reflexivity
  | |- preserves _ (print _) => apply same_clock_modify; intros; reflexivity
  | |- preserves _ (modify _) => apply same_clock_modify; intros; reflexivity
  | |- preserves _ s3_api => apply same_clock_s3_api
  | |- preserves _ (NamedTemporaryFile _) => unfold NamedTemporaryFile
  | |- preserves _ (s3_upload_file _ _ _) => unfold s3_upload_file
  end.

Ltac same_clock := repeat preserves_step same_clock_base.

(** *** The events of the job *)

Lemma wait_for_job_ok_trace fuel name :
  forall w st w',
    wait_for_job fuel name w = (Ok st, w') ->
    exists n,
      trace w' = trace w ++ waiting_events (poll_script w) name (polls_done w) n
                         ++ [EvGetJob name (PollOk st)].
Proof.
  induction fuel as [|fuel IH]; intros w st w' Run; [discriminate|].
  cbn [wait_for_job] in Run. unfold bind at 1 in Run.
  rewrite get_transcription_job_cases in Run.
  destruct (jobs w !! name) as [out|]; [|discriminate].
  cbv zeta in Run. destruct (poll_script w (polls_done w)) as [r|e] eqn:Hr; [|discriminate].
  destruct (terminal (TranscriptionJobStatus r)) eqn:T.
  - injection Run as <- <-. exists 0. destruct (String.eqb _ _); reflexivity.
  - unfold bind, print, time_sleep, emit, modify in Run. cbn in Run.
    apply IH in Run as (n & E). exists (S n). rewrite E.
    destruct (String.eqb _ _); cbn; rewrite Hr; now rewrite <- !app_assoc.
Qed.

Lemma run_transcription_job_ok_trace fuel name uri bucket lang w key w' :
  run_transcription_job fuel name uri bucket lang w = (Ok key, w') ->
  key = output_key_of name /\
  exists polls,
    completed_polls name polls /\
    trace w' = trace w ++ EvStartJob name uri lang bucket key :: polls.
Proof.
  unfold run_transcription_job. cbv zeta. intros Run.
  apply bind_ok_inv in Run as ([] & w1 & Hs & Run).
  apply bind_ok_inv in Run as (st & w2 & Hw & Run).
  destruct (start_transcription_job_trace name uri lang bucket (output_key_of name) w)
    as [Ht _].
  rewrite Hs in Ht. cbn [snd] in Ht.
  destruct (String.eqb (TranscriptionJobStatus st) "FAILED") eqn:F; [discriminate|].
  injection Run as <- <-. split; [reflexivity|].
  destruct (wait_for_job_returns_last _ _ _ _ _ Hw) as (T & _).
  apply wait_for_job_ok_trace in Hw as (n & E).
  eexists. split.
  - exists (poll_script w1), (polls_done w1), n, st.
    split; [now apply terminal_not_failed | reflexivity].
  - rewrite E, Ht. now rewrite <- app_assoc.
Qed.

(** *** A fresh run, event by event *)

Lemma time_time_inv w now w' : time_time w = (Ok now, w') -> now = clock w /\ w' = w.
Proof. unfold time_time. now intros [= <- <-]. Qed.

Lemma json_load_file_inv json_loads path w data w' :
  json_load_file json_loads path w = (Ok data, w') -> w' = log [EvOpenRead path] w.
Proof.
  unfold json_load_file, decode_utf8, bind, emit, modify, get_world, ret, raise. cbn.
  destruct (local_files w !! path) as [bytes|]; [|discriminate].
  destruct (Utf8.valid bytes); [|discriminate].
  destruct (json_loads bytes); [|discriminate]. now intros [= _ <-].
Qed.

Lemma subscript_key_inv v key w r w' : subscript_key v key w = (Ok r, w') -> w' = w.
Proof.
  unfold subscript_key, ret, raise. destruct v as [| | | | |members]; try discriminate.
  destruct (find _ members); [|discriminate]. now intros [= _ <-].
Qed.

Lemma subscript_0_inv v w r w' : subscript_0 v w = (Ok r, w') -> w' = w.
Proof.
  unfold subscript_0, ret, raise. destruct v as [| | |s|[|x l]|]; try discriminate.
  - destruct (Utf8.first_char s); [|discriminate]. now intros [= _ <-].
  - now intros [= _ <-].
Qed.

Lemma job_names_spelled video_name t :
  job_name_of video_name t = ("transcribe-" +:+ video_name +:+ "-") +:+ Py.str_int t /\
  output_key_of (job_name_of video_name t) =
    "transcription/" +:+ ("transcribe-" +:+ video_name +:+ "-") +:+ Py.str_int t +:+ ".json".
Proof.
  unfold output_key_of, job_name_of. now rewrite !append_assoc.
Qed.

Lemma transcribe_fresh_run ffmpeg json_loads fuel uri rg rate lang w b k text segments w' :
  fst (parse_s3_uri uri w) = Ok (b, k) ->
  transcribe_s3_video_with_cache ffmpeg json_loads fuel uri rg rate lang w
    = (Ok (text, segments, false), w') ->
  runs_fresh_with w w' b k
    ("transcription/" +:+ video_name_of k +:+ ".txt")
    ("audio/" +:+ video_name_of k +:+ ".wav")
    ("transcribe-" +:+ video_name_of k +:+ "-") rate lang text.
Proof.
  intros Hp Hrun.
  rewrite (transcribe_after_parse _ _ _ _ _ _ _ _ _ _ Hp) in Hrun.
  unfold bind at 1, ret at 1 in Hrun. cbv zeta in Hrun.
  apply bind_ok_inv in Hrun as ([hit cached] & w1 & Hc & Hrun).
  destruct (check_cache_effects b (transcript_key_of (video_name_of k)) rg w)
    as (_ & Ht1 & _ & _ & _ & Hc1).
  rewrite Hc in Ht1, Hc1. cbn [snd] in Ht1, Hc1.
  destruct hit.
  { unfold bind, print, emit, modify, ret in Hrun. discriminate Hrun. }
  apply bind_ok_inv in Hrun as ([] & w2 & Hpr & Hrun). apply print_inv in Hpr. subst w2.
  apply bind_ok_inv in Hrun as (tmp_video & w3 & Hd & Hrun).
  rewrite download_from_s3_cases in Hd. cbv zeta in Hd. cbn in Hd.
  destruct (hd None (s3_faults w1)); [discriminate|].
  destruct (s3_objects w1 !! (b, k)) as [video|]; [|discriminate].
  injection Hd as <- <-.
  apply bind_ok_inv in Hrun as ([] & w4 & Hpr & Hrun). apply print_inv in Hpr. subst w4.
  apply bind_ok_inv in Hrun as (wav_path & w5 & He & Hrun).
  rewrite extract_audio_ffmpeg_cases in He. cbv zeta in He. cbn in He.
  destruct (_ !! _) as [video'|] in He; [|discriminate].
  destruct (ffmpeg video' rate) as [wav|]; [|discriminate].
  injection He as <- <-.
  apply bind_ok_inv in Hrun as ([] & w6 & Hpr & Hrun). apply print_inv in Hpr. subst w6.
  apply bind_ok_inv in Hrun as (s3_audio_uri & w7 & Hu & Hrun).
  apply upload_to_s3_inv in Hu as (body & _ & -> & ->).
  apply bind_ok_inv in Hrun as (now & w8 & Hnow & Hrun).
  apply time_time_inv in Hnow as [-> ->]. cbn [clock set_s3_objects set_s3_faults
    set_local_files set_tmp_serial set_trace log] in Hrun.
  rewrite Hc1 in Hrun.
  apply bind_ok_inv in Hrun as ([] & w9 & Hpr & Hrun). apply print_inv in Hpr. subst w9.
  apply bind_ok_inv in Hrun as (output_json_key & w10 & Hjob & Hrun).
  apply run_transcription_job_ok_trace in Hjob as (-> & polls & Hpolls & Ht10).
  apply bind_ok_inv in Hrun as (tmp_json & w11 & Hd & Hrun).
  rewrite download_from_s3_cases in Hd. cbv zeta in Hd.
  destruct (hd None (s3_faults w10)); [discriminate|].
  destruct (s3_objects w10 !! _) as [doc|]; [|discriminate].
  injection Hd as <- <-.
  apply bind_ok_inv in Hrun as (data & w12 & Hj & Hrun).
  apply json_load_file_inv in Hj. subst w12.
  apply bind_ok_inv in Hrun as (results & w13 & Hs & Hrun).
  apply subscript_key_inv in Hs. subst w13.
  apply bind_ok_inv in Hrun as (transcripts & w13 & Hs & Hrun).
  apply subscript_key_inv in Hs. subst w13.
  apply bind_ok_inv in Hrun as (first & w13 & Hs & Hrun).
  apply subscript_0_inv in Hs. subst w13.
  apply bind_ok_inv in Hrun as (full_transcript & w13 & Hs & Hrun).
  apply subscript_key_inv in Hs. subst w13.
  apply bind_ok_inv in Hrun as ([] & w13 & Hpr & Hrun). apply print_inv in Hpr. subst w13.
  apply bind_ok_inv in Hrun as ([] & w14 & Hsave & Hrun).
  destruct full_transcript as [| | |body'| |]; try discriminate.
  apply save_transcript_cache_inv in Hsave as (_ & ->).
  injection Hrun as <- _ <-.
  destruct (job_names_spelled (video_name_of k) (clock w)) as [Ej Eo].
  rewrite Eo, Ej in Ht10. rewrite Ej in Hpolls.
  unfold transcript_key_of, audio_key_of in *.
  assert (Hl : exists lookup,
             (lookup = [] \/
              lookup = [EvGetObject b ("transcription/" +:+ video_name_of k +:+ ".txt")]) /\
             trace w1 = trace w ++
               EvHeadObject b ("transcription/" +:+ video_name_of k +:+ ".txt") :: lookup).
  { destruct Ht1 as [E|E]; eexists; (split; [|exact E]); auto. }
  destruct Hl as (lookup & Hl & Et1).
  exists (Py.str_int (clock w)), lookup, polls. eexists _, _, _.
  split; [apply str_int_is_decimal|]. split; [exact Hl|]. split; [exact Hpolls|].
  cbn. rewrite Ht10. cbn. rewrite Et1, Eo. unfold fresh_run_events.
  rewrite <- !app_assoc. cbn [app]. reflexivity.
Qed.

(** *** The job names of every run *)

Lemma no_job_names video_name t e : no_job e -> names_job video_name t e.
Proof. now destruct e. Qed.

Lemma names_of_quiet video_name {A} (c : M A) :
  preserves (only_events no_job) c ->
  forall w, only_events (names_job video_name (clock w)) w (snd (c w)).
Proof.
  intros Hn w. destruct (Hn w) as (evs & E & F). exists evs.
  split; [exact E|]. eapply Forall_impl; [exact F|]. apply no_job_names.
Qed.

Lemma names_bind_early video_name {A B} (c : M A) (k : A -> M B) :
  preserves same_clock c ->
  preserves (only_events no_job) c ->
  (forall a w, only_events (names_job video_name (clock w)) w (snd (k a w))) ->
  forall w, only_events (names_job video_name (clock w)) w (snd (bind c k w)).
Proof.
  intros Hc Hn Hk w.
  assert (H1 := names_of_quiet video_name c Hn w). specialize (Hc w).
  unfold bind. destruct (c w) as [[a|e|] w1]; cbn [snd] in *; try exact H1.
  specialize (Hk a w1). unfold same_clock in Hc. rewrite Hc in Hk.
  now transitivity w1.
Qed.

Lemma job_name_is_named video_name now :
  exists epoch, is_decimal_of epoch now /\
    job_name_of video_name now = "transcribe-" +:+ video_name +:+ "-" +:+ epoch.
Proof. exists (Py.str_int now). split; [apply str_int_is_decimal | reflexivity]. Qed.

Lemma transcribe_names_job ffmpeg json_loads fuel uri rg rate lang w b k :
  fst (parse_s3_uri uri w) = Ok (b, k) ->
  only_events (names_job (video_name_of k) (clock w)) w
    (snd (transcribe_s3_video_with_cache ffmpeg json_loads fuel uri rg rate lang w)).
Proof.
  intros Hp. rewrite (transcribe_after_parse _ _ _ _ _ _ _ _ _ _ Hp).
  unfold bind at 1, ret at 1. cbv zeta. clear Hp. revert w.
  apply names_bind_early; [same_clock | only_events; exact I |].
  intros [hit cached]. destruct hit.
  { apply names_of_quiet. only_events; exact I. }
  apply names_bind_early; [same_clock | only_events; exact I |]. intros _.
  apply names_bind_early; [same_clock | only_events; exact I |]. intros tmp_video.
  apply names_bind_early; [same_clock | only_events; exact I |]. intros _.
  apply names_bind_early; [same_clock | only_events; exact I |]. intros wav_path.
  apply names_bind_early; [same_clock | only_events; exact I |]. intros _.
  apply names_bind_early; [same_clock | only_events; exact I |]. intros s3_audio_uri.
  intros w. unfold bind at 1, time_time at 1.
  generalize (clock w) as now. intros now. revert w.
  change (preserves (only_events (names_job (video_name_of k) now))
            (print ("📝 Starting Amazon Transcribe job: "
                    +:+ job_name_of (video_name_of k) now) ;;
             do output_json_key <-
               run_transcription_job fuel (job_name_of (video_name_of k) now)
                 s3_audio_uri b lang;
             do tmp_json <- download_from_s3 b output_json_key rg;
             do data <- json_load_file json_loads tmp_json;
             do results <- subscript_key data "results";
             do transcripts <- subscript_key results "transcripts";
             do first <- subscript_0 transcripts;
             do full_transcript <- subscript_key first "transcript";
             print "💾 Caching transcript to S3..." ;;
             save_transcript_cache b (transcript_key_of (video_name_of k))
               full_transcript rg ;;
             match full_transcript with
             | JString text => ret (text, Py.split text ". ", false)
             | _ => raise (OtherError "AttributeError")
             end)).
  apply preserves_bind; [apply _ | only_events; exact I |]. intros _.
  apply preserves_bind;
    [apply _
    |apply run_transcription_job_only_events; cbn;
       auto using job_name_is_named
    |intros ?; only_events; exact I].
Qed.

(** Every run begins with the lookup under the transcript key. *)
Lemma transcribe_starts_with_the_lookup ffmpeg json_loads fuel uri rg rate lang w b k :
  fst (parse_s3_uri uri w) = Ok (b, k) ->
  exists rest,
    trace (snd (transcribe_s3_video_with_cache ffmpeg json_loads fuel uri rg rate lang w))
      = trace w ++ EvHeadObject b (transcript_key_of (video_name_of k)) :: rest.
Proof.
  intros Hp. rewrite (transcribe_after_parse _ _ _ _ _ _ _ _ _ _ Hp).
  unfold bind at 1, ret at 1. cbv zeta.
  destruct (check_cache_effects b (transcript_key_of (video_name_of k)) rg w)
    as (_ & Ht & _).
  assert (H1 : exists l, trace (snd (check_cache b (transcript_key_of (video_name_of k)) rg w))
                         = trace w ++ EvHeadObject b (transcript_key_of (video_name_of k)) :: l)
    by (destruct Ht as [E|E]; eexists; exact E).
  destruct H1 as (l & E). clear Ht.
  match goal with
  | |- context [bind ?c ?K w] =>
      assert (HK : forall a, preserves (only_events (fun _ => True)) (K a))
  end.
  { intros [hit cached]. destruct hit; [only_events; exact I|].
    do 8 (apply preserves_bind; [apply _ | only_events; exact I |]; intros ?).
    apply preserves_bind;
      [apply _
      |apply run_transcription_job_only_events; auto
      |intros ?; only_events; exact I]. }
  unfold bind at 1.
  destruct (check_cache _ _ _ w) as [[a|e|] w1]; cbn [snd] in E |- *; eauto.
  destruct (HK a w1) as (evs & E' & _). exists (l ++ evs).
  rewrite E', E. now rewrite <- app_assoc.
Qed.

(** C4. The names a run uses.  For the video key "video/team-sync.mp4"
    a run that transcribes (it returns with the flag False) does the
    lookup and the final put under "transcription/team-sync.txt",
    uploads the audio under "audio/team-sync.wav", starts its job under
    the name "transcribe-team-sync-" followed by the decimal numeral of
    the clock of the call, with the output key "transcription/" job
    name ".json", and fetches that key: the events of the run are
    exactly these.  For every reference the same holds with the video
    name of its key: the transcript key and the audio key depend on the
    reference only, so they are the same in every call, and only the
    job name varies, with the clock.  And in every run, whatever its
    outcome, the first event is the lookup under the transcript key,
    each event names only the bucket and the names derived from the
    video name, and each job event names the job of the clock of the
    call. *)
Theorem derived_keys_are_fixed :
  (forall ffmpeg json_loads fuel uri rg rate lang w b text segments w',
     fst (parse_s3_uri uri w) = Ok (b, "video/team-sync.mp4") ->
     transcribe_s3_video_with_cache ffmpeg json_loads fuel uri rg rate lang w
       = (Ok (text, segments, false), w') ->
     runs_fresh_with w w' b "video/team-sync.mp4"
       "transcription/team-sync.txt" "audio/team-sync.wav" "transcribe-team-sync-"
       rate lang text) /\
  (forall ffmpeg json_loads fuel uri rg rate lang w b k text segments w',
     fst (parse_s3_uri uri w) = Ok (b, k) ->
     transcribe_s3_video_with_cache ffmpeg json_loads fuel uri rg rate lang w
       = (Ok (text, segments, false), w') ->
     runs_fresh_with w w' b k
       ("transcription/" +:+ video_name_of k +:+ ".txt")
       ("audio/" +:+ video_name_of k +:+ ".wav")
       ("transcribe-" +:+ video_name_of k +:+ "-")
       rate lang text) /\
  (forall ffmpeg json_loads fuel uri rg rate lang w b k,
     fst (parse_s3_uri uri w) = Ok (b, k) ->
     let w' := snd (transcribe_s3_video_with_cache ffmpeg json_loads fuel uri
                      rg rate lang w) in
     (exists rest,
        trace w' = trace w ++
          EvHeadObject b ("transcription/" +:+ video_name_of k +:+ ".txt") :: rest) /\
     only_events (uses_keys b k) w w' /\
     only_events (names_job (video_name_of k) (clock w)) w w').
Proof.
  split; [|split].
  - intros * Hp Hrun.
    exact (transcribe_fresh_run _ _ _ _ _ _ _ _ _ _ _ _ _ Hp Hrun).
  - intros * Hp Hrun.
    exact (transcribe_fresh_run _ _ _ _ _ _ _ _ _ _ _ _ _ Hp Hrun).
  - intros * Hp w'. split; [|split].
    + exact (transcribe_starts_with_the_lookup _ _ _ _ _ _ _ _ _ _ Hp).
    + now apply (transcribe_uses_keys _ _ _ _ _ _ _ _ _ _ Hp).
    + exact (transcribe_names_job _ _ _ _ _ _ _ _ _ _ Hp).
Qed.

Lemma derived_keys_are_fixed_witness :
  runs_fresh_with Demo.world Demo.world_after_run Demo.bucket "video/team-sync.mp4"
    "transcription/team-sync.txt" "audio/team-sync.wav" "transcribe-team-sync-"
    16000 "en-US" Demo.text.
Proof.
  apply (proj1 derived_keys_are_fixed Demo.ffmpeg Demo.json_loads 5%nat Demo.uri
           "us-west-2" 16000%Z "en-US" Demo.world Demo.bucket Demo.text
           ["Hello world"; "This is a test."] Demo.world_after_run).
  - reflexivity.
  - vm_compute. reflexivity.
Defined.
